(** * craft: the release / publish orchestration engine

    A shallow embedding of the artifact store ([src/stores/zeus.ts]), the
    base target ([targets/base.ts]), the GitHub and PyPI targets and the
    [release] command, followed by the properties the specification states
    about them.

    Conventions of the embedding.
    - A promise is represented by the way it settles ([Resolved] or
      [Rejected]); the same type records how a synchronous call completes
      (it returns a value or throws).  An [async] function is a computation
      [M A]: running it yields the promise it returns and the process after
      the synchronous part of the call.  [await] turns a promise into the
      continuation of the computation (a rejection is rethrown).
    - The two caches of the store are finite maps from strings; their keys
      are download URLs and commit identifiers, never the name of a property
      that every JavaScript object inherits.
    - External collaborators (Zeus client, simple-git, octokit, the file
      system, child processes) are oracles: records of the answers they give.
      Where the code calls a collaborator more than once, the answer may
      depend on how many times it has been called before.
    - Every collaborator call and every [logger] call above debug level is
      recorded, in order, in the [trace] of the process. *)

From Stdlib Require Import String Ascii ZArith List Bool Lia.
From stdpp Require Import base gmap strings list pretty.
Import ListNotations.
Open Scope string_scope.
Open Scope list_scope.

(** ** JavaScript values the code relies on *)

Module Js.

(** An [Error] object: the code reads [message] and, for HTTP failures,
    [code]. *)
Record JsError := mkError { message : string; code : option Z }.

Definition Error (msg : string) : JsError := mkError msg None.

(** The settled state of a [Promise<A>]. *)
Inductive Promise (A : Type) : Type :=
| Resolved (a : A)
| Rejected (e : JsError).
Arguments Resolved {A} a.
Arguments Rejected {A} e.

Definition isResolved {A} (p : Promise A) : bool :=
  match p with Resolved _ => true | Rejected _ => false end.

Definition isRejected {A} (p : Promise A) : bool := negb (isResolved p).

(** Truthiness of a string, of an array length and of a number. *)
Definition truthy (s : string) : bool := negb (String.eqb s "").

Definition lengthTruthy {A} (l : list A) : bool :=
  match l with [] => false | _ :: _ => true end.

(** [a || b] on strings. *)
Definition orElse (a b : string) : string := if truthy a then a else b.

End Js.
Export Js.

(** ** Regular expressions

    [RegExp.test] for expressions without flags: an unanchored search, by
    derivatives.  [Bos] and [Eos] are the assertions [^] and [$].  Without
    the flags [g] and [y] the method keeps no state between calls. *)

Module RegExp.

Inductive RegExp : Type :=
| Never
| Eps
| Chr (c : ascii)
| AnyChr
| Seq (r1 r2 : RegExp)
| Alt (r1 r2 : RegExp)
| Star (r : RegExp)
| Bos
| Eos.

Fixpoint nullable (bos eos : bool) (r : RegExp) : bool :=
  match r with
  | Never | Chr _ | AnyChr => false
  | Eps | Star _ => true
  | Seq r1 r2 => nullable bos eos r1 && nullable bos eos r2
  | Alt r1 r2 => nullable bos eos r1 || nullable bos eos r2
  | Bos => bos
  | Eos => eos
  end.

Definition isLineTerminator (c : ascii) : bool :=
  Ascii.eqb c "010"%char || Ascii.eqb c "013"%char.

(** The derivative with respect to [c]; [bos] tells whether [c] is the
    first character of the input. *)
Fixpoint deriv (bos : bool) (c : ascii) (r : RegExp) : RegExp :=
  match r with
  | Never | Eps | Bos | Eos => Never
  | Chr d => if Ascii.eqb c d then Eps else Never
  | AnyChr => if isLineTerminator c then Never else Eps
  | Seq r1 r2 =>
      if nullable bos false r1
      then Alt (Seq (deriv bos c r1) r2) (deriv bos c r2)
      else Seq (deriv bos c r1) r2
  | Alt r1 r2 => Alt (deriv bos c r1) (deriv bos c r2)
  | Star r1 => Seq (deriv bos c r1) (Star r1)
  end.

(** Does some prefix of [s] match [r]? *)
Fixpoint matchHere (bos : bool) (r : RegExp) (s : string) : bool :=
  match s with
  | EmptyString => nullable bos true r
  | String c s' => nullable bos false r || matchHere false (deriv bos c r) s'
  end.

Fixpoint search (bos : bool) (r : RegExp) (s : string) : bool :=
  matchHere bos r s ||
  match s with
  | EmptyString => false
  | String _ s' => search false r s'
  end.

Definition test (r : RegExp) (s : string) : bool := search true r s.

(** The expression matching exactly the characters of [s]. *)
Fixpoint lit (s : string) : RegExp :=
  match s with
  | EmptyString => Eps
  | String c s' => Seq (Chr c) (lit s')
  end.

End RegExp.

(** ** Data model *)

(** [Artifact] of [@zeus-ci/sdk], with the fields the code reads. *)
Record Artifact := mkArtifact {
  name : string;
  download_url : string;
  type : option string;
}.

(** [Status] and [Result] of [@zeus-ci/sdk] are string enumerations. *)
Module Status.
Definition FINISHED : string := "finished".
End Status.

Module Result.
Definition PASSED : string := "passed".
End Result.

Record RevisionInfo := mkRevisionInfo {
  status : string;
  result : string;
}.

(** [FilterOptions] of [stores/zeus.ts]: both matchers are optional. *)
Record FilterOptions := mkFilterOptions {
  includeNames : option RegExp.RegExp;
  excludeNames : option RegExp.RegExp;
}.

(** [StatusSummary] of simple-git, with the fields the code reads. *)
Record StatusSummary := mkStatus {
  current : string;
  conflicted : list string;
  created : list string;
  deleted : list string;
  modified : list string;
  renamed : list string;
  staged : list string;
  ahead : Z;
}.

(** [GithubRelease] of [targets/github.ts]. *)
Record GithubRelease := mkRelease {
  id : Z;
  tag_name : string;
  upload_url : string;
}.

(** [Changeset] as returned by [findChangeset]. *)
Record Changeset := mkChangeset {
  cs_name : string;
  cs_body : string;
}.

(** Parameters of [repos.createRelease]. *)
Record CreateReleaseParams := mkCreateParams {
  cr_draft : bool;
  cr_name : string;
  cr_owner : string;
  cr_prerelease : bool;
  cr_repo : string;
  cr_tag_name : string;
  cr_target_commitish : string;
  cr_body : option string;
}.

(** Parameters of [repos.uploadAsset]; [file] is the stream opened on the
    path. *)
Record UploadAssetParams := mkUploadParams {
  up_contentLength : Z;
  up_contentType : string;
  up_file : string;
  up_id : Z;
  up_name : string;
  up_url : string;
}.

(** [PublishOptions] of [commands/publish.ts]. *)
Record PublishOptions := mkPublishOptions {
  keepBranch : bool;
  keepDownloads : bool;
  po_newVersion : string;
  noMerge : bool;
  noStatusCheck : bool;
}.

(** ** The process: trace, store and dry-run flag *)

Inductive LogLevel := LInfo | LWarn | LError | LSuccess.

Inductive Event : Type :=
| Log (level : LogLevel) (args : list string)
(* Zeus client *)
| ZeusDownloadArtifact (a : Artifact)
| ZeusListArtifactsForRevision (owner repo revision : string)
| ZeusGetRevision (owner repo revision : string)
(* simple-git *)
| GitCheckIsRepo
| GitStatus
| GitRevparse (args : list string)
| GitCheckoutLocalBranch (branch : string)
| GitCommit (msg : string) (all : bool)
| GitPush (remote branch : string) (setUpstream : bool)
(* octokit *)
| GithubGetReleaseByTag (owner repo tag : string)
| GithubGetContent (owner path ref repo : string)
| GithubGetDefaultBranch (owner repo : string)
| GithubCreateRelease (params : CreateReleaseParams)
| GithubUploadAsset (params : UploadAssetParams)
(* file system, child processes, process *)
| FsStat (path : string)
| FsExists (path : string)
| FsReadFile (path : string)
| SpawnProcess (command : option string) (args : list string)
    (env : gmap string string)
| SleepAsync (ms : Z)
| Chdir (dir : string)
| PublishMain (options : PublishOptions)
| ProcessExit (status : Z).

(** The state-changing collaborator methods. *)
Definition stateChanging (e : Event) : bool :=
  match e with
  | GitCheckoutLocalBranch _ | GitCommit _ _ | GitPush _ _ _
  | GithubCreateRelease _ | GithubUploadAsset _ => true
  | _ => false
  end.

Definition isZeusDownload (e : Event) : bool :=
  match e with ZeusDownloadArtifact _ => true | _ => false end.

Definition isZeusList (e : Event) : bool :=
  match e with ZeusListArtifactsForRevision _ _ _ => true | _ => false end.

Definition isZeusGetRevision (e : Event) : bool :=
  match e with ZeusGetRevision _ _ _ => true | _ => false end.

Definition isGitStatus (e : Event) : bool :=
  match e with GitStatus => true | _ => false end.

(** How many calls of a kind the trace already holds. *)
Definition calls (kind : Event -> bool) (t : list Event) : nat :=
  length (List.filter kind t).

(** The Zeus client: the [n]-th call of a method gets the [n]-th answer. *)
Record ZeusClient := mkZeusClient {
  client_downloadArtifact : nat -> Artifact -> Promise string;
  client_listArtifactsForRevision :
    nat -> string -> string -> string -> Promise (list Artifact);
  client_getRevision : nat -> string -> string -> string -> Promise RevisionInfo;
}.

(** [ZeusStore]: the client, the project and the two caches. *)
Record ZeusStore := mkZeusStore {
  client : ZeusClient;
  repoOwner : string;
  repoName : string;
  downloadCache : gmap string (Promise string);
  fileListCache : gmap string (Promise (list Artifact));
}.

(** [new ZeusStore(repoOwner, repoName)] *)
Definition newZeusStore (c : ZeusClient) (owner repo : string) : ZeusStore :=
  mkZeusStore c owner repo ∅ ∅.

Record World := mkWorld {
  dryRun : bool;
  trace : list Event;
  store : ZeusStore;
}.

Definition withTrace (w : World) (t : list Event) : World :=
  mkWorld (dryRun w) t (store w).

Definition withStore (w : World) (s : ZeusStore) : World :=
  mkWorld (dryRun w) (trace w) s.

Definition withDownloadCache (s : ZeusStore) (c : gmap string (Promise string))
  : ZeusStore :=
  mkZeusStore (client s) (repoOwner s) (repoName s) c (fileListCache s).

Definition withFileListCache (s : ZeusStore)
  (c : gmap string (Promise (list Artifact))) : ZeusStore :=
  mkZeusStore (client s) (repoOwner s) (repoName s) (downloadCache s) c.

(** ** The monad of effectful code *)

Definition M (A : Type) : Type := World -> Promise A * World.

Definition ret {A} (a : A) : M A := fun w => (Resolved a, w).

Definition throw {A} (e : JsError) : M A := fun w => (Rejected e, w).

Definition bind {A B} (m : M A) (f : A -> M B) : M B :=
  fun w =>
    match m w with
    | (Resolved a, w') => f a w'
    | (Rejected e, w') => (Rejected e, w')
    end.

(** [try { m } catch (e) { h e }] *)
Definition tryCatch {A} (m : M A) (h : JsError -> M A) : M A :=
  fun w =>
    match m w with
    | (Resolved a, w') => (Resolved a, w')
    | (Rejected e, w') => h e w'
    end.

(** Calling an [async] function without awaiting it: the promise is a
    value. *)
Definition call {A} (m : M A) : M (Promise A) :=
  fun w => let (p, w') := m w in (Resolved p, w').

Definition await {A} (p : Promise A) : M A := fun w => (p, w).

Definition emit (e : Event) : M unit :=
  fun w => (Resolved tt, withTrace w (trace w ++ [e])).

Definition getTrace : M (list Event) := fun w => (Resolved (trace w), w).

Definition getStore : M ZeusStore := fun w => (Resolved (store w), w).

(** [this.downloadCache[key] = promise] and [this.fileListCache[key] =
    promise] *)
Definition setDownloadCache (key : string) (promise : Promise string) : M unit :=
  fun w =>
    (Resolved tt,
     withStore w (withDownloadCache (store w)
                    (<[key := promise]> (downloadCache (store w))))).

Definition setFileListCache (key : string) (promise : Promise (list Artifact))
  : M unit :=
  fun w =>
    (Resolved tt,
     withStore w (withFileListCache (store w)
                    (<[key := promise]> (fileListCache (store w))))).

Declare Scope monad_scope.
Delimit Scope monad_scope with monad.
Notation "x <- m ;; k" := (bind m (fun x => k))
  (at level 100, m at next level, right associativity) : monad_scope.
Notation "m ;; k" := (bind m (fun _ => k))
  (at level 100, right associativity) : monad_scope.
Open Scope monad_scope.

Fixpoint mapM {A B} (f : A -> M B) (l : list A) : M (list B) :=
  match l with
  | [] => ret []
  | x :: l' => y <- f x ;; ys <- mapM f l' ;; ret (y :: ys)
  end.

(** The settlement of [Promise.all]: the values when all resolve, the first
    rejection otherwise. *)
Fixpoint promiseAll {A} (ps : list (Promise A)) : Promise (list A) :=
  match ps with
  | [] => Resolved []
  | Resolved a :: ps' =>
      match promiseAll ps' with
      | Resolved l => Resolved (a :: l)
      | Rejected e => Rejected e
      end
  | Rejected e :: _ => Rejected e
  end.

(** [Promise.all(xs.map(async x => { const y = await start(x); rest }))]:
    every callback runs up to its first [await]; then the continuations run,
    here in the order of the list; no callback is cancelled when another one
    rejects. *)
Definition promiseAllMap {X Y Z} (start : X -> M Y) (rest : X -> Y -> M Z)
  (xs : list X) : M (list Z) :=
  ps <- mapM (fun x => call (start x)) xs ;;
  rs <- mapM (fun xp => call (y <- await (snd xp) ;; rest (fst xp) y))
             (combine xs ps) ;;
  await (promiseAll rs).

(** [logger.info] and friends; debug output is not recorded. *)
Definition log (level : LogLevel) (args : list string) : M unit :=
  emit (Log level args).

(** [isDryRun()] and [shouldPerform()] of the [dryrun] package. *)
Definition isDryRun : M bool := fun w => (Resolved (dryRun w), w).

Definition shouldPerform : M bool := fun w => (Resolved (negb (dryRun w)), w).

(** ** [stores/zeus.ts] *)

Module Zeus.

(** [this.client.downloadArtifact(artifact)] *)
Definition clientDownloadArtifact (artifact : Artifact) : M (Promise string) :=
  s <- getStore ;;
  t <- getTrace ;;
  emit (ZeusDownloadArtifact artifact) ;;
  ret (client_downloadArtifact (client s) (calls isZeusDownload t) artifact).

Definition clientListArtifactsForRevision (owner repo revision : string)
  : M (Promise (list Artifact)) :=
  s <- getStore ;;
  t <- getTrace ;;
  emit (ZeusListArtifactsForRevision owner repo revision) ;;
  ret (client_listArtifactsForRevision (client s) (calls isZeusList t)
         owner repo revision).

Definition clientGetRevision (owner repo revision : string)
  : M (Promise RevisionInfo) :=
  s <- getStore ;;
  t <- getTrace ;;
  emit (ZeusGetRevision owner repo revision) ;;
  ret (client_getRevision (client s) (calls isZeusGetRevision t)
         owner repo revision).

Definition downloadArtifact (artifact : Artifact) : M string :=
  s <- getStore ;;
  match downloadCache s !! download_url artifact with
  | Some cached => await cached
  | None =>
      promise <- clientDownloadArtifact artifact ;;
      setDownloadCache (download_url artifact) promise ;;
      await promise
  end.

Definition downloadArtifacts (artifacts : list Artifact) : M (list string) :=
  ps <- mapM (fun artifact => call (downloadArtifact artifact)) artifacts ;;
  await (promiseAll ps).

Definition listArtifactsForRevision (revision : string) : M (list Artifact) :=
  s <- getStore ;;
  match fileListCache s !! revision with
  | Some cached => await cached
  | None =>
      promise <- clientListArtifactsForRevision (repoOwner s) (repoName s)
                   revision ;;
      setFileListCache revision promise ;;
      await promise
  end.

Definition filterArtifactsForRevision (revision : string)
  (filterOptions : option FilterOptions) : M (list Artifact) :=
  filteredArtifacts <- listArtifactsForRevision revision ;;
  match filterOptions with
  | None => ret filteredArtifacts
  | Some opts =>
      let filteredArtifacts :=
        match includeNames opts with
        | Some includeNames =>
            List.filter (fun artifact => RegExp.test includeNames (name artifact))
              filteredArtifacts
        | None => filteredArtifacts
        end in
      let filteredArtifacts :=
        match excludeNames opts with
        | Some excludeNames =>
            List.filter
              (fun artifact => negb (RegExp.test excludeNames (name artifact)))
              filteredArtifacts
        | None => filteredArtifacts
        end in
      ret filteredArtifacts
  end.

Definition getRevision (revision : string) : M RevisionInfo :=
  s <- getStore ;;
  p <- clientGetRevision (repoOwner s) (repoName s) revision ;;
  await p.

Definition isRevisionBuiltSuccessfully (revisionInfo : RevisionInfo) : bool :=
  String.eqb (status revisionInfo) Status.FINISHED &&
  String.eqb (result revisionInfo) Result.PASSED.

Definition isRevisionFailed (revisionInfo : RevisionInfo) : bool :=
  String.eqb (status revisionInfo) Status.FINISHED &&
  negb (String.eqb (result revisionInfo) Result.PASSED).

Definition isRevisionPending (revisionInfo : RevisionInfo) : bool :=
  negb (String.eqb (status revisionInfo) Status.FINISHED).

(** The public operations of the store, to speak about every way a caller
    can use it. *)
Inductive Op : Type :=
| OpDownloadArtifact (a : Artifact)
| OpDownloadArtifacts (l : list Artifact)
| OpListArtifactsForRevision (revision : string)
| OpFilterArtifactsForRevision (revision : string) (f : option FilterOptions)
| OpGetRevision (revision : string).

Definition runOp (o : Op) (w : World) : World :=
  match o with
  | OpDownloadArtifact a => snd (downloadArtifact a w)
  | OpDownloadArtifacts l => snd (downloadArtifacts l w)
  | OpListArtifactsForRevision r => snd (listArtifactsForRevision r w)
  | OpFilterArtifactsForRevision r f => snd (filterArtifactsForRevision r f w)
  | OpGetRevision r => snd (getRevision r w)
  end.

Definition runOps (os : list Op) (w : World) : World :=
  fold_left (fun w o => runOp o w) os w.

End Zeus.

(** ** [targets/base.ts] *)

Module Base.

(** The part of [TargetConfig] the base class reads. *)
Record TargetConfig := mkTargetConfig {
  includeFiles : option string;
  excludeFiles : option string;
}.

Record BaseTarget := mkBaseTarget {
  config : TargetConfig;
  filterOptions : FilterOptions;
}.

(** A configuration string is used when it is present and not empty. *)
Definition configured (o : option string) : option string :=
  match o with
  | Some s => if truthy s then Some s else None
  | None => None
  end.

(** The constructor; [stringToRegexp] of [utils/filters.ts] is a
    parameter, taken to accept every configured string. *)
Definition newBaseTarget (stringToRegexp : string -> RegExp.RegExp)
  (config : TargetConfig) : BaseTarget :=
  mkBaseTarget config
    (mkFilterOptions
       (option_map stringToRegexp (configured (includeFiles config)))
       (option_map stringToRegexp (configured (excludeFiles config)))).

(** [{...a, ...b}] on filter options: a key of [b] replaces the key of
    [a]. *)
Definition spread (a b : FilterOptions) : FilterOptions :=
  mkFilterOptions
    (match includeNames b with Some r => Some r | None => includeNames a end)
    (match excludeNames b with Some r => Some r | None => excludeNames a end).

Definition emptyFilter : FilterOptions := mkFilterOptions None None.

(** The filter handed to the store by [getArtifactsForRevision]. *)
Definition mergedFilter (this : BaseTarget)
  (defaultFilterOptions : option FilterOptions) : FilterOptions :=
  spread (filterOptions this)
    (match defaultFilterOptions with Some d => d | None => emptyFilter end).

Definition getArtifactsForRevision (this : BaseTarget) (revision : string)
  (defaultFilterOptions : option FilterOptions) : M (list Artifact) :=
  Zeus.filterArtifactsForRevision revision
    (Some (mergedFilter this defaultFilterOptions)).

End Base.

(** ** [targets/pypi.ts]: the artifacts a PyPI target publishes *)

Module Pypi.

(** [/(\.whl|\.gz|\.zip)$/] *)
Definition DEFAULT_PYPI_REGEX : RegExp.RegExp :=
  RegExp.Seq
    (RegExp.Alt (RegExp.lit ".whl")
       (RegExp.Alt (RegExp.lit ".gz") (RegExp.lit ".zip")))
    RegExp.Eos.

(** [/\.(whl|gz|zip)$/], the way the specification writes the expression. *)
Definition packageExtensions : RegExp.RegExp :=
  RegExp.Seq (RegExp.Chr ".")
    (RegExp.Seq
       (RegExp.Alt (RegExp.lit "whl")
          (RegExp.Alt (RegExp.lit "gz") (RegExp.lit "zip")))
       RegExp.Eos).

(** The first statement of [publish]. *)
Definition packageFiles (this : Base.BaseTarget) (revision : string)
  : M (list Artifact) :=
  Base.getArtifactsForRevision this revision
    (Some (mkFilterOptions (Some DEFAULT_PYPI_REGEX) None)).

End Pypi.

(** ** Collaborators of the release command and of the GitHub target *)

(** The simple-git client.  [status] is called twice by the release command;
    its answer depends on the number of earlier calls. *)
Record SimpleGit := mkSimpleGit {
  git_checkIsRepo : Promise bool;
  git_status : nat -> Promise StatusSummary;
  git_revparse : list string -> Promise string;
  git_checkoutLocalBranch : string -> Promise unit;
  git_commit : string -> bool -> Promise unit;
  git_push : string -> string -> bool -> Promise unit;
}.

(** The octokit client; [repos_getContent] answers with
    [response.data.content]. *)
Record Github := mkGithub {
  repos_getReleaseByTag : string -> string -> string -> Promise GithubRelease;
  repos_getContent : string -> string -> string -> string -> Promise string;
  repos_createRelease : CreateReleaseParams -> Promise GithubRelease;
  repos_uploadAsset : UploadAssetParams -> Promise unit;
}.

Module Config.

Record GithubGlobalConfig := mkGithubGlobalConfig {
  owner : string;
  repo : string;
}.

(** The release configuration, with the settings the code reads. *)
Record Configuration := mkConfiguration {
  github : GithubGlobalConfig;
  changelogPolicy : option string;
  changelog : option string;
  preReleaseCommand : option string;
}.

End Config.

Module ChangelogPolicy.
Definition None_ : string := "none".
Definition Simple : string := "simple".
End ChangelogPolicy.

(** What the code takes from its environment: the process environment, the
    configuration, library functions ([path], [fs], [shell-quote], [Buffer])
    and the modules of the project that the sources do not include
    ([findChangeset], [isPreviewRelease], [getDefaultBranch], [publishMain],
    the child process behind [spawnProcess]). *)
Record Env := mkEnv {
  processEnv : gmap string string;
  getConfiguration : Promise Config.Configuration;
  configFileDir : string;
  pathRelative : string -> string -> string;
  pathBasename : string -> string;
  existsSync : string -> bool;
  readFileSync : string -> Promise string;
  statSyncSize : string -> Promise Z;
  findChangeset : string -> string -> option Changeset;
  shellQuoteParse : string -> list string;
  base64decode : string -> string;
  isPreviewRelease : string -> bool;
  childProcess :
    option string -> list string -> gmap string string -> Promise unit;
  publishMainResult : PublishOptions -> Promise unit;
  defaultBranchOf : string -> string -> Promise string;
  simpleGit : string -> SimpleGit;
  octokit : Github;
}.

(** The double-quote character, and a string between two of them. *)
Definition dq : string := String "034"%char EmptyString.

Definition quoted (s : string) : string := dq +:+ s +:+ dq.

(** ** [utils/errors.ts] and [utils/system.ts] *)

Module Errors.

(** Modelled from the spec: [reportError] of [utils/errors.ts], which the
    sources do not include.  The specification classifies the failures the
    release command reports through it (dirty working tree, existing
    branch, nothing to commit) as fatal precondition errors that abort the
    pipeline: the call raises an error carrying the message. *)
Definition reportError (msg : string) : M unit := throw (Error msg).

End Errors.

Module System.

(** Modelled from the spec: [spawnProcess] of [utils/system.ts], which the
    sources do not include.  Section 4.3 of the specification lists the
    invocation of the pre-release hook among the mutations guarded by
    [shouldPerform()]: when it is false the child process is not started
    and the intent is logged; otherwise the process runs, and a non-zero
    exit is an error. *)
Definition spawnProcess (env : Env) (command : option string)
  (args : list string) (processEnvironment : gmap string string) : M unit :=
  perform <- shouldPerform ;;
  if perform then
    emit (SpawnProcess command args processEnvironment) ;;
    await (childProcess env command args processEnvironment)
  else
    log LInfo ("[dry-run] Not spawning process:" :: default "" command :: args).

(** Modelled from the spec: [sleepAsync] of [utils/system.ts], a timer. *)
Definition sleepAsync (ms : Z) : M unit := emit (SleepAsync ms).

End System.

(** ** [utils/github_api.ts] *)

Module GithubApi.

Definition getGithubClient (env : Env) (token : string) : M Github :=
  let githubApiToken := token in
  (if negb (truthy githubApiToken) then
     let githubApiToken :=
       orElse (default "" (processEnv env !! "GITHUB_API_TOKEN")) "" in
     if negb (truthy githubApiToken) then
       throw (Error "GitHub target: GITHUB_API_TOKEN not found in the environment")
     else ret tt
   else ret tt) ;;
  ret (octokit env).

Definition getFile (env : Env) (github : Github)
  (owner repo path ref : string) : M (option string) :=
  tryCatch
    (emit (GithubGetContent owner path ref repo) ;;
     content <- await (repos_getContent github owner path ref repo) ;;
     ret (Some (base64decode env content)))
    (fun err =>
       if decide (code err = Some 404%Z) then ret None else throw err).

(** [getDefaultBranch], which this version of the file does not hold: the
    answer of the GitHub API. *)
Definition getDefaultBranch (env : Env) (github : Github)
  (owner repo : string) : M string :=
  emit (GithubGetDefaultBranch owner repo) ;;
  await (defaultBranchOf env owner repo).

End GithubApi.

(** ** [commands/release.ts] *)

Module Release.

(** Default path to the bump-version script: [join('scripts',
    'bump-version.sh')]. *)
Definition DEFAULT_BUMP_VERSION_PATH : string := "scripts/bump-version.sh".

Definition DEFAULT_CHANGELOG_PATH : string := "CHANGELOG.md".

Record ReleaseOptions := mkReleaseOptions {
  newVersion : string;
  noGitChecks : bool;
  noChangelog : bool;
  noPush : bool;
  publish : bool;
}.

Definition SLEEP_BEFORE_PUBLISH_SECONDS : Z := 30.

(** The calls of the git client. *)
Definition gitCheckIsRepo (git : SimpleGit) : M bool :=
  emit GitCheckIsRepo ;; await (git_checkIsRepo git).

Definition gitStatus (git : SimpleGit) : M StatusSummary :=
  t <- getTrace ;;
  emit GitStatus ;;
  await (git_status git (calls isGitStatus t)).

Definition gitRevparse (git : SimpleGit) (args : list string) : M string :=
  emit (GitRevparse args) ;; await (git_revparse git args).

Definition gitCheckoutLocalBranch (git : SimpleGit) (branch : string) : M unit :=
  emit (GitCheckoutLocalBranch branch) ;;
  await (git_checkoutLocalBranch git branch).

Definition gitCommit (git : SimpleGit) (msg : string) (all : bool) : M unit :=
  emit (GitCommit msg all) ;; await (git_commit git msg all).

Definition gitPush (git : SimpleGit) (remote branch : string)
  (setUpstream : bool) : M unit :=
  emit (GitPush remote branch setUpstream) ;;
  await (git_push git remote branch setUpstream).

(** [/unknown revision/] *)
Definition unknownRevision : RegExp.RegExp := RegExp.lit "unknown revision".

Definition createReleaseBranch (git : SimpleGit) (newVersion : string)
  : M string :=
  let branchName := "release/" +:+ newVersion in
  branchHead <-
    tryCatch (gitRevparse git [branchName])
      (fun e =>
         if negb (RegExp.test unknownRevision (message e))
         then throw e
         else ret "") ;;
  (if truthy branchHead
   then Errors.reportError ("Branch already exists: " +:+ branchName)
   else ret tt) ;;
  perform <- shouldPerform ;;
  (if perform then
     gitCheckoutLocalBranch git branchName ;;
     log LInfo ["Created a new release branch: " +:+ branchName]
   else
     log LInfo ["[dry-run] Not creating a new release branch"]) ;;
  ret branchName.

Definition pushReleaseBranch (git : SimpleGit) (branchName : string)
  (pushFlag : bool) : M unit :=
  if pushFlag then
    log LInfo ["Pushing the release branch " +:+ quoted branchName +:+ "..."] ;;
    perform <- shouldPerform ;;
    if perform then gitPush git "origin" branchName true
    else log LInfo ["[dry-run] Not pushing the release branch."]
  else
    log LInfo ["Not pushing the release branch."] ;;
    log LInfo ["You can push this branch later using the following command:";
               "  $ git push -u origin " +:+ quoted branchName].

Definition commitNewVersion (git : SimpleGit) (newVersion : string) : M unit :=
  let message := "release: " +:+ newVersion in
  repoStatus <- gitStatus git ;;
  (if negb (lengthTruthy (created repoStatus) ||
            lengthTruthy (modified repoStatus))
   then Errors.reportError
          "Nothing to commit: has the pre-release command done its job?"
   else ret tt) ;;
  log LInfo ["Committing the release changes..."] ;;
  perform <- shouldPerform ;;
  if perform then gitCommit git message true
  else log LInfo ["[dry-run] Not committing the changes."].

Definition runPreReleaseCommand (env : Env) (newVersion : string)
  (preReleaseCommand : option string) : M unit :=
  match preReleaseCommand with
  | Some "" =>
      log LWarn ["Not running the pre-release command: no command specified"]
  | _ =>
      let '(sysCommand, args) :=
        match preReleaseCommand with
        | Some cmd =>
            match shellQuoteParse env cmd with
            | [] => (None, [])
            | c :: rest => (Some c, rest)
            end
        | None => (Some "/bin/bash", [DEFAULT_BUMP_VERSION_PATH])
        end in
      let args := args ++ [""; newVersion] in
      log LInfo ["Running a pre-release command..."] ;;
      let additionalEnv : gmap string string :=
        <["CRAFT_NEW_VERSION" := newVersion]>
          (<["CRAFT_OLD_VERSION" := ""]> ∅) in
      System.spawnProcess env sysCommand args (additionalEnv ∪ processEnv env)
  end.

(** The six change lists whose non-emptiness makes the repository dirty. *)
Definition isDirty (repoStatus : StatusSummary) : bool :=
  lengthTruthy (conflicted repoStatus) ||
  lengthTruthy (created repoStatus) ||
  lengthTruthy (deleted repoStatus) ||
  lengthTruthy (modified repoStatus) ||
  lengthTruthy (renamed repoStatus) ||
  lengthTruthy (staged repoStatus).

Definition checkGitState (git : SimpleGit) (defaultBranch : string)
  (checkGitStatus : bool) : M unit :=
  if negb checkGitStatus then
    log LWarn ["Not checking the status of the local repository"]
  else
    log LInfo ["Checking the local repository status..."] ;;
    isRepo <- gitCheckIsRepo git ;;
    (if negb isRepo then throw (Error "Not a git repository!") else ret tt) ;;
    repoStatus <- gitStatus git ;;
    let currentBranch := current repoStatus in
    (if negb (String.eqb defaultBranch currentBranch)
     then Errors.reportError
            ("Please switch to your default branch (" +:+ defaultBranch
             +:+ ") first")
     else ret tt) ;;
    (if isDirty repoStatus
     then Errors.reportError
            ("Your repository is in a dirty state. " +:+
             "Please stash or commit the pending changes.")
     else ret tt) ;;
    (if (0 <? ahead repoStatus)%Z
     then Errors.reportError
            ("Your repository has unpushed changes: the current branch is "
             +:+ pretty (ahead repoStatus) +:+ " commits ahead.")
     else ret tt).

(** [process.exit]: the event ends the process; the callers below do
    nothing after it. *)
Definition processExit (status : Z) : M unit := emit (ProcessExit status).

Definition publishMain (env : Env) (options : PublishOptions) : M unit :=
  emit (PublishMain options) ;; await (publishMainResult env options).

Definition execPublish (env : Env) (newVersion : string) : M unit :=
  log LInfo ["Running the " +:+ quoted "publish" +:+ " command..."] ;;
  let publishOptions := mkPublishOptions false false newVersion false false in
  log LInfo ["Sleeping for " +:+ pretty SLEEP_BEFORE_PUBLISH_SECONDS +:+
             " seconds before publishing..."] ;;
  perform <- shouldPerform ;;
  (if perform then System.sleepAsync (SLEEP_BEFORE_PUBLISH_SECONDS * 1000)
   else log LInfo ["[dry-run] Not wasting time on sleep"]) ;;
  tryCatch
    (publishMain env publishOptions ;; processExit 0)
    (fun e =>
       log LError [message e] ;;
       log LError
         ["There was an error running " +:+ quoted "publish" +:+
          ". Fix the issue and run the command manually:";
          "  $ craft publish " +:+ newVersion] ;;
       processExit 1).

Definition checkChangelog (env : Env) (newVersion : string)
  (changelogPolicy : option string) (changelogPath : option string) : M unit :=
  let changelogPolicy := default ChangelogPolicy.None_ changelogPolicy in
  let changelogPath := default DEFAULT_CHANGELOG_PATH changelogPath in
  if String.eqb changelogPolicy ChangelogPolicy.None_ then
    log LInfo ["Changelog policy is set to " +:+ quoted changelogPolicy +:+
               ", nothing to do."]
  else if String.eqb changelogPolicy ChangelogPolicy.Simple then
    log LInfo ["Checking the changelog..."] ;;
    let relativePath := pathRelative env "" changelogPath in
    (if String.prefix "." relativePath
     then throw (Error ("Invalid changelog path: " +:+ quoted changelogPath))
     else ret tt) ;;
    emit (FsExists relativePath) ;;
    (if negb (existsSync env relativePath)
     then throw (Error ("Changelog does not exist: " +:+ quoted changelogPath))
     else ret tt) ;;
    emit (FsReadFile relativePath) ;;
    changelogString <- await (readFileSync env relativePath) ;;
    let changeset := findChangeset env changelogString newVersion in
    (if match changeset with
        | Some c => negb (truthy (cs_body c))
        | None => true
        end
     then throw (Error ("No changelog entry found for version " +:+
                        quoted newVersion))
     else ret tt)
  else
    throw (Error ("Invalid changelog policy: " +:+ quoted changelogPolicy)).

(** The body of the [try] block of [handler]. *)
Definition release (env : Env) (argv : ReleaseOptions) : M unit :=
  config <- await (getConfiguration env) ;;
  let githubConfig := Config.github config in
  let configFileDir := configFileDir env in
  emit (Chdir configFileDir) ;;
  let newVersion := newVersion argv in
  checkChangelog env newVersion
    (if noChangelog argv then Some ChangelogPolicy.None_
     else Config.changelogPolicy config)
    (Config.changelog config) ;;
  githubClient <- GithubApi.getGithubClient env "" ;;
  defaultBranch <- GithubApi.getDefaultBranch env githubClient
                     (Config.owner githubConfig) (Config.repo githubConfig) ;;
  let git := simpleGit env configFileDir in
  checkGitState git defaultBranch (negb (noGitChecks argv)) ;;
  log LInfo ["Preparing to release the version: " +:+ newVersion] ;;
  branchName <- createReleaseBranch git newVersion ;;
  runPreReleaseCommand env newVersion (Config.preReleaseCommand config) ;;
  commitNewVersion git newVersion ;;
  pushReleaseBranch git branchName (negb (noPush argv)) ;;
  if publish argv then execPublish env newVersion
  else
    log LSuccess
      ["Done. Do not forget to run " +:+ quoted "craft publish" +:+
       " to publish the artifacts:";
       "  $ craft publish " +:+ newVersion].

Definition handler (env : Env) (argv : ReleaseOptions) : M unit :=
  dry <- isDryRun ;;
  (if dry then log LInfo ["[dry-run] Dry-run mode is on!"] else ret tt) ;;
  tryCatch (release env argv) (fun e => log LError [message e]).

End Release.

(** ** [targets/github.ts]

    The sources hold two revisions of this file; the embedding follows the
    one that consults [shouldPerform()]. *)

Module GithubTarget.

Definition DEFAULT_CONTENT_TYPE : string := "application/octet-stream".

Definition DEFAULT_CHANGELOG_PATH : string := "CHANGELOG.md".

Record GithubTargetConfig := mkGithubTargetConfig {
  owner : string;
  repo : string;
  changelog : option string;
  tagPrefix : string;
  previewReleases : bool;
}.

Record GithubTarget := mkGithubTarget {
  base : Base.BaseTarget;
  githubConfig : GithubTargetConfig;
  github : Github;
}.

Definition targetName : string := "github".

(** [{draft: false, name: tag, ..., ...changes}]: a changeset replaces the
    name and adds the body. *)
Definition releaseParams (this : GithubTarget) (tag revision : string)
  (isPreview : bool) (changes : option Changeset) : CreateReleaseParams :=
  mkCreateParams false
    (match changes with Some c => cs_name c | None => tag end)
    (owner (githubConfig this))
    isPreview
    (repo (githubConfig this))
    tag
    revision
    (match changes with Some c => Some (cs_body c) | None => None end).

Definition previewNote (isPreview : bool) : string :=
  if isPreview then "*preview* " else "".

Definition getOrCreateRelease (env : Env) (this : GithubTarget)
  (tag revision : string) (isPreview : bool) : M GithubRelease :=
  found <-
    tryCatch
      (emit (GithubGetReleaseByTag (owner (githubConfig this))
               (repo (githubConfig this)) tag) ;;
       data <- await (repos_getReleaseByTag (github this)
                        (owner (githubConfig this))
                        (repo (githubConfig this)) tag) ;;
       ret (Some data))
      (fun e =>
         if decide (code e = Some 404%Z) then ret None else throw e) ;;
  match found with
  | Some data => ret data
  | None =>
      (* Release hasn't been found, so create one *)
      changelog <-
        GithubApi.getFile env (github this) (owner (githubConfig this))
          (repo (githubConfig this))
          (orElse (default "" (changelog (githubConfig this)))
             DEFAULT_CHANGELOG_PATH)
          revision ;;
      let changes :=
        match changelog with
        | Some text => if truthy text then findChangeset env text tag else None
        | None => None
        end in
      let params := releaseParams this tag revision isPreview changes in
      perform <- shouldPerform ;;
      if perform then
        log LInfo ["Creating a new " +:+ previewNote isPreview +:+
                   "release for tag " +:+ quoted tag] ;;
        emit (GithubCreateRelease params) ;;
        await (repos_createRelease (github this) params)
      else
        log LInfo ["[dry-run] Not creating a new " +:+ previewNote isPreview
                   +:+ "release for tag " +:+ quoted tag] ;;
        ret (mkRelease 0 tag "")
  end.

(** The body of the callback of [publish] after the download. *)
Definition uploadArtifact (env : Env) (this : GithubTarget)
  (release : GithubRelease) (artifact : Artifact) (path : string) : M unit :=
  emit (FsStat path) ;;
  size <- await (statSyncSize env path) ;;
  let name := pathBasename env path in
  let params :=
    mkUploadParams size
      (orElse (default "" (type artifact)) DEFAULT_CONTENT_TYPE)
      path (id release) name (upload_url release) in
  log LInfo ["Uploading asset " +:+ quoted name +:+ " to " +:+
             owner (githubConfig this) +:+ "/" +:+ repo (githubConfig this)
             +:+ ":" +:+ tag_name release] ;;
  perform <- shouldPerform ;;
  if perform then
    emit (GithubUploadAsset params) ;;
    await (repos_uploadAsset (github this) params)
  else
    log LInfo ["[dry-run] Not uploading asset " +:+ quoted name].

Definition publish (env : Env) (this : GithubTarget)
  (version revision : string) : M unit :=
  log LInfo ["Target " +:+ quoted targetName +:+ ": publishing version " +:+
             quoted version +:+ "..."] ;;
  let tag := tagPrefix (githubConfig this) +:+ version in
  log LInfo ["Git tag: " +:+ quoted tag] ;;
  let isPreview :=
    previewReleases (githubConfig this) && isPreviewRelease env version in
  release <- getOrCreateRelease env this tag revision isPreview ;;
  artifacts <- Base.getArtifactsForRevision (base this) revision None ;;
  promiseAllMap Zeus.downloadArtifact (uploadArtifact env this release)
    artifacts ;;
  ret tt.

End GithubTarget.

(** ** Vocabulary of the specification *)

Module Spec.

(** Exactly one of three conditions holds. *)
Definition exactlyOne (a b c : bool) : bool :=
  (a && negb b && negb c) || (negb a && b && negb c) ||
  (negb a && negb b && c).

(** An artifact is kept by filter options when it matches [includeNames],
    if present, and does not match [excludeNames], if present. *)
Definition kept (f : FilterOptions) (a : Artifact) : bool :=
  match includeNames f with
  | Some r => RegExp.test r (name a)
  | None => true
  end &&
  match excludeNames f with
  | Some r => negb (RegExp.test r (name a))
  | None => true
  end.

(** The number of transport downloads of a URL in a trace. *)
Definition isDownloadOf (u : string) (e : Event) : bool :=
  match e with
  | ZeusDownloadArtifact a => String.eqb (download_url a) u
  | _ => false
  end.

Definition downloadsOf (u : string) (t : list Event) : nat :=
  length (List.filter (isDownloadOf u) t).

End Spec.

(** ** Sample collaborators, used to run the code on concrete inputs *)

Module Sample.

Definition whl : Artifact :=
  mkArtifact "pkg-1.0.0.whl" "https://zeus.ci/a/1/download" None.
Definition targz : Artifact :=
  mkArtifact "pkg-1.0.0.tar.gz" "https://zeus.ci/a/2/download" None.
Definition readme : Artifact :=
  mkArtifact "readme.txt" "https://zeus.ci/a/3/download" (Some "text/plain").

Definition notFound : JsError := mkError "Not found" (Some 404%Z).
Definition networkDown : JsError := mkError "connect ETIMEDOUT" None.

(** A Zeus client that knows revision [abc123]; its first download fails
    and every later one succeeds. *)
Definition zeus : ZeusClient :=
  mkZeusClient
    (fun n a =>
       match n with
       | O => Rejected networkDown
       | S _ => Resolved ("/tmp/craft/" +:+ name a)
       end)
    (fun _ _ _ revision =>
       if String.eqb revision "abc123" then Resolved [whl; targz; readme]
       else Rejected notFound)
    (fun _ _ _ _ => Resolved (mkRevisionInfo "finished" "passed")).

(** A Zeus client whose downloads always succeed. *)
Definition zeusReliable : ZeusClient :=
  mkZeusClient
    (fun _ a => Resolved ("/tmp/craft/" +:+ name a))
    (client_listArtifactsForRevision zeus)
    (client_getRevision zeus).

(** A target without filters of its own. *)
Definition plainTarget : Base.BaseTarget :=
  Base.newBaseTarget (fun _ => RegExp.Never) (Base.mkTargetConfig None None).

(** [/\.whl$/], and a target configured with [includeFiles: /\.whl$/]. *)
Definition wheelsOnly : RegExp.RegExp :=
  RegExp.Seq (RegExp.lit ".whl") RegExp.Eos.

Definition wheelTarget : Base.BaseTarget :=
  Base.newBaseTarget (fun _ => wheelsOnly)
    (Base.mkTargetConfig (Some "/\.whl$/") None).

(** The process right after start. *)
Definition start (dry : bool) (c : ZeusClient) : World :=
  mkWorld dry [] (newZeusStore c "getsentry" "craft").

End Sample.

(** The two filters of [filterArtifactsForRevision], in the order in which
    the code applies them to a listing. *)
Definition applyFilter (filterOptions : option FilterOptions)
  (all : list Artifact) : list Artifact :=
  match filterOptions with
  | None => all
  | Some f =>
      List.filter
        (fun a =>
           match excludeNames f with
           | Some r => negb (RegExp.test r (name a))
           | None => true
           end)
        (List.filter
           (fun a =>
              match includeNames f with
              | Some r => RegExp.test r (name a)
              | None => true
              end)
           all)
  end.

(** What an operation of the store may do to the download cache and to the
    transport downloads recorded in the trace: entries of the cache stay as
    they are, and a URL is downloaded only when it enters the cache. *)
Record StoreStep (w w' : World) : Prop := mkStoreStep {
  step_cache :
    forall u p,
      downloadCache (store w) !! u = Some p ->
      downloadCache (store w') !! u = Some p;
  step_count :
    forall u,
      Spec.downloadsOf u (trace w') = Spec.downloadsOf u (trace w) \/
      (downloadCache (store w) !! u = None /\
       is_Some (downloadCache (store w') !! u) /\
       Spec.downloadsOf u (trace w') = S (Spec.downloadsOf u (trace w)));
}.

Definition Steps {A} (m : M A) : Prop := forall w, StoreStep w (snd (m w)).

(** ** Vocabulary of the specification: the release command *)

Module ReleaseSpec.

(** The working tree has changes: one of the change lists is not empty. *)
Definition hasChanges (st : StatusSummary) : Prop :=
  conflicted st <> [] \/ created st <> [] \/ deleted st <> [] \/
  modified st <> [] \/ renamed st <> [] \/ staged st <> [].

(** No file change at all. *)
Definition unchanged (st : StatusSummary) : Prop :=
  conflicted st = [] /\ created st = [] /\ deleted st = [] /\
  modified st = [] /\ renamed st = [] /\ staged st = [].

(** The events of branch creation: the lookup of the branch and the
    checkout. *)
Definition isBranchCreation (e : Event) : bool :=
  match e with
  | GitRevparse _ | GitCheckoutLocalBranch _ => true
  | _ => false
  end.

Definition isCheckout (e : Event) : bool :=
  match e with GitCheckoutLocalBranch _ => true | _ => false end.

Definition isCommit (e : Event) : bool :=
  match e with GitCommit _ _ => true | _ => false end.

(** [git rev-parse] does not know the branch. *)
Definition branchUnknown (git : SimpleGit) (branchName : string) : Prop :=
  exists e,
    git_revparse git [branchName] = Rejected e /\
    RegExp.test Release.unknownRevision (message e) = true.

Definition nothingToCommit : JsError :=
  Error "Nothing to commit: has the pre-release command done its job?".

End ReleaseSpec.

(** ** Sample collaborators of the release command *)

Module SampleRelease.

Definition cleanStatus : StatusSummary :=
  mkStatus "master" [] [] [] [] [] [] 0.

(** One staged file. *)
Definition stagedStatus : StatusSummary :=
  mkStatus "master" [] [] [] [] [] ["package.json"] 0.

(** After a version bump: one modified file. *)
Definition bumpedStatus : StatusSummary :=
  mkStatus "master" [] [] [] ["package.json"] [] [] 0.

(** After a hook that only removed a file. *)
Definition deletedStatus : StatusSummary :=
  mkStatus "master" [] [] ["LEGACY.md"] [] [] [] 0.

Definition unknownRevisionError : JsError :=
  Error "fatal: ambiguous argument: unknown revision or path not in the working tree.".

(** A repository whose first [status] is [first] and whose later ones are
    [later]; the release branch does not exist; [pushed] is the outcome of
    [git push]. *)
Definition git (first later : StatusSummary) (pushed : Promise unit)
  : SimpleGit :=
  mkSimpleGit
    (Resolved true)
    (fun n => match n with O => Resolved first | S _ => Resolved later end)
    (fun _ => Rejected unknownRevisionError)
    (fun _ => Resolved tt)
    (fun _ _ => Resolved tt)
    (fun _ _ _ => pushed).

(** A repository in which the release branch already exists. *)
Definition gitWithBranch : SimpleGit :=
  mkSimpleGit
    (Resolved true)
    (fun _ => Resolved cleanStatus)
    (fun _ => Resolved "3f2a9c1")
    (fun _ => Resolved tt)
    (fun _ _ => Resolved tt)
    (fun _ _ _ => Resolved tt).

Definition configuration : Config.Configuration :=
  Config.mkConfiguration (Config.mkGithubGlobalConfig "getsentry" "craft")
    None None None.

(** No release exists yet on GitHub; [created] is the answer of
    [createRelease]. *)
Definition octokit (created : Promise GithubRelease) : Github :=
  mkGithub
    (fun _ _ _ => Rejected Sample.notFound)
    (fun _ _ _ _ => Rejected Sample.notFound)
    (fun _ => created)
    (fun _ => Resolved tt).

(** GitHub already has release 7 for every tag. *)
Definition octokitWithRelease : Github :=
  mkGithub
    (fun _ _ tag => Resolved (mkRelease 7 tag "https://uploads.github.com/7"))
    (fun _ _ _ _ => Rejected Sample.notFound)
    (fun p => Resolved (mkRelease 8 (cr_tag_name p) "https://uploads.github.com/8"))
    (fun _ => Resolved tt).

Definition env (g : SimpleGit) (gh : Github) : Env :=
  mkEnv
    (<["GITHUB_API_TOKEN" := "token"]> ∅)
    (Resolved configuration)
    "/work/craft"
    (fun _ p => p)
    (fun p => p)
    (fun _ => true)
    (fun _ => Resolved "")
    (fun _ => Resolved 1024%Z)
    (fun _ _ => None)
    (fun _ => [])
    (fun s => s)
    (fun _ => false)
    (fun _ _ _ => Resolved tt)
    (fun _ => Resolved tt)
    (fun _ _ => Resolved "master")
    (fun _ => g)
    gh.

Definition argv : Release.ReleaseOptions :=
  Release.mkReleaseOptions "1.2.0" false false false false.

Definition githubTarget (gh : Github) : GithubTarget.GithubTarget :=
  GithubTarget.mkGithubTarget Sample.plainTarget
    (GithubTarget.mkGithubTargetConfig "getsentry" "craft" None "" true)
    gh.

End SampleRelease.

(** ** Judgements about computations *)

(** [inMode mode d]: the dry-run flag [d] is the one [mode] asks for, if it
    asks for one. *)
Definition inMode (mode : option bool) (d : bool) : Prop :=
  match mode with
  | Some b => d = b
  | None => True
  end.

(** [Emits mode P m]: run in a process of the given mode, [m] leaves the
    dry-run flag alone and adds to the trace only events that satisfy [P]. *)
Definition Emits {A} (mode : option bool) (P : Event -> Prop) (m : M A) : Prop :=
  forall w,
    inMode mode (dryRun w) ->
    dryRun (snd (m w)) = dryRun w /\
    exists t, trace (snd (m w)) = trace w ++ t /\ Forall P t.

(** Neither a step of branch creation nor a call of [git status]. *)
Definition beforeBranch (e : Event) : Prop :=
  ReleaseSpec.isBranchCreation e = false /\ isGitStatus e = false.

(** [StopsBeforeBranch n m]: in a process that has called [git status] [n]
    times, [m] is rejected and adds no step of branch creation to the
    trace. *)
Definition StopsBeforeBranch {A} (n : nat) (m : M A) : Prop :=
  forall w,
    calls isGitStatus (trace w) = n ->
    isRejected (fst (m w)) = true /\
    exists t,
      trace (snd (m w)) = trace w ++ t /\
      Forall (fun e => ReleaseSpec.isBranchCreation e = false) t.

(** The outcome of the three checks that [checkGitState] makes on the answer
    of [git status], in the order of the code. *)
Definition gitStateVerdict (defaultBranch : string) (repoStatus : StatusSummary)
  : Promise unit :=
  if negb (String.eqb defaultBranch (current repoStatus)) then
    Rejected (Error ("Please switch to your default branch (" +:+ defaultBranch
                     +:+ ") first"))
  else if Release.isDirty repoStatus then
    Rejected (Error ("Your repository is in a dirty state. " +:+
                     "Please stash or commit the pending changes."))
  else if (0 <? ahead repoStatus)%Z then
    Rejected (Error ("Your repository has unpushed changes: the current branch is "
                     +:+ pretty (ahead repoStatus) +:+ " commits ahead."))
  else Resolved tt.

(** ** Vocabulary of the specification: dry-run *)

Module DryRun.

Definition isLog (e : Event) : bool :=
  match e with Log _ _ => true | _ => false end.

(** The calls guarded by [shouldPerform()]: the state-changing collaborator
    methods, the child process and the sleep before publishing. *)
Definition guarded (e : Event) : bool :=
  stateChanging e ||
  match e with
  | SpawnProcess _ _ _ | SleepAsync _ => true
  | _ => false
  end.

(** The steps of a run: the collaborator calls that are not guarded.  Log
    lines are not steps. *)
Definition isStep (e : Event) : bool := negb (isLog e) && negb (guarded e).

Definition steps (t : list Event) : list Event := List.filter isStep t.

(** The process with the dry-run flag set as asked. *)
Definition withDryRun (dry : bool) (w : World) : World :=
  mkWorld dry (trace w) (store w).

(** A guarded call succeeds: the collaborator's answer to it is not an
    error. *)
Definition succeeds (env : Env) (gh : Github) (e : Event) : Prop :=
  match e with
  | GitCheckoutLocalBranch b =>
      git_checkoutLocalBranch (simpleGit env (configFileDir env)) b =
        Resolved tt
  | GitCommit msg all =>
      git_commit (simpleGit env (configFileDir env)) msg all = Resolved tt
  | GitPush remote branch up =>
      git_push (simpleGit env (configFileDir env)) remote branch up =
        Resolved tt
  | SpawnProcess command args processEnvironment =>
      childProcess env command args processEnvironment = Resolved tt
  | GithubCreateRelease params =>
      isResolved (repos_createRelease gh params) = true
  | GithubUploadAsset params => repos_uploadAsset gh params = Resolved tt
  | _ => True
  end.

(** What [m] adds to the trace of [w]. *)
Definition added {A} (m : M A) (w : World) (t : list Event) : Prop :=
  trace (snd (m w)) = trace w ++ t.

(** [m] invokes no state-changing collaborator method in [w], and no other
    guarded call either. *)
Definition performsNothing {A} (m : M A) (w : World) : Prop :=
  exists t,
    added m w t /\
    Forall (fun e => stateChanging e = false) t /\
    Forall (fun e => guarded e = false) t.

(** A dry run of [m] mirrors its live run from the same state: when every
    guarded call of the live run succeeds, both runs take the same steps,
    leave the same store and end alike, with the same error when they fail. *)
Definition mirrors {A} (env : Env) (gh : Github) (m : M A) (w : World) : Prop :=
  forall t,
    added m (withDryRun false w) t ->
    Forall (succeeds env gh) t ->
    steps (trace (snd (m (withDryRun true w)))) =
      steps (trace (snd (m (withDryRun false w))))
    /\ store (snd (m (withDryRun true w))) = store (snd (m (withDryRun false w)))
    /\ isResolved (fst (m (withDryRun true w))) =
         isResolved (fst (m (withDryRun false w)))
    /\ forall e,
         fst (m (withDryRun true w)) = Rejected e <->
         fst (m (withDryRun false w)) = Rejected e.

End DryRun.

(** The dry process [w1] and the live process [w2] have taken the same
    steps and hold the same store. *)
Record Mirror (w1 w2 : World) : Prop := mkMirror {
  mirror_dry : dryRun w1 = true;
  mirror_live : dryRun w2 = false;
  mirror_store : store w1 = store w2;
  mirror_steps : DryRun.steps (trace w1) = DryRun.steps (trace w2);
}.

(** Two promises settle alike: both resolve, to related values, or both are
    rejected with the same error. *)
Definition sameOutcome {A B} (R : A -> B -> Prop) (p : Promise A)
  (q : Promise B) : Prop :=
  match p, q with
  | Resolved a, Resolved b => R a b
  | Rejected e1, Rejected e2 => e1 = e2
  | _, _ => False
  end.

(** [Sim ok R m1 m2]: the live computation [m2] only extends the trace; and
    when [m1] runs in a dry process and [m2] in a live process that mirror
    each other, and the events that [m2] adds satisfy [ok], the processes
    still mirror each other afterwards and the results settle alike. *)
Definition Sim {A B} (ok : Event -> Prop) (R : A -> B -> Prop)
  (m1 : M A) (m2 : M B) : Prop :=
  Emits (Some false) (fun _ => True) m2 /\
  forall w1 w2 t,
    Mirror w1 w2 ->
    trace (snd (m2 w2)) = trace w2 ++ t ->
    Forall ok t ->
    Mirror (snd (m1 w1)) (snd (m2 w2)) /\
    sameOutcome R (fst (m1 w1)) (fst (m2 w2)).

(** ** Sample runs of the release command *)

Module SampleRun.

(** A repository that is clean when checked and shows the version bump when
    the commit step asks; [pushed] is the outcome of [git push]. *)
Definition env (pushed : Promise unit) : Env :=
  SampleRelease.env
    (SampleRelease.git SampleRelease.cleanStatus SampleRelease.bumpedStatus
       pushed)
    (SampleRelease.octokit
       (Resolved (mkRelease 8 "1.2.0" "https://uploads.github.com/8"))).

Definition github : Github :=
  SampleRelease.octokit
    (Resolved (mkRelease 8 "1.2.0" "https://uploads.github.com/8")).

Definition start : World := Sample.start false Sample.zeusReliable.

End SampleRun.

(** ** Further vocabulary: the artifact store *)

Module StoreSpec.

(** The number of transport listings of a revision in a trace. *)
Definition isListingOf (r : string) (e : Event) : bool :=
  match e with
  | ZeusListArtifactsForRevision _ _ revision => String.eqb revision r
  | _ => false
  end.

Definition listingsOf (r : string) (t : list Event) : nat :=
  length (List.filter (isListingOf r) t).

(** A call of the Zeus client. *)
Definition isZeusCall (e : Event) : bool :=
  isZeusDownload e || isZeusList e || isZeusGetRevision e.

End StoreSpec.

(** What an operation of the store keeps: the client and the project, the
    dry-run flag, the trace written so far, and every entry of the listing
    cache; a revision is listed only when it enters the cache. *)
Record Keeps (w w' : World) : Prop := mkKeeps {
  keeps_client : client (store w') = client (store w);
  keeps_owner : repoOwner (store w') = repoOwner (store w);
  keeps_name : repoName (store w') = repoName (store w);
  keeps_dry : dryRun w' = dryRun w;
  keeps_trace : exists t, trace w' = trace w ++ t;
  keeps_lists :
    forall r p,
      fileListCache (store w) !! r = Some p ->
      fileListCache (store w') !! r = Some p;
  keeps_count :
    forall r,
      StoreSpec.listingsOf r (trace w') = StoreSpec.listingsOf r (trace w) \/
      (fileListCache (store w) !! r = None /\
       is_Some (fileListCache (store w') !! r) /\
       StoreSpec.listingsOf r (trace w') =
         S (StoreSpec.listingsOf r (trace w)));
}.

Definition KeepsM {A} (m : M A) : Prop := forall w, Keeps w (snd (m w)).

(** ** [targets/base.ts]: [publish] of the base class *)

Module BaseTarget.

Definition publish (this : Base.BaseTarget) (_version _revision : string)
  : M unit :=
  throw (Error "Not implemented").

End BaseTarget.

(** ** [targets/index.ts] *)

Module TargetIndex.

(** The target classes that the registry names. *)
Inductive TargetClass : Type :=
| BrewTarget
| GithubTarget
| NpmTarget
| NugetTarget
| PypiTarget.

(** The object literal [TARGET_MAP], with its keys in the order in which
    they are written. *)
Definition TARGET_MAP : list (string * TargetClass) :=
  [("brew", BrewTarget); ("github", GithubTarget); ("npm", NpmTarget);
   ("nuget", NugetTarget); ("pypi", PypiTarget)].

(** [Object.keys(TARGET_MAP)] *)
Definition getAllTargetNames : list string := map fst TARGET_MAP.

(** The value of [TARGET_MAP[targetName]]: a class of the registry, a
    property that the literal inherits from [Object.prototype], or
    [undefined]. *)
Inductive Lookup : Type :=
| Own (c : TargetClass)
| Inherited
| Undefined.

Fixpoint ownProperty (m : list (string * TargetClass)) (key : string)
  : option TargetClass :=
  match m with
  | [] => None
  | (k, c) :: m' => if String.eqb k key then Some c else ownProperty m' key
  end.

(** [inherited] tells the names of the properties of [Object.prototype]. *)
Definition getTargetByName (inherited : string -> bool) (targetName : string)
  : Lookup :=
  match ownProperty TARGET_MAP targetName with
  | Some c => Own c
  | None => if inherited targetName then Inherited else Undefined
  end.

End TargetIndex.

(** ** [targets/pypi.ts]: the target *)

Module PypiTarget.

(** [process.env.TWINE_BIN || 'twine'] *)
Definition TWINE_BIN (env : Env) : string :=
  orElse (default "" (processEnv env !! "TWINE_BIN")) "twine".

Record PypiTargetOptions := mkPypiTargetOptions {
  twinePassword : string;
  twineUsername : string;
}.

Record PypiTarget := mkPypiTarget {
  base : Base.BaseTarget;
  pypiConfig : PypiTargetOptions;
}.

Definition newline : string := String "010"%char EmptyString.

Definition missingCredentials : JsError :=
  Error ("Cannot perform PyPI release: missing credentials." +:+ newline +:+
         "         Please use TWINE_USERNAME and TWINE_PASSWORD environment variables.").

Definition getPypiConfig (env : Env) : Promise PypiTargetOptions :=
  let username := default "" (processEnv env !! "TWINE_USERNAME") in
  let password := default "" (processEnv env !! "TWINE_PASSWORD") in
  if negb (truthy username) || negb (truthy password) then
    Rejected missingCredentials
  else
    Resolved (mkPypiTargetOptions password username).

(** The constructor. *)
Definition newPypiTarget (env : Env)
  (stringToRegexp : string -> RegExp.RegExp) (config : Base.TargetConfig)
  : Promise PypiTarget :=
  let super := Base.newBaseTarget stringToRegexp config in
  match getPypiConfig env with
  | Resolved pypiConfig => Resolved (mkPypiTarget super pypiConfig)
  | Rejected e => Rejected e
  end.

(** [spawnProcess(TWINE_BIN, ['upload', path])]: without options the child
    process gets the environment of the process. *)
Definition uploadAsset (env : Env) (path : string) : M unit :=
  System.spawnProcess env (Some (TWINE_BIN env)) ["upload"; path]
    (processEnv env).

(** [publish]; [reportError] is a parameter, so that what is proved of
    [publish] holds whether it throws or only logs. *)
Definition publish (reportError : string -> M unit) (env : Env)
  (this : PypiTarget) (_version revision : string) : M unit :=
  packageFiles <- Pypi.packageFiles (base this) revision ;;
  if negb (lengthTruthy packageFiles) then
    reportError "Skipping PyPI release: no packages found" ;;
    ret tt
  else
    promiseAllMap Zeus.downloadArtifact
      (fun file path =>
         log LInfo ["Uploading file " +:+ quoted (name file) +:+ " via twine"] ;;
         uploadAsset env path)
      packageFiles ;;
    log LInfo ["PyPI release completed"].

End PypiTarget.

(** ** Expressions that match nothing *)

(** [regexpVoid r]: by its shape, [r] matches no input. *)
Fixpoint regexpVoid (r : RegExp.RegExp) : bool :=
  match r with
  | RegExp.Never => true
  | RegExp.Seq r1 r2 => regexpVoid r1 || regexpVoid r2
  | RegExp.Alt r1 r2 => regexpVoid r1 && regexpVoid r2
  | _ => false
  end.

(** ** [utils/github_api.ts]: merging the release branch *)

Module GithubMerge.

(** The two methods of the octokit client that [mergeReleaseBranch] calls:
    [repos.get], answering with [data.default_branch], and [repos.merge],
    answering with [data.sha].  The calls are not recorded in the trace;
    their answers are those of the record. *)
Record GithubRepos := mkGithubRepos {
  repos_get : string -> string -> Promise string;
  repos_merge : string -> string -> string -> string -> Promise string;
}.

Definition conflictLines (branch : string) : list string :=
  ["Cannot merge release branch " +:+ quoted branch +:+ ": conflicts detected";
   "Please resolve the conflicts and merge the branch manually:";
   "    git checkout master && git merge " +:+ branch].

Definition mergeReleaseBranch (github : GithubRepos)
  (owner repo branch : string) (base : option string) : M string :=
  let baseBranch := orElse (default "" base) "" in
  baseBranch <-
    (if negb (truthy baseBranch) then await (repos_get github owner repo)
     else ret baseBranch) ;;
  tryCatch
    (log LInfo ["Merging release branch: " +:+ quoted branch +:+ " into "
                +:+ quoted baseBranch +:+ "..."] ;;
     sha <- await (repos_merge github baseBranch branch owner repo) ;;
     log LInfo ["Merging: done."] ;;
     ret sha)
    (fun err =>
       (if decide (code err = Some 409%Z)
        then log LError (conflictLines branch)
        else ret tt) ;;
       throw err).

End GithubMerge.

(** ** [commands/release.ts]: the check of the version argument *)

Module ReleaseArguments.

Definition versionParts : list string := ["major"; "minor"; "patch"].

(** [['major', 'minor', 'patch'].indexOf(version) > -1] *)
Definition isVersionPart (version : string) : bool :=
  existsb (String.eqb version) versionParts.

(** [checkVersionOrPart]; [isValidVersion] of [utils/version], which the
    sources do not include, is a parameter. *)
Definition checkVersionOrPart (isValidVersion : string -> bool)
  (newVersion : string) : Promise bool :=
  let version := newVersion in
  if isVersionPart version then
    Rejected (Error "Version part is not supported yet")
  else if isValidVersion version then
    Resolved true
  else
    Rejected (Error ("Invalid version or version part specified: "
                     +:+ quoted version)).

End ReleaseArguments.

(** ** Further vocabulary: what a target publishes *)

Module PublishSpec.

(** The assets handed to [repos.uploadAsset], in the order of the calls. *)
Definition uploaded (t : list Event) : list UploadAssetParams :=
  flat_map (fun e => match e with GithubUploadAsset p => [p] | _ => [] end) t.

(** The child processes started, with their arguments, in the order of the
    calls. *)
Definition spawned (t : list Event) : list (option string * list string) :=
  flat_map
    (fun e => match e with SpawnProcess c args _ => [(c, args)] | _ => [] end)
    t.

(** The parameters of the upload of [artifact], downloaded to [path], a file
    of [size] bytes, to [release]. *)
Definition assetParams (env : Env) (release : GithubRelease)
  (artifact : Artifact) (path : string) (size : Z) : UploadAssetParams :=
  mkUploadParams size
    (orElse (default "" (type artifact)) GithubTarget.DEFAULT_CONTENT_TYPE)
    path (id release) (pathBasename env path) (upload_url release).

(** A callback that continues after a download: how it settles, and what it
    adds to the trace, given how its own part does on the downloaded
    path. *)
Definition settle {R} (out : Artifact -> string -> Promise R)
  (xp : Artifact * Promise string) : Promise R :=
  match snd xp with
  | Resolved path => out (fst xp) path
  | Rejected e => Rejected e
  end.

Definition continued (add : Artifact -> string -> list Event)
  (xp : Artifact * Promise string) : list Event :=
  match snd xp with
  | Resolved path => add (fst xp) path
  | Rejected _ => []
  end.

(** [params] are the parameters of the upload of [artifact] to [release]:
    the file is the one the download cache holds for the artifact, its size
    is the one the file system reports. *)
Definition uploadOf (env : Env) (cache : gmap string (Promise string))
  (release : GithubRelease) (artifact : Artifact)
  (params : UploadAssetParams) : Prop :=
  exists path size,
    cache !! download_url artifact = Some (Resolved path)
    /\ statSyncSize env path = Resolved size
    /\ params = assetParams env release artifact path size.

(** [process] is [twine upload] of the file the download cache holds for
    [artifact]. *)
Definition twineUploadOf (env : Env) (cache : gmap string (Promise string))
  (artifact : Artifact) (process : option string * list string) : Prop :=
  exists path,
    cache !! download_url artifact = Some (Resolved path)
    /\ process = (Some (PypiTarget.TWINE_BIN env), ["upload"; path]).

(** An event other than an upload, and other than the start of a child
    process. *)
Definition notUpload (e : Event) : Prop :=
  match e with GithubUploadAsset _ => False | _ => True end.

Definition notSpawn (e : Event) : Prop :=
  match e with SpawnProcess _ _ _ => False | _ => True end.

End PublishSpec.

(** ** A sample process without the GitHub token *)

Module SampleToken.

(** [env] with the process environment replaced by [variables]. *)
Definition withProcessEnv (env : Env) (variables : gmap string string) : Env :=
  mkEnv variables (getConfiguration env) (configFileDir env)
    (pathRelative env) (pathBasename env) (existsSync env) (readFileSync env)
    (statSyncSize env) (findChangeset env) (shellQuoteParse env)
    (base64decode env) (isPreviewRelease env) (childProcess env)
    (publishMainResult env) (defaultBranchOf env) (simpleGit env) (octokit env).

Definition env : Env := withProcessEnv (SampleRun.env (Resolved tt)) ∅.

End SampleToken.

(** ** Further vocabulary: the stages of a release *)

Module ReleasePlan.

(** The stages at which the release command changes something: the release
    branch is created, the pre-release command runs, the new version is
    committed, the branch is pushed, the publish command runs. *)
Inductive Stage : Type :=
| StageBranch
| StagePreRelease
| StageCommit
| StagePush
| StagePublish.

Definition stageOf (e : Event) : option Stage :=
  match e with
  | GitCheckoutLocalBranch _ => Some StageBranch
  | SpawnProcess _ _ _ => Some StagePreRelease
  | GitCommit _ _ => Some StageCommit
  | GitPush _ _ _ => Some StagePush
  | PublishMain _ => Some StagePublish
  | _ => None
  end.

(** The stages a trace went through, in order. *)
Definition stages (t : list Event) : list Stage :=
  flat_map (fun e => match stageOf e with Some s => [s] | None => [] end) t.

Definition whenLive (dry : bool) (l : list Stage) : list Stage :=
  if dry then [] else l.

(** The stages of a release with the given configuration and options. *)
Definition plan (dry : bool) (config : Config.Configuration)
  (argv : Release.ReleaseOptions) : list Stage :=
  whenLive dry [StageBranch] ++
  whenLive dry
    (match Config.preReleaseCommand config with
     | Some "" => []
     | _ => [StagePreRelease]
     end) ++
  whenLive dry [StageCommit] ++
  whenLive dry (if Release.noPush argv then [] else [StagePush]) ++
  (if Release.publish argv then [StagePublish] else []).

(** [Performs dry m l]: in a process with the dry-run flag [dry], [m] keeps
    the flag and goes through the stages [l] in this order, up to the point
    where it fails; when it succeeds it has gone through all of them. *)
Definition Performs {A} (dry : bool) (m : M A) (l : list Stage) : Prop :=
  forall w,
    dryRun w = dry ->
    dryRun (snd (m w)) = dry
    /\ exists t,
         trace (snd (m w)) = trace w ++ t
         /\ stages t `prefix_of` l
         /\ (isResolved (fst (m w)) = true -> stages t = l).

End ReleasePlan.

(** ** [commands/demo.ts] *)

Module Demo.

(** Command line options. *)
Record DemoOptions := mkDemoOptions {
  opt_message : option string;
}.

(** Inquirer answers; a question that was not asked has no answer. *)
Record DemoAnswers := mkDemoAnswers {
  ans_message : option string;
  ready : bool;
}.

(** What the user types when asked for the message, and the answer to
    [Ready?]. *)
Record User := mkUser {
  typed : string;
  confirmed : bool;
}.

(** The colours of [chalk]. *)
Record Chalk := mkChalk {
  yellow : string -> string;
  green : string -> string;
  dim : string -> string;
}.

(** [prompt(questions)]: the first question is asked when
    [!argv.message]. *)
Definition prompt (argv : DemoOptions) (user : Promise User)
  : Promise DemoAnswers :=
  match user with
  | Resolved u =>
      Resolved
        (mkDemoAnswers
           (if negb (truthy (default "" (opt_message argv)))
            then Some (typed u) else None)
           (confirmed u))
  | Rejected e => Rejected e
  end.

(** [handler]: how it settles, and the calls of [console.info] with their
    arguments. *)
Definition handler (chalk : Chalk) (argv : DemoOptions) (user : Promise User)
  : Promise unit * list (list string) :=
  match prompt argv user with
  | Rejected e => (Rejected e, [])
  | Resolved answers =>
      if negb (ready answers) then
        (Resolved tt, [[]; [yellow chalk "👀 maybe next time..."]])
      else
        let message :=
          orElse (default "" (ans_message answers))
            (default "" (opt_message argv)) in
        if negb (truthy message) then
          (Rejected (Error "You need to enter a message"), [[]])
        else
          (Resolved tt,
           [[]; ["🎉  %s! %s"; green chalk "woooho"; dim chalk message]])
  end.

End Demo.

(** * Properties *)

(** ** The monad *)

Lemma bind_run {A B} (m : M A) (f : A -> M B) (w : World) :
  bind m f w =
  match m w with
  | (Resolved a, w') => f a w'
  | (Rejected e, w') => (Rejected e, w')
  end.
Proof. reflexivity. Qed.

Lemma filter_In_incl {A} (p : A -> bool) (l : list A) :
  forall x, In x (List.filter p l) -> In x l.
Proof. intros x Hx. apply List.filter_In in Hx. tauto. Qed.

(** ** The revision predicates *)

(** C9: the predicates built-successfully (status = finished and result =
    passed), failed (status = finished and result <> passed) and pending
    (status <> finished) are what the three store functions compute, and for
    every revision info exactly one of them holds. *)
Theorem revision_predicates_partition (revisionInfo : RevisionInfo) :
  (Zeus.isRevisionBuiltSuccessfully revisionInfo = true <->
     status revisionInfo = Status.FINISHED /\ result revisionInfo = Result.PASSED)
  /\ (Zeus.isRevisionFailed revisionInfo = true <->
        status revisionInfo = Status.FINISHED /\
        result revisionInfo <> Result.PASSED)
  /\ (Zeus.isRevisionPending revisionInfo = true <->
        status revisionInfo <> Status.FINISHED)
  /\ Spec.exactlyOne (Zeus.isRevisionBuiltSuccessfully revisionInfo)
       (Zeus.isRevisionFailed revisionInfo)
       (Zeus.isRevisionPending revisionInfo) = true.
Proof.
  unfold Zeus.isRevisionBuiltSuccessfully, Zeus.isRevisionFailed,
    Zeus.isRevisionPending, Spec.exactlyOne.
  destruct (String.eqb_spec (status revisionInfo) Status.FINISHED) as [Hs | Hs];
    destruct (String.eqb_spec (result revisionInfo) Result.PASSED) as [Hr | Hr];
    cbn; repeat split; intros; try tauto; try discriminate;
    try (destruct H; congruence); congruence.
Qed.

(** ** The artifact store *)

Lemma downloadArtifact_hit (artifact : Artifact) (w : World) (p : Promise string) :
  downloadCache (store w) !! download_url artifact = Some p ->
  Zeus.downloadArtifact artifact w = (p, w).
Proof.
  intros H. unfold Zeus.downloadArtifact, getStore.
  rewrite bind_run. cbn. now rewrite H.
Qed.

Lemma downloadArtifact_miss (artifact : Artifact) (w : World) :
  downloadCache (store w) !! download_url artifact = None ->
  Zeus.downloadArtifact artifact w =
  let p := client_downloadArtifact (client (store w))
             (calls isZeusDownload (trace w)) artifact in
  (p, mkWorld (dryRun w) (trace w ++ [ZeusDownloadArtifact artifact])
        (withDownloadCache (store w)
           (<[download_url artifact := p]> (downloadCache (store w))))).
Proof.
  intros H. unfold Zeus.downloadArtifact, getStore.
  rewrite bind_run. cbn. rewrite H. reflexivity.
Qed.

Lemma listArtifactsForRevision_hit (revision : string) (w : World)
  (p : Promise (list Artifact)) :
  fileListCache (store w) !! revision = Some p ->
  Zeus.listArtifactsForRevision revision w = (p, w).
Proof.
  intros H. unfold Zeus.listArtifactsForRevision, getStore.
  rewrite bind_run. cbn. now rewrite H.
Qed.

Lemma listArtifactsForRevision_miss (revision : string) (w : World) :
  fileListCache (store w) !! revision = None ->
  Zeus.listArtifactsForRevision revision w =
  let p := client_listArtifactsForRevision (client (store w))
             (calls isZeusList (trace w)) (repoOwner (store w))
             (repoName (store w)) revision in
  (p, mkWorld (dryRun w)
        (trace w ++ [ZeusListArtifactsForRevision (repoOwner (store w))
                       (repoName (store w)) revision])
        (withFileListCache (store w)
           (<[revision := p]> (fileListCache (store w))))).
Proof.
  intros H. unfold Zeus.listArtifactsForRevision, getStore.
  rewrite bind_run. cbn. rewrite H. reflexivity.
Qed.

(** After a call the listing of the revision is in the cache. *)
Lemma listArtifactsForRevision_cached (revision : string) (w : World) :
  fileListCache (store (snd (Zeus.listArtifactsForRevision revision w)))
    !! revision = Some (fst (Zeus.listArtifactsForRevision revision w)).
Proof.
  destruct (fileListCache (store w) !! revision) as [p |] eqn:H.
  - rewrite (listArtifactsForRevision_hit _ _ _ H). exact H.
  - rewrite (listArtifactsForRevision_miss _ _ H). cbn.
    apply lookup_insert_eq.
Qed.

Lemma filter_true {A} (l : list A) : List.filter (fun _ => true) l = l.
Proof. induction l; cbn; congruence. Qed.

Lemma filterArtifactsForRevision_run (revision : string)
  (filterOptions : option FilterOptions) (w : World) :
  Zeus.filterArtifactsForRevision revision filterOptions w =
  match Zeus.listArtifactsForRevision revision w with
  | (Resolved all, w') => (Resolved (applyFilter filterOptions all), w')
  | (Rejected e, w') => (Rejected e, w')
  end.
Proof.
  unfold Zeus.filterArtifactsForRevision. rewrite bind_run.
  destruct (Zeus.listArtifactsForRevision revision w) as [[all | e] w'];
    [| reflexivity].
  destruct filterOptions as [[inc exc] |]; [| reflexivity].
  unfold applyFilter; cbn.
  destruct inc, exc; cbn; rewrite ?filter_true; reflexivity.
Qed.

Lemma applyFilter_kept (f : FilterOptions) (all : list Artifact) :
  applyFilter (Some f) all = List.filter (Spec.kept f) all.
Proof.
  unfold applyFilter, Spec.kept.
  induction all as [| a all IH]; [reflexivity |].
  cbn [List.filter].
  destruct (match includeNames f with
            | Some r => RegExp.test r (name a) | None => true end) eqn:Hi;
    cbn [List.filter andb].
  - destruct (match excludeNames f with
              | Some r => negb (RegExp.test r (name a)) | None => true end);
      rewrite IH; reflexivity.
  - exact IH.
Qed.

Lemma applyFilter_incl (filterOptions : option FilterOptions)
  (all : list Artifact) :
  forall a, In a (applyFilter filterOptions all) -> In a all.
Proof.
  destruct filterOptions as [f |]; cbn; [| tauto].
  intros a Ha. eapply filter_In_incl, filter_In_incl, Ha.
Qed.

Lemma filter_sublist {A} (p : A -> bool) (l : list A) :
  sublist (List.filter p l) l.
Proof.
  induction l as [| x l IH]; cbn; [constructor |].
  destruct (p x); now constructor.
Qed.

Lemma applyFilter_sublist (filterOptions : option FilterOptions)
  (all : list Artifact) :
  sublist (applyFilter filterOptions all) all.
Proof.
  destruct filterOptions as [f |]; cbn; [| reflexivity].
  etransitivity; apply filter_sublist.
Qed.

(** C4: whatever the revision, the filter options and the state of the
    process, [filterArtifactsForRevision] settles like
    [listArtifactsForRevision]: when the listing is rejected so is the
    filtered listing, and when the listing resolves the filtered listing
    resolves to a sub-list of it; every artifact of the result is an artifact
    of the listing, also of the listing obtained by asking again afterwards. *)
Theorem filter_subset_of_listing (revision : string)
  (filterOptions : option FilterOptions) (w : World) :
  match fst (Zeus.listArtifactsForRevision revision w) with
  | Resolved all =>
      exists filtered,
        fst (Zeus.filterArtifactsForRevision revision filterOptions w) =
          Resolved filtered
        /\ sublist filtered all
        /\ (forall a, In a filtered -> In a all)
        /\ fst (Zeus.listArtifactsForRevision revision
                  (snd (Zeus.filterArtifactsForRevision revision
                          filterOptions w))) = Resolved all
  | Rejected e =>
      fst (Zeus.filterArtifactsForRevision revision filterOptions w) =
        Rejected e
  end.
Proof.
  rewrite filterArtifactsForRevision_run.
  pose proof (listArtifactsForRevision_cached revision w) as Hc.
  destruct (Zeus.listArtifactsForRevision revision w) as [[all | e] w'];
    cbn [fst snd] in *; [| reflexivity].
  exists (applyFilter filterOptions all). repeat split.
  - apply applyFilter_sublist.
  - apply applyFilter_incl.
  - now rewrite (listArtifactsForRevision_hit _ _ _ Hc).
Qed.

(** C5: once the listing of the revision is known, the filtered listing is
    the listing filtered by [includeNames] first and by [excludeNames]
    second; it holds exactly the artifacts that match [includeNames] when
    present and do not match [excludeNames] when present; without filter
    options it is the whole listing.  For the listing [pkg-1.0.0.whl,
    pkg-1.0.0.tar.gz, readme.txt] of revision [abc123] the result is the two
    package files, both with the expression of the PyPI target and with the
    expression as the specification writes it. *)
Theorem filter_include_then_exclude :
  (forall revision filterOptions w,
     fst (Zeus.filterArtifactsForRevision revision filterOptions w) =
     match fst (Zeus.listArtifactsForRevision revision w) with
     | Resolved all =>
         Resolved
           match filterOptions with
           | Some f =>
               List.filter
                 (fun a => match excludeNames f with
                           | Some r => negb (RegExp.test r (name a))
                           | None => true
                           end)
                 (List.filter
                    (fun a => match includeNames f with
                              | Some r => RegExp.test r (name a)
                              | None => true
                              end)
                    all)
           | None => all
           end
     | Rejected e => Rejected e
     end)
  /\ (forall revision f w,
        match fst (Zeus.listArtifactsForRevision revision w) with
        | Resolved all =>
            exists filtered,
              fst (Zeus.filterArtifactsForRevision revision (Some f) w) =
                Resolved filtered
              /\ filtered = List.filter (Spec.kept f) all
              /\ forall a, In a filtered <-> In a all /\ Spec.kept f a = true
        | Rejected _ => True
        end)
  /\ (forall revision w,
        Zeus.filterArtifactsForRevision revision None w =
        Zeus.listArtifactsForRevision revision w)
  /\ (forall dry,
        fst (Pypi.packageFiles Sample.plainTarget "abc123"
               (Sample.start dry Sample.zeus)) =
        Resolved [Sample.whl; Sample.targz])
  /\ (forall dry,
        fst (Zeus.filterArtifactsForRevision "abc123"
               (Some (mkFilterOptions (Some Pypi.packageExtensions) None))
               (Sample.start dry Sample.zeus)) =
        Resolved [Sample.whl; Sample.targz])
  /\ RegExp.test Pypi.DEFAULT_PYPI_REGEX "pkg-1.0.0.whl" = true
  /\ RegExp.test Pypi.DEFAULT_PYPI_REGEX "pkg-1.0.0.tar.gz" = true
  /\ RegExp.test Pypi.DEFAULT_PYPI_REGEX "readme.txt" = false.
Proof.
  split; [| split; [| split; [| split; [| split]]]].
  - intros revision filterOptions w.
    rewrite filterArtifactsForRevision_run.
    destruct (Zeus.listArtifactsForRevision revision w) as [[all | e] w'];
      reflexivity.
  - intros revision f w.
    rewrite filterArtifactsForRevision_run.
    destruct (Zeus.listArtifactsForRevision revision w) as [[all | e] w'];
      cbn [fst snd]; [| exact I].
    exists (List.filter (Spec.kept f) all). split; [| split].
    + now rewrite applyFilter_kept.
    + reflexivity.
    + intros a. apply List.filter_In.
  - intros revision w. rewrite filterArtifactsForRevision_run.
    now destruct (Zeus.listArtifactsForRevision revision w) as [[all | e] w'].
  - intros dry. destruct dry; vm_compute; reflexivity.
  - intros dry. destruct dry; vm_compute; reflexivity.
  - repeat split; vm_compute; reflexivity.
Qed.

(** *** Memoized downloads *)

Lemma StoreStep_refl (w : World) : StoreStep w w.
Proof. split; auto. Qed.

Lemma StoreStep_trans (w1 w2 w3 : World) :
  StoreStep w1 w2 -> StoreStep w2 w3 -> StoreStep w1 w3.
Proof.
  intros [C12 N12] [C23 N23]. split; [auto |].
  intros u.
  destruct (N12 u) as [E12 | (H1 & H2 & E12)];
    destruct (N23 u) as [E23 | (H3 & H4 & E23)].
  - left. congruence.
  - right. repeat split; [| assumption | congruence].
    destruct (downloadCache (store w1) !! u) as [p |] eqn:E; [| reflexivity].
    apply C12 in E. congruence.
  - right. repeat split; [assumption | | congruence].
    destruct H2 as [p Hp]. exists p. auto.
  - destruct H2 as [p Hp]. congruence.
Qed.

Lemma downloadsOf_app (u : string) (t1 t2 : list Event) :
  Spec.downloadsOf u (t1 ++ t2) =
  Spec.downloadsOf u t1 + Spec.downloadsOf u t2.
Proof.
  unfold Spec.downloadsOf. now rewrite List.filter_app, List.length_app.
Qed.

(** A step that leaves the download cache alone and records no download. *)
Lemma StoreStep_other (w w' : World) (t : list Event) :
  downloadCache (store w') = downloadCache (store w) ->
  trace w' = trace w ++ t ->
  Forall (fun e => isZeusDownload e = false) t ->
  StoreStep w w'.
Proof.
  intros Hc Ht Hn. split.
  - intros u p. now rewrite Hc.
  - intros u. left. rewrite Ht, downloadsOf_app.
    assert (Spec.downloadsOf u t = 0) as ->; [| lia].
    unfold Spec.downloadsOf. clear Ht.
    induction Hn as [| e t He _ IH]; [reflexivity |].
    destruct e; cbn in *; try exact IH. discriminate He.
Qed.

Lemma Steps_ret {A} (a : A) : Steps (ret a).
Proof. intros w. apply StoreStep_refl. Qed.

Lemma Steps_await {A} (p : Promise A) : Steps (await p).
Proof. intros w. apply StoreStep_refl. Qed.

Lemma Steps_bind {A B} (m : M A) (f : A -> M B) :
  Steps m -> (forall a, Steps (f a)) -> Steps (bind m f).
Proof.
  intros Hm Hf w. rewrite bind_run. specialize (Hm w).
  destruct (m w) as [[a | e] w']; cbn [snd] in *; [| assumption].
  eapply StoreStep_trans; [eassumption | apply Hf].
Qed.

Lemma Steps_call {A} (m : M A) : Steps m -> Steps (call m).
Proof.
  intros Hm w. specialize (Hm w). unfold call.
  now destruct (m w) as [p w'].
Qed.

Lemma Steps_mapM {A B} (f : A -> M B) (l : list A) :
  (forall a, Steps (f a)) -> Steps (mapM f l).
Proof.
  intros Hf. induction l as [| x l IH]; cbn [mapM].
  - apply Steps_ret.
  - apply Steps_bind; [apply Hf |]. intros y.
    apply Steps_bind; [apply IH |]. intros ys. apply Steps_ret.
Qed.

Lemma Steps_downloadArtifact (artifact : Artifact) :
  Steps (Zeus.downloadArtifact artifact).
Proof.
  intros w.
  destruct (downloadCache (store w) !! download_url artifact) as [p |] eqn:H.
  - rewrite (downloadArtifact_hit _ _ _ H). apply StoreStep_refl.
  - rewrite (downloadArtifact_miss _ _ H). cbn [snd].
    split; cbn [trace store downloadCache withDownloadCache].
    + intros u p Hu. rewrite lookup_insert_ne; [assumption | congruence].
    + intros u. rewrite downloadsOf_app.
      assert (Spec.downloadsOf u [ZeusDownloadArtifact artifact] =
              if String.eqb (download_url artifact) u then 1 else 0) as ->.
      { unfold Spec.downloadsOf. cbn.
        now destruct (String.eqb (download_url artifact) u). }
      destruct (String.eqb_spec (download_url artifact) u) as [<- | Hne].
      * right. rewrite lookup_insert_eq. repeat split; eauto. lia.
      * left. lia.
Qed.

Lemma Steps_listArtifactsForRevision (revision : string) :
  Steps (Zeus.listArtifactsForRevision revision).
Proof.
  intros w.
  destruct (fileListCache (store w) !! revision) as [p |] eqn:H.
  - rewrite (listArtifactsForRevision_hit _ _ _ H). apply StoreStep_refl.
  - rewrite (listArtifactsForRevision_miss _ _ H). cbn [snd].
    eapply StoreStep_other; cbn; [reflexivity | reflexivity |].
    repeat constructor.
Qed.

Lemma Steps_filterArtifactsForRevision (revision : string)
  (filterOptions : option FilterOptions) :
  Steps (Zeus.filterArtifactsForRevision revision filterOptions).
Proof.
  intros w. rewrite filterArtifactsForRevision_run.
  pose proof (Steps_listArtifactsForRevision revision w) as H.
  now destruct (Zeus.listArtifactsForRevision revision w) as [[all | e] w'].
Qed.

Lemma Steps_getRevision (revision : string) : Steps (Zeus.getRevision revision).
Proof.
  intros w. eapply StoreStep_other with (t := [_]); cbn;
    [reflexivity | reflexivity | repeat constructor].
Qed.

Lemma Steps_downloadArtifacts (artifacts : list Artifact) :
  Steps (Zeus.downloadArtifacts artifacts).
Proof.
  apply Steps_bind.
  - apply Steps_mapM. intros a. apply Steps_call, Steps_downloadArtifact.
  - intros ps. apply Steps_await.
Qed.

Lemma StoreStep_runOp (o : Zeus.Op) (w : World) : StoreStep w (Zeus.runOp o w).
Proof.
  destruct o; cbn [Zeus.runOp].
  - apply Steps_downloadArtifact.
  - apply Steps_downloadArtifacts.
  - apply Steps_listArtifactsForRevision.
  - apply Steps_filterArtifactsForRevision.
  - apply Steps_getRevision.
Qed.

Lemma StoreStep_runOps (os : list Zeus.Op) (w : World) :
  StoreStep w (Zeus.runOps os w).
Proof.
  revert w. induction os as [| o os IH]; intros w; cbn.
  - apply StoreStep_refl.
  - eapply StoreStep_trans; [apply StoreStep_runOp | apply IH].
Qed.

(** After a call the promise is in the cache under the URL. *)
Lemma downloadArtifact_cached (artifact : Artifact) (w : World) :
  downloadCache (store (snd (Zeus.downloadArtifact artifact w)))
    !! download_url artifact = Some (fst (Zeus.downloadArtifact artifact w)).
Proof.
  destruct (downloadCache (store w) !! download_url artifact) as [p |] eqn:H.
  - rewrite (downloadArtifact_hit _ _ _ H). exact H.
  - rewrite (downloadArtifact_miss _ _ H). cbn. apply lookup_insert_eq.
Qed.

(** Whatever the store is asked in between, a later download of the same URL
    is answered from the cache. *)
Lemma download_after_ops (w : World) (a a' : Artifact) (between : list Zeus.Op) :
  download_url a' = download_url a ->
  let w2 := Zeus.runOps between (snd (Zeus.downloadArtifact a w)) in
  Zeus.downloadArtifact a' w2 = (fst (Zeus.downloadArtifact a w), w2).
Proof.
  intros Hu w2. apply downloadArtifact_hit. rewrite Hu.
  apply (step_cache _ _ (StoreStep_runOps between _)).
  apply downloadArtifact_cached.
Qed.

Lemma downloads_at_most_once (c : ZeusClient) (owner repo : string)
  (dry : bool) (os : list Zeus.Op) (u : string) :
  Spec.downloadsOf u
    (trace (Zeus.runOps os (mkWorld dry [] (newZeusStore c owner repo)))) <= 1.
Proof.
  pose proof (StoreStep_runOps os (mkWorld dry [] (newZeusStore c owner repo)))
    as [_ Hn].
  destruct (Hn u) as [E | (_ & _ & E)]; rewrite E; cbn; lia.
Qed.

(** C3: a download of a URL that the store has been asked for before --
    right after the first call, before its promise has settled, or after any
    further use of the store -- issues no transport call, changes nothing and
    returns the promise of the first call, hence the same local path; and in
    a process that starts with a new store, whatever sequence of store
    operations it runs, the transport download of any given URL happens at
    most once. *)
Theorem download_memoized (w : World) (a : Artifact) (name' : string)
  (type' : option string) (between : list Zeus.Op) :
  let a' := mkArtifact name' (download_url a) type' in
  let first := Zeus.downloadArtifact a w in
  let w2 := Zeus.runOps between (snd first) in
  let second := Zeus.downloadArtifact a' w2 in
  fst second = fst first
  /\ trace (snd second) = trace w2
  /\ snd second = w2
  /\ (forall c owner repo dry os u,
        Spec.downloadsOf u
          (trace (Zeus.runOps os (mkWorld dry [] (newZeusStore c owner repo))))
        <= 1).
Proof.
  intros a' first w2 second.
  assert (second = (fst first, w2)) as Hs.
  { subst second w2 first. now apply download_after_ops. }
  rewrite Hs. cbn [fst snd]. repeat split; auto.
  intros. apply downloads_at_most_once.
Qed.

(** C10: when a download is rejected, the rejected promise is what the cache
    holds for the URL, and it stays there whatever the store is asked
    afterwards; every later download of the URL returns that rejection,
    without a transport call and without any change of state, so that no use
    of the store retries the download. *)
Theorem failed_download_is_cached (w : World) (a a' : Artifact) (e : JsError)
  (between : list Zeus.Op) :
  fst (Zeus.downloadArtifact a w) = Rejected e ->
  download_url a' = download_url a ->
  let w1 := snd (Zeus.downloadArtifact a w) in
  let w2 := Zeus.runOps between w1 in
  downloadCache (store w1) !! download_url a = Some (Rejected e)
  /\ downloadCache (store w2) !! download_url a = Some (Rejected e)
  /\ Zeus.downloadArtifact a' w2 = (Rejected e, w2)
  /\ Spec.downloadsOf (download_url a)
       (trace (snd (Zeus.downloadArtifact a' w2))) =
     Spec.downloadsOf (download_url a) (trace w2).
Proof.
  intros Hfail Hurl w1 w2.
  assert (downloadCache (store w1) !! download_url a = Some (Rejected e)) as H1.
  { subst w1. rewrite downloadArtifact_cached. now rewrite Hfail. }
  assert (Zeus.downloadArtifact a' w2 = (Rejected e, w2)) as H2.
  { subst w2 w1. rewrite <- Hfail. now apply download_after_ops. }
  repeat split; [exact H1 | | exact H2 | now rewrite H2].
  apply (step_cache _ _ (StoreStep_runOps between w1)), H1.
Qed.

(** The first download of the sample client fails and a second transport call
    would succeed; the store keeps answering with the failure. *)
Lemma failed_download_is_cached_witness :
  let w := Sample.start false Sample.zeus in
  let w2 :=
    Zeus.runOps [Zeus.OpDownloadArtifact Sample.targz]
      (snd (Zeus.downloadArtifact Sample.whl w)) in
  (fst (Zeus.downloadArtifact Sample.whl w) = Rejected Sample.networkDown
   /\ download_url Sample.whl = download_url Sample.whl)
  /\ client_downloadArtifact Sample.zeus 2 Sample.whl =
       Resolved "/tmp/craft/pkg-1.0.0.whl"
  /\ Zeus.downloadArtifact Sample.whl w2 = (Rejected Sample.networkDown, w2).
Proof.
  intros w w2. split; [split; reflexivity | split; [reflexivity |]].
  apply (failed_download_is_cached w Sample.whl Sample.whl Sample.networkDown
           [Zeus.OpDownloadArtifact Sample.targz]); reflexivity.
Defined.

(** ** The steps of the release command *)

Lemma tryCatch_run {A} (m : M A) (h : JsError -> M A) (w : World) :
  tryCatch m h w =
  match m w with
  | (Resolved a, w') => (Resolved a, w')
  | (Rejected e, w') => h e w'
  end.
Proof. reflexivity. Qed.

Lemma calls_app (kind : Event -> bool) (t1 t2 : list Event) :
  calls kind (t1 ++ t2) = calls kind t1 + calls kind t2.
Proof. unfold calls. now rewrite List.filter_app, List.length_app. Qed.

Lemma lengthTruthy_false {A} (l : list A) : lengthTruthy l = false <-> l = [].
Proof. destruct l; cbn; split; congruence. Qed.

Lemma lengthTruthy_true {A} (l : list A) : lengthTruthy l = true <-> l <> [].
Proof. destruct l; cbn; split; congruence. Qed.

Lemma isDirty_hasChanges (st : StatusSummary) :
  Release.isDirty st = true <-> ReleaseSpec.hasChanges st.
Proof.
  unfold Release.isDirty, ReleaseSpec.hasChanges.
  rewrite !orb_true_iff, !lengthTruthy_true. tauto.
Qed.

Lemma isDirty_unchanged (st : StatusSummary) :
  Release.isDirty st = false <-> ReleaseSpec.unchanged st.
Proof.
  unfold Release.isDirty, ReleaseSpec.unchanged.
  rewrite !orb_false_iff, !lengthTruthy_false. tauto.
Qed.

(** *** Branch creation *)

Lemma createReleaseBranch_exists (git : SimpleGit) (newVersion sha : string)
  (w : World) :
  git_revparse git ["release/" +:+ newVersion] = Resolved sha ->
  sha <> "" ->
  Release.createReleaseBranch git newVersion w =
  (Rejected (Error ("Branch already exists: " +:+ "release/" +:+ newVersion)),
   withTrace w (trace w ++ [GitRevparse ["release/" +:+ newVersion]])).
Proof.
  intros Hrev Hsha. unfold Release.createReleaseBranch, Release.gitRevparse.
  rewrite bind_run, tryCatch_run, bind_run. cbn [emit].
  unfold await. rewrite Hrev.
  unfold truthy. destruct (String.eqb_spec sha ""); [contradiction |].
  reflexivity.
Qed.

Lemma createReleaseBranch_unknown (git : SimpleGit) (newVersion : string)
  (w : World) :
  ReleaseSpec.branchUnknown git ("release/" +:+ newVersion) ->
  Release.createReleaseBranch git newVersion w =
  if dryRun w then
    (Resolved ("release/" +:+ newVersion),
     withTrace w
       (trace w ++ [GitRevparse ["release/" +:+ newVersion];
                    Log LInfo ["[dry-run] Not creating a new release branch"]]))
  else
    let t :=
      trace w ++ [GitRevparse ["release/" +:+ newVersion];
                  GitCheckoutLocalBranch ("release/" +:+ newVersion)] in
    match git_checkoutLocalBranch git ("release/" +:+ newVersion) with
    | Resolved _ =>
        (Resolved ("release/" +:+ newVersion),
         withTrace w
           (t ++ [Log LInfo ["Created a new release branch: " +:+
                             "release/" +:+ newVersion]]))
    | Rejected e => (Rejected e, withTrace w t)
    end.
Proof.
  intros (e & Hrev & Hmsg).
  unfold Release.createReleaseBranch, Release.gitRevparse,
    Release.gitCheckoutLocalBranch.
  rewrite bind_run, tryCatch_run, bind_run. cbn [emit].
  unfold await. rewrite Hrev, Hmsg. cbn -[String.append].
  destruct (dryRun w); cbn -[String.append].
  - now rewrite <- app_assoc.
  - destruct (git_checkoutLocalBranch git _); cbn -[String.append];
      now rewrite <- !app_assoc.
Qed.

(** Under dry-run no answer of [git rev-parse] leads to a checkout. *)
Lemma createReleaseBranch_dry_no_checkout (git : SimpleGit)
  (newVersion : string) (w : World) :
  dryRun w = true ->
  exists t,
    trace (snd (Release.createReleaseBranch git newVersion w)) = trace w ++ t
    /\ Forall (fun e => ReleaseSpec.isCheckout e = false) t.
Proof.
  intros Hdry.
  unfold Release.createReleaseBranch, Release.gitRevparse.
  rewrite bind_run, tryCatch_run, bind_run. cbn [emit].
  unfold await.
  destruct (git_revparse git _) as [sha | e]; cbn -[String.append].
  - destruct (truthy sha); cbn -[String.append].
    + eexists; split; [reflexivity | repeat constructor].
    + rewrite Hdry. cbn -[String.append]. rewrite <- app_assoc.
      eexists; split; [reflexivity | repeat constructor].
  - destruct (RegExp.test _ _); cbn -[String.append].
    + rewrite Hdry. cbn -[String.append]. rewrite <- app_assoc.
      eexists; split; [reflexivity | repeat constructor].
    + eexists; split; [reflexivity | repeat constructor].
Qed.

(** C8: the branch is named [release/<version>]; when [git rev-parse] finds
    a branch of that name the step fails with the branch-exists error and
    checks nothing out; under dry-run no checkout is ever issued, and when
    the branch is unknown the step logs its intent and returns the derived
    name; in a live run with an unknown branch it checks the branch out and
    returns the name. *)
Theorem branch_creation (git : SimpleGit) (newVersion : string) (w : World) :
  let branchName := "release/" +:+ newVersion in
  let run := Release.createReleaseBranch git newVersion w in
  (forall sha,
     git_revparse git [branchName] = Resolved sha -> sha <> "" ->
     fst run = Rejected (Error ("Branch already exists: " +:+ branchName))
     /\ trace (snd run) = trace w ++ [GitRevparse [branchName]])
  /\ (dryRun w = true ->
      exists t,
        trace (snd run) = trace w ++ t /\
        Forall (fun e => ReleaseSpec.isCheckout e = false) t)
  /\ (dryRun w = true ->
      ReleaseSpec.branchUnknown git branchName ->
      fst run = Resolved branchName
      /\ trace (snd run) =
           trace w ++ [GitRevparse [branchName];
                       Log LInfo ["[dry-run] Not creating a new release branch"]])
  /\ (dryRun w = false ->
      ReleaseSpec.branchUnknown git branchName ->
      git_checkoutLocalBranch git branchName = Resolved tt ->
      fst run = Resolved branchName
      /\ trace (snd run) =
           trace w ++ [GitRevparse [branchName];
                       GitCheckoutLocalBranch branchName;
                       Log LInfo ["Created a new release branch: " +:+ branchName]]).
Proof.
  intros branchName run. subst run branchName.
  split; [| split; [| split]].
  - intros sha Hrev Hsha.
    now rewrite (createReleaseBranch_exists _ _ _ _ Hrev Hsha).
  - apply createReleaseBranch_dry_no_checkout.
  - intros Hdry Hun. rewrite (createReleaseBranch_unknown _ _ _ Hun), Hdry.
    split; reflexivity.
  - intros Hdry Hun Hco.
    rewrite (createReleaseBranch_unknown _ _ _ Hun), Hdry. cbn zeta.
    rewrite Hco. cbn [fst snd withTrace trace]. rewrite <- app_assoc.
    split; reflexivity.
Qed.

(** Version 1.2.0 on the sample repositories: an existing branch stops the
    step; under dry-run the unknown branch is named and not checked out. *)
Lemma branch_creation_witness :
  let dry := Sample.start true Sample.zeus in
  (git_revparse SampleRelease.gitWithBranch ["release/1.2.0"] =
     Resolved "3f2a9c1"
   /\ dryRun dry = true
   /\ ReleaseSpec.branchUnknown
        (SampleRelease.git SampleRelease.cleanStatus SampleRelease.bumpedStatus
           (Resolved tt)) "release/1.2.0")
  /\ fst (Release.createReleaseBranch SampleRelease.gitWithBranch "1.2.0" dry) =
       Rejected (Error "Branch already exists: release/1.2.0")
  /\ fst (Release.createReleaseBranch
            (SampleRelease.git SampleRelease.cleanStatus
               SampleRelease.bumpedStatus (Resolved tt)) "1.2.0" dry) =
       Resolved "release/1.2.0".
Proof.
  intros dry.
  assert (ReleaseSpec.branchUnknown
            (SampleRelease.git SampleRelease.cleanStatus
               SampleRelease.bumpedStatus (Resolved tt)) "release/1.2.0") as Hun.
  { exists SampleRelease.unknownRevisionError. split; reflexivity. }
  split; [split; [reflexivity | split; [reflexivity | exact Hun]] |].
  split.
  - destruct (branch_creation SampleRelease.gitWithBranch "1.2.0" dry)
      as (Hexists & _).
    apply (Hexists "3f2a9c1"); [reflexivity | discriminate].
  - destruct (branch_creation
                (SampleRelease.git SampleRelease.cleanStatus
                   SampleRelease.bumpedStatus (Resolved tt)) "1.2.0" dry)
      as (_ & _ & Hdry & _).
    apply Hdry; [reflexivity | exact Hun].
Defined.

(** *** The commit step *)

Lemma commitNewVersion_run (git : SimpleGit) (newVersion : string) (w : World)
  (st : StatusSummary) :
  git_status git (calls isGitStatus (trace w)) = Resolved st ->
  Release.commitNewVersion git newVersion w =
  if negb (lengthTruthy (created st) || lengthTruthy (modified st)) then
    (Rejected ReleaseSpec.nothingToCommit, withTrace w (trace w ++ [GitStatus]))
  else if dryRun w then
    (Resolved tt,
     withTrace w
       (trace w ++ [GitStatus; Log LInfo ["Committing the release changes..."];
                    Log LInfo ["[dry-run] Not committing the changes."]]))
  else
    (git_commit git ("release: " +:+ newVersion) true,
     withTrace w
       (trace w ++ [GitStatus; Log LInfo ["Committing the release changes..."];
                    GitCommit ("release: " +:+ newVersion) true])).
Proof.
  intros Hst. unfold Release.commitNewVersion, Release.gitStatus,
    Release.gitCommit.
  rewrite bind_run. cbn -[String.append]. rewrite Hst.
  destruct (lengthTruthy (created st) || lengthTruthy (modified st));
    cbn -[String.append]; [| reflexivity].
  destruct (dryRun w); unfold log, emit, await, withTrace;
    cbn -[String.append]; rewrite <- !app_assoc.
  - reflexivity.
  - now destruct (git_commit git _ true).
Qed.

(** C7, as amended: once [git status] has answered, the commit step fails
    with the nothing-to-commit error when the working tree has no file change
    at all, and then commits nothing; when a file has been created or
    modified, a live run commits all pending changes with the message
    [release: <version>] and ends as the commit ends, and a dry run logs that
    it does not commit and succeeds. *)
Theorem commit_step (git : SimpleGit) (newVersion : string) (w : World)
  (st : StatusSummary) :
  git_status git (calls isGitStatus (trace w)) = Resolved st ->
  let run := Release.commitNewVersion git newVersion w in
  (ReleaseSpec.unchanged st ->
   fst run = Rejected ReleaseSpec.nothingToCommit
   /\ trace (snd run) = trace w ++ [GitStatus])
  /\ (created st <> [] \/ modified st <> [] ->
      if dryRun w then
        fst run = Resolved tt
        /\ trace (snd run) =
             trace w ++ [GitStatus;
                         Log LInfo ["Committing the release changes..."];
                         Log LInfo ["[dry-run] Not committing the changes."]]
      else
        fst run = git_commit git ("release: " +:+ newVersion) true
        /\ trace (snd run) =
             trace w ++ [GitStatus;
                         Log LInfo ["Committing the release changes..."];
                         GitCommit ("release: " +:+ newVersion) true]).
Proof.
  intros Hst run. subst run. rewrite (commitNewVersion_run _ _ _ _ Hst).
  split.
  - intros (_ & Hc & _ & Hm & _). rewrite Hc, Hm. cbn. split; reflexivity.
  - intros Hcm.
    assert (lengthTruthy (created st) || lengthTruthy (modified st) = true)
      as ->.
    { rewrite orb_true_iff, !lengthTruthy_true. exact Hcm. }
    cbn [negb]. destruct (dryRun w); split; reflexivity.
Qed.

(** A live run after a version bump commits with the release message. *)
Lemma commit_step_witness :
  let g := SampleRelease.git SampleRelease.bumpedStatus
             SampleRelease.bumpedStatus (Resolved tt) in
  let w := Sample.start false Sample.zeus in
  (git_status g (calls isGitStatus (trace w)) =
     Resolved SampleRelease.bumpedStatus
   /\ (created SampleRelease.bumpedStatus <> [] \/
       modified SampleRelease.bumpedStatus <> []))
  /\ fst (Release.commitNewVersion g "1.2.0" w) = Resolved tt
  /\ trace (snd (Release.commitNewVersion g "1.2.0" w)) =
       [GitStatus; Log LInfo ["Committing the release changes..."];
        GitCommit "release: 1.2.0" true].
Proof.
  intros g w.
  assert (created SampleRelease.bumpedStatus <> [] \/
          modified SampleRelease.bumpedStatus <> []) as Hcm.
  { right. discriminate. }
  split; [split; [reflexivity | exact Hcm] |].
  destruct (commit_step g "1.2.0" w SampleRelease.bumpedStatus eq_refl)
    as (_ & Hlive).
  exact (Hlive Hcm).
Defined.

(** The commit step, as the specification words it, fails twice.  Under
    dry-run a modified file is not committed; and in a live run whose
    pre-release hook only deleted a file, the step reports that there is
    nothing to commit although the working tree has a change. *)
Lemma commit_step_counterexample :
  let dry := Sample.start true Sample.zeus in
  let live := Sample.start false Sample.zeus in
  let bumped := SampleRelease.git SampleRelease.bumpedStatus
                  SampleRelease.bumpedStatus (Resolved tt) in
  let pruned := SampleRelease.git SampleRelease.deletedStatus
                  SampleRelease.deletedStatus (Resolved tt) in
  (ReleaseSpec.hasChanges SampleRelease.bumpedStatus
   /\ fst (Release.commitNewVersion bumped "1.2.0" dry) = Resolved tt
   /\ Forall (fun e => ReleaseSpec.isCommit e = false)
        (trace (snd (Release.commitNewVersion bumped "1.2.0" dry))))
  /\ (ReleaseSpec.hasChanges SampleRelease.deletedStatus
      /\ ~ ReleaseSpec.unchanged SampleRelease.deletedStatus
      /\ fst (Release.commitNewVersion pruned "1.2.0" live) =
           Rejected ReleaseSpec.nothingToCommit).
Proof.
  cbv zeta. split; [split; [| split] | split; [| split]].
  - unfold ReleaseSpec.hasChanges. cbn. do 3 right. left. discriminate.
  - reflexivity.
  - vm_compute. repeat constructor.
  - unfold ReleaseSpec.hasChanges. cbn. do 2 right. left. discriminate.
  - intros (_ & _ & Hd & _). discriminate Hd.
  - reflexivity.
Qed.

(** ** Rules for [Emits] *)

Section EmitsRules.

Context (mode : option bool) (P : Event -> Prop).

Lemma Emits_ret {A} (a : A) : Emits mode P (ret a).
Proof.
  intros w _. split; [reflexivity |]. exists []. now rewrite app_nil_r.
Qed.

Lemma Emits_throw {A} (e : JsError) : Emits mode P (@throw A e).
Proof.
  intros w _. split; [reflexivity |]. exists []. now rewrite app_nil_r.
Qed.

Lemma Emits_await {A} (p : Promise A) : Emits mode P (await p).
Proof.
  intros w _. split; [reflexivity |]. exists []. now rewrite app_nil_r.
Qed.

Lemma Emits_emit (e : Event) : P e -> Emits mode P (emit e).
Proof.
  intros He w _. split; [reflexivity |]. exists [e]. split; [reflexivity |].
  now constructor.
Qed.

Lemma Emits_log (level : LogLevel) (args : list string) :
  P (Log level args) -> Emits mode P (log level args).
Proof. apply Emits_emit. Qed.

Lemma Emits_bind {A B} (m : M A) (f : A -> M B) :
  Emits mode P m -> (forall a, Emits mode P (f a)) -> Emits mode P (bind m f).
Proof.
  intros Hm Hf w Hw. rewrite bind_run.
  destruct (Hm w Hw) as (Hd & t & Ht & HP).
  destruct (m w) as [[a | e] w1]; cbn [snd] in *.
  - assert (inMode mode (dryRun w1)) as Hw1 by now rewrite Hd.
    destruct (Hf a w1 Hw1) as (Hd' & t' & Ht' & HP').
    split; [congruence |]. exists (t ++ t').
    split; [now rewrite Ht', Ht, app_assoc | now apply Forall_app].
  - split; [assumption |]. now exists t.
Qed.

Lemma Emits_tryCatch {A} (m : M A) (h : JsError -> M A) :
  Emits mode P m -> (forall e, Emits mode P (h e)) ->
  Emits mode P (tryCatch m h).
Proof.
  intros Hm Hh w Hw. rewrite tryCatch_run.
  destruct (Hm w Hw) as (Hd & t & Ht & HP).
  destruct (m w) as [[a | e] w1]; cbn [snd] in *.
  - split; [assumption |]. now exists t.
  - assert (inMode mode (dryRun w1)) as Hw1 by now rewrite Hd.
    destruct (Hh e w1 Hw1) as (Hd' & t' & Ht' & HP').
    split; [congruence |]. exists (t ++ t').
    split; [now rewrite Ht', Ht, app_assoc | now apply Forall_app].
Qed.

Lemma Emits_call {A} (m : M A) : Emits mode P m -> Emits mode P (call m).
Proof.
  intros Hm w Hw. specialize (Hm w Hw). unfold call.
  now destruct (m w) as [p w1].
Qed.

Lemma Emits_mapM {A B} (f : A -> M B) (l : list A) :
  (forall a, Emits mode P (f a)) -> Emits mode P (mapM f l).
Proof.
  intros Hf. induction l as [| x l IH]; cbn [mapM].
  - apply Emits_ret.
  - apply Emits_bind; [apply Hf |]. intros y.
    apply Emits_bind; [apply IH |]. intros ys. apply Emits_ret.
Qed.

Lemma Emits_getTrace : Emits mode P getTrace.
Proof.
  intros w _. split; [reflexivity |]. exists []. now rewrite app_nil_r.
Qed.

Lemma Emits_getStore : Emits mode P getStore.
Proof.
  intros w _. split; [reflexivity |]. exists []. now rewrite app_nil_r.
Qed.

Lemma Emits_isDryRun : Emits mode P isDryRun.
Proof.
  intros w _. split; [reflexivity |]. exists []. now rewrite app_nil_r.
Qed.

Lemma Emits_setDownloadCache (key : string) (p : Promise string) :
  Emits mode P (setDownloadCache key p).
Proof.
  intros w _. split; [reflexivity |]. exists []. now rewrite app_nil_r.
Qed.

Lemma Emits_setFileListCache (key : string) (p : Promise (list Artifact)) :
  Emits mode P (setFileListCache key p).
Proof.
  intros w _. split; [reflexivity |]. exists []. now rewrite app_nil_r.
Qed.

(** A guard whose mode is not known: both branches count. *)
Lemma Emits_guard {A} (k : bool -> M A) :
  (forall b, Emits mode P (k b)) -> Emits mode P (bind shouldPerform k).
Proof.
  intros Hk w Hw. rewrite bind_run. cbn. now apply Hk.
Qed.

End EmitsRules.

(** Under dry-run only the branch of a guard that does not perform counts. *)
Lemma Emits_guard_dry {A} (P : Event -> Prop) (k : bool -> M A) :
  Emits (Some true) P (k false) -> Emits (Some true) P (bind shouldPerform k).
Proof.
  intros Hk w Hw. rewrite bind_run. cbn in *. rewrite Hw. cbn.
  specialize (Hk w Hw). now rewrite Hw in Hk.
Qed.

Lemma Emits_isDryRun_dry {A} (P : Event -> Prop) (k : bool -> M A) :
  Emits (Some true) P (k true) -> Emits (Some true) P (bind isDryRun k).
Proof.
  intros Hk w Hw. rewrite bind_run. cbn in *. rewrite Hw.
  specialize (Hk w Hw). now rewrite Hw in Hk.
Qed.

Lemma Emits_weaken {A} (mode : option bool) (P Q : Event -> Prop) (m : M A) :
  (forall e, P e -> Q e) -> Emits mode P m -> Emits mode Q m.
Proof.
  intros HPQ Hm w Hw. destruct (Hm w Hw) as (Hd & t & Ht & HP).
  split; [assumption |]. exists t. split; [assumption |].
  eapply Forall_impl; eauto.
Qed.

Lemma Emits_any_mode {A} (mode : option bool) (P : Event -> Prop) (m : M A) :
  Emits None P m -> Emits mode P m.
Proof. intros Hm w _. now apply Hm. Qed.

(** Syntax-directed proof of an [Emits] judgement. *)
Ltac emits_event :=
  cbv beta; first [reflexivity | split; reflexivity | exact I].

Ltac emits_step :=
  lazymatch goal with
  | |- Emits (Some true) _ (bind shouldPerform _) =>
      apply Emits_guard_dry; cbv beta iota
  | |- Emits (Some true) _ (bind isDryRun _) =>
      apply Emits_isDryRun_dry; cbv beta iota
  | |- Emits _ _ (bind shouldPerform _) => apply Emits_guard; intros []
  | |- Emits _ _ (bind _ _) => apply Emits_bind; [| intros ?]
  | |- Emits _ _ (tryCatch _ _) => apply Emits_tryCatch; [| intros ?]
  | |- Emits _ _ (ret _) => apply Emits_ret
  | |- Emits _ _ (throw _) => apply Emits_throw
  | |- Emits _ _ (await _) => apply Emits_await
  | |- Emits _ _ (log _ _) => apply Emits_log; emits_event
  | |- Emits _ _ (emit _) => apply Emits_emit; emits_event
  | |- Emits _ _ getTrace => apply Emits_getTrace
  | |- Emits _ _ getStore => apply Emits_getStore
  | |- Emits _ _ isDryRun => apply Emits_isDryRun
  | |- Emits _ _ (setDownloadCache _ _) => apply Emits_setDownloadCache
  | |- Emits _ _ (setFileListCache _ _) => apply Emits_setFileListCache
  | |- Emits _ _ (call _) => apply Emits_call
  | |- Emits _ _ (mapM _ _) => apply Emits_mapM; intros ?
  | |- Emits _ _ (if ?c then _ else _) => destruct c
  | |- Emits _ _ (match ?x with _ => _ end) => destruct x
  end.

Ltac emits := repeat emits_step.

Lemma Emits_checkChangelog (env : Env) (newVersion : string)
  (policy path : option string) :
  Emits None beforeBranch (Release.checkChangelog env newVersion policy path).
Proof. unfold Release.checkChangelog. emits. Qed.

Lemma Emits_getGithubClient (env : Env) (token : string) :
  Emits None beforeBranch (GithubApi.getGithubClient env token).
Proof. unfold GithubApi.getGithubClient. emits. Qed.

Lemma Emits_getDefaultBranch (env : Env) (github : Github) (owner repo : string) :
  Emits None beforeBranch (GithubApi.getDefaultBranch env github owner repo).
Proof. unfold GithubApi.getDefaultBranch. emits. Qed.

(** *** Validation of the git state *)

Lemma checkGitState_disabled (git : SimpleGit) (defaultBranch : string)
  (w : World) :
  Release.checkGitState git defaultBranch false w =
  (Resolved tt,
   withTrace w
     (trace w ++ [Log LWarn ["Not checking the status of the local repository"]])).
Proof. reflexivity. Qed.

Lemma checkGitState_enabled (git : SimpleGit) (defaultBranch : string)
  (w : World) :
  Release.checkGitState git defaultBranch true w =
  let t :=
    trace w ++ [Log LInfo ["Checking the local repository status..."];
                GitCheckIsRepo] in
  match git_checkIsRepo git with
  | Rejected e => (Rejected e, withTrace w t)
  | Resolved false => (Rejected (Error "Not a git repository!"), withTrace w t)
  | Resolved true =>
      match git_status git (calls isGitStatus (trace w)) with
      | Rejected e => (Rejected e, withTrace w (t ++ [GitStatus]))
      | Resolved st =>
          (gitStateVerdict defaultBranch st, withTrace w (t ++ [GitStatus]))
      end
  end.
Proof.
  unfold Release.checkGitState, Release.gitCheckIsRepo, Release.gitStatus.
  cbn [negb]. rewrite !bind_run.
  unfold log, emit, await, getTrace, withTrace. cbn -[String.append calls].
  rewrite <- !app_assoc. cbn -[String.append calls].
  destruct (git_checkIsRepo git) as [[|] | e]; cbn -[String.append calls];
    try reflexivity.
  rewrite calls_app.
  change (calls isGitStatus [_; GitCheckIsRepo]) with 0. rewrite Nat.add_0_r.
  rewrite <- !app_assoc. cbn -[String.append calls].
  destruct (git_status git _) as [st | e]; cbn -[String.append calls];
    [| reflexivity].
  unfold gitStateVerdict, Errors.reportError, throw, ret.
  destruct (String.eqb defaultBranch (current st)); cbn -[String.append calls];
    [| reflexivity].
  destruct (Release.isDirty st); cbn -[String.append calls]; [reflexivity |].
  destruct (0 <? ahead st)%Z; reflexivity.
Qed.

Lemma gitStateVerdict_rejects (defaultBranch : string) (st : StatusSummary) :
  current st <> defaultBranch \/ ReleaseSpec.hasChanges st \/ (0 < ahead st)%Z ->
  isRejected (gitStateVerdict defaultBranch st) = true.
Proof.
  intros H. unfold gitStateVerdict.
  destruct (String.eqb_spec defaultBranch (current st)) as [Hb | Hb];
    [| reflexivity].
  cbn [negb].
  destruct (Release.isDirty st) eqn:Hd; [reflexivity |].
  destruct (Z.ltb_spec 0 (ahead st)); [reflexivity |].
  destruct H as [H | [H | H]].
  - congruence.
  - apply isDirty_hasChanges in H. congruence.
  - lia.
Qed.

Lemma gitStateVerdict_accepts (defaultBranch : string) (st : StatusSummary) :
  current st = defaultBranch -> ReleaseSpec.unchanged st -> (ahead st <= 0)%Z ->
  gitStateVerdict defaultBranch st = Resolved tt.
Proof.
  intros Hb Hu Ha. unfold gitStateVerdict.
  rewrite <- Hb, String.eqb_refl. cbn [negb].
  apply isDirty_unchanged in Hu. rewrite Hu.
  destruct (Z.ltb_spec 0 (ahead st)); [lia | reflexivity].
Qed.

(** With the checks enabled, a refused state stops the step whatever the
    other answers of the git client are. *)
Lemma checkGitState_rejects (git : SimpleGit) (defaultBranch : string)
  (w : World) :
  (git_checkIsRepo git = Resolved false \/
   exists st,
     git_status git (calls isGitStatus (trace w)) = Resolved st /\
     (current st <> defaultBranch \/ ReleaseSpec.hasChanges st \/
      (0 < ahead st)%Z)) ->
  isRejected (fst (Release.checkGitState git defaultBranch true w)) = true
  /\ exists t,
       trace (snd (Release.checkGitState git defaultBranch true w)) =
         trace w ++ t /\
       Forall (fun e => ReleaseSpec.isBranchCreation e = false) t.
Proof.
  intros H. rewrite checkGitState_enabled. cbv zeta.
  destruct (git_checkIsRepo git) as [[|] | e].
  - destruct H as [H | (st & Hst & H)]; [discriminate |].
    rewrite Hst. cbn [fst snd withTrace trace]. split.
    + now apply gitStateVerdict_rejects.
    + rewrite <- app_assoc. eexists; split; [reflexivity | repeat constructor].
  - cbn. split; [reflexivity |].
    eexists; split; [reflexivity | repeat constructor].
  - cbn. split; [reflexivity |].
    eexists; split; [reflexivity | repeat constructor].
Qed.

Lemma calls_beforeBranch (t : list Event) :
  Forall beforeBranch t -> calls isGitStatus t = 0.
Proof.
  induction 1 as [| e t [_ He] _ IH]; [reflexivity |].
  unfold calls in *. cbn. now rewrite He.
Qed.

Lemma StopsBeforeBranch_after {A B} (n : nat) (m : M A) (f : A -> M B) :
  Emits None beforeBranch m ->
  (forall a, StopsBeforeBranch n (f a)) ->
  StopsBeforeBranch n (bind m f).
Proof.
  intros Hm Hf w Hn. rewrite bind_run.
  destruct (Hm w I) as (_ & t & Ht & HP).
  assert (Forall (fun e => ReleaseSpec.isBranchCreation e = false) t) as HP'.
  { eapply List.Forall_impl; [| exact HP]. now intros e [He _]. }
  destruct (m w) as [[a | e] w1]; cbn [fst snd] in *.
  - assert (calls isGitStatus (trace w1) = n) as Hn1.
    { rewrite Ht, calls_app, (calls_beforeBranch _ HP). lia. }
    destruct (Hf a w1 Hn1) as (Hr & t' & Ht' & HP'').
    split; [assumption |]. exists (t ++ t').
    split; [now rewrite Ht', Ht, app_assoc | now apply Forall_app].
  - split; [reflexivity |]. now exists t.
Qed.

Lemma StopsBeforeBranch_here {A B} (n : nat) (m : M A) (f : A -> M B) :
  StopsBeforeBranch n m -> StopsBeforeBranch n (bind m f).
Proof.
  intros Hm w Hn. rewrite bind_run.
  destruct (Hm w Hn) as (Hr & Ht).
  destruct (m w) as [[a | e] w1]; cbn [fst snd] in *; [discriminate |].
  now split.
Qed.

(** With the checks enabled, the release stops at a refused git state, and
    has not looked for the release branch by then. *)
Lemma release_stops_at_git_state (env : Env) (argv : Release.ReleaseOptions)
  (n : nat) (st : StatusSummary) :
  Release.noGitChecks argv = false ->
  git_status (simpleGit env (configFileDir env)) n = Resolved st ->
  ReleaseSpec.hasChanges st ->
  StopsBeforeBranch n (Release.release env argv).
Proof.
  intros Hchecks Hst Hdirty. unfold Release.release.
  apply StopsBeforeBranch_after; [emits |]. intros config.
  apply StopsBeforeBranch_after; [emits |]. intros _.
  apply StopsBeforeBranch_after; [apply Emits_checkChangelog |]. intros _.
  apply StopsBeforeBranch_after; [apply Emits_getGithubClient |].
  intros githubClient.
  apply StopsBeforeBranch_after; [apply Emits_getDefaultBranch |].
  intros defaultBranch.
  apply StopsBeforeBranch_here. rewrite Hchecks. cbn [negb].
  intros w Hn. apply checkGitState_rejects. right. exists st.
  rewrite Hn. auto.
Qed.

(** C6: with the checks enabled, [checkGitState] is rejected when the
    directory is not a git repository, when the current branch is not the
    default branch, when one of the conflicted, created, deleted, modified,
    renamed and staged lists is not empty, and when the branch is ahead of
    the remote; it passes on a clean, pushed default branch.  With the checks
    disabled it logs a warning, asks the git client nothing and passes.  When
    the checks are enabled and the working tree has changes, the release
    command is rejected and its trace shows neither the lookup nor the
    checkout of the release branch. *)
Theorem git_state_validation (env : Env) (argv : Release.ReleaseOptions)
  (defaultBranch : string) (w : World) :
  let git := simpleGit env (configFileDir env) in
  let n := calls isGitStatus (trace w) in
  let check := Release.checkGitState git defaultBranch true w in
  (git_checkIsRepo git = Resolved false ->
   fst check = Rejected (Error "Not a git repository!"))
  /\ (forall st,
        git_status git n = Resolved st ->
        current st <> defaultBranch \/ ReleaseSpec.hasChanges st \/
        (0 < ahead st)%Z ->
        isRejected (fst check) = true)
  /\ (forall st,
        git_checkIsRepo git = Resolved true ->
        git_status git n = Resolved st ->
        current st = defaultBranch -> ReleaseSpec.unchanged st ->
        (ahead st <= 0)%Z ->
        fst check = Resolved tt)
  /\ Release.checkGitState git defaultBranch false w =
       (Resolved tt,
        withTrace w
          (trace w ++
           [Log LWarn ["Not checking the status of the local repository"]]))
  /\ (forall st,
        Release.noGitChecks argv = false ->
        git_status git n = Resolved st ->
        ReleaseSpec.hasChanges st ->
        isRejected (fst (Release.release env argv w)) = true
        /\ exists t,
             trace (snd (Release.release env argv w)) = trace w ++ t /\
             Forall (fun e => ReleaseSpec.isBranchCreation e = false) t).
Proof.
  intros git n check. subst check n.
  split; [| split; [| split; [| split]]].
  - intros Hrepo. rewrite checkGitState_enabled. cbv zeta. now rewrite Hrepo.
  - intros st Hst H. apply checkGitState_rejects. right. now exists st.
  - intros st Hrepo Hst Hb Hu Ha. rewrite checkGitState_enabled. cbv zeta.
    rewrite Hrepo, Hst. cbn [fst]. now apply gitStateVerdict_accepts.
  - apply checkGitState_disabled.
  - intros st Hchecks Hst Hdirty.
    now apply (release_stops_at_git_state env argv _ st Hchecks Hst Hdirty).
Qed.

(** The scenario of the specification: the checks are enabled and one file is
    staged.  The release is rejected after [git status], with the dirty-state
    error, before any step of branch creation. *)
Lemma git_state_validation_witness :
  let env :=
    SampleRelease.env
      (SampleRelease.git SampleRelease.stagedStatus SampleRelease.bumpedStatus
         (Resolved tt))
      (SampleRelease.octokit (Rejected Sample.networkDown)) in
  let w := Sample.start false Sample.zeus in
  (Release.noGitChecks SampleRelease.argv = false
   /\ git_status (simpleGit env (configFileDir env))
        (calls isGitStatus (trace w)) = Resolved SampleRelease.stagedStatus
   /\ ReleaseSpec.hasChanges SampleRelease.stagedStatus)
  /\ (isRejected (fst (Release.release env SampleRelease.argv w)) = true
      /\ exists t,
           trace (snd (Release.release env SampleRelease.argv w)) =
             trace w ++ t /\
           Forall (fun e => ReleaseSpec.isBranchCreation e = false) t)
  /\ fst (Release.release env SampleRelease.argv w) =
       Rejected (Error ("Your repository is in a dirty state. " +:+
                        "Please stash or commit the pending changes.")).
Proof.
  intros env w.
  assert (ReleaseSpec.hasChanges SampleRelease.stagedStatus) as Hdirty.
  { unfold ReleaseSpec.hasChanges. cbn. do 5 right. discriminate. }
  split; [split; [reflexivity | split; [reflexivity | exact Hdirty]] |].
  split; [| reflexivity].
  destruct (git_state_validation env SampleRelease.argv "master" w)
    as (_ & _ & _ & _ & Hrelease).
  apply (Hrelease SampleRelease.stagedStatus); [reflexivity | reflexivity |].
  exact Hdirty.
Defined.

(** ** The filter of a target *)

(** C2, on the code: [getArtifactsForRevision] hands the store the spread of
    the target's own filter followed by the call-site default, so that on
    every key that the default has, the default replaces the target's own
    matcher; the own matcher is used only for a key that the default lacks.
    A target configured with [includeFiles: /\.whl$/] and published by the
    PyPI target, whose call-site default is the package expression, therefore
    gets the source archive as well as the wheel. *)
Theorem default_filter_replaces_own :
  (forall this revision d,
     Base.getArtifactsForRevision this revision (Some d) =
     Zeus.filterArtifactsForRevision revision
       (Some
          (mkFilterOptions
             (match includeNames d with
              | Some r => Some r
              | None => includeNames (Base.filterOptions this)
              end)
             (match excludeNames d with
              | Some r => Some r
              | None => excludeNames (Base.filterOptions this)
              end))))
  /\ (forall cfg own ownExclude def defExclude,
        includeNames
          (Base.mergedFilter
             (Base.mkBaseTarget cfg (mkFilterOptions (Some own) ownExclude))
             (Some (mkFilterOptions (Some def) defExclude))) = Some def)
  /\ (forall cfg ownInclude own defInclude def,
        excludeNames
          (Base.mergedFilter
             (Base.mkBaseTarget cfg (mkFilterOptions ownInclude (Some own)))
             (Some (mkFilterOptions defInclude (Some def)))) = Some def)
  /\ includeNames (Base.filterOptions Sample.wheelTarget) =
       Some Sample.wheelsOnly
  /\ RegExp.test Sample.wheelsOnly "pkg-1.0.0.tar.gz" = false
  /\ fst (Pypi.packageFiles Sample.wheelTarget "abc123"
            (Sample.start false Sample.zeus)) =
       Resolved [Sample.whl; Sample.targz].
Proof.
  repeat split; vm_compute; reflexivity.
Qed.

(** ** Rules for [Sim] *)

Lemma steps_app (t1 t2 : list Event) :
  DryRun.steps (t1 ++ t2) = DryRun.steps t1 ++ DryRun.steps t2.
Proof. apply List.filter_app. Qed.

Lemma sameOutcome_eq {A} (p q : Promise A) : sameOutcome eq p q <-> p = q.
Proof.
  destruct p, q; cbn; split; intros H; try congruence; try contradiction;
    discriminate.
Qed.

Lemma Mirror_emit_both (w1 w2 : World) (e : Event) :
  Mirror w1 w2 ->
  Mirror (withTrace w1 (trace w1 ++ [e])) (withTrace w2 (trace w2 ++ [e])).
Proof.
  intros [Hd Hl Hs Ht]. split; cbn; auto.
  now rewrite !steps_app, Ht.
Qed.

Lemma Mirror_silent (w1 w2 : World) (t1 t2 : list Event) :
  Mirror w1 w2 ->
  DryRun.steps t1 = [] -> DryRun.steps t2 = [] ->
  Mirror (withTrace w1 (trace w1 ++ t1)) (withTrace w2 (trace w2 ++ t2)).
Proof.
  intros [Hd Hl Hs Ht] H1 H2. split; cbn; auto.
  now rewrite !steps_app, Ht, H1, H2.
Qed.

Section SimRules.

Context (ok : Event -> Prop).

Lemma Sim_ret {A B} (R : A -> B -> Prop) (a : A) (b : B) :
  R a b -> Sim ok R (ret a) (ret b).
Proof.
  intros HR. split; [apply Emits_ret |]. intros w1 w2 t HM _ _. now split.
Qed.

Lemma Sim_throw {A B} (R : A -> B -> Prop) (e : JsError) :
  Sim ok R (throw e) (throw e).
Proof.
  split; [apply Emits_throw |]. intros w1 w2 t HM _ _. now split.
Qed.

Lemma Sim_await {A B} (R : A -> B -> Prop) (p : Promise A) (q : Promise B) :
  sameOutcome R p q -> Sim ok R (await p) (await q).
Proof.
  intros HR. split; [apply Emits_await |]. intros w1 w2 t HM _ _. now split.
Qed.

Lemma Sim_bind {A B A' B'} (R : A -> B -> Prop) (S : A' -> B' -> Prop)
  (m1 : M A) (m2 : M B) (f1 : A -> M A') (f2 : B -> M B') :
  Sim ok R m1 m2 ->
  (forall b, exists a, R a b) ->
  (forall a b, R a b -> Sim ok S (f1 a) (f2 b)) ->
  Sim ok S (bind m1 f1) (bind m2 f2).
Proof.
  intros [Hext Hm] Htot Hf. split.
  - apply Emits_bind; [assumption |]. intros b.
    destruct (Htot b) as [a Hab]. apply (Hf a b Hab).
  - intros w1 w2 t HM Ht Hok. rewrite !bind_run in *.
    destruct (Hext w2 (mirror_live _ _ HM)) as (Hlive & ta & Hta & _).
    specialize (Hm w1 w2 ta HM Hta).
    destruct (m2 w2) as [[b | e] w2']; cbn [fst snd] in *.
    + destruct (Htot b) as [a0 Hab0].
      destruct (Hf a0 b Hab0) as [Hextf _].
      assert (dryRun w2' = false) as Hl' by (rewrite Hlive; apply HM).
      destruct (Hextf w2' Hl') as (_ & tb & Htb & _).
      assert (t = ta ++ tb) as ->.
      { rewrite Htb, Hta, <- app_assoc in Ht. now apply app_inv_head in Ht. }
      apply Forall_app in Hok as [Hoka Hokb].
      destruct (Hm Hoka) as [HM' HR].
      destruct (m1 w1) as [[a | e] w1']; cbn [fst snd] in *; [| contradiction].
      destruct (Hf a b HR) as [_ Hfm]. now apply (Hfm w1' w2' tb).
    + assert (t = ta) as ->.
      { rewrite Hta in Ht. now apply app_inv_head in Ht. }
      destruct (Hm Hok) as [HM' HR].
      destruct (m1 w1) as [[a | e'] w1']; cbn [fst snd] in *; [contradiction |].
      now split.
Qed.

Lemma Sim_bind_eq {A A' B'} (S : A' -> B' -> Prop)
  (m1 m2 : M A) (f1 : A -> M A') (f2 : A -> M B') :
  Sim ok eq m1 m2 ->
  (forall a, Sim ok S (f1 a) (f2 a)) ->
  Sim ok S (bind m1 f1) (bind m2 f2).
Proof.
  intros Hm Hf. apply (Sim_bind eq); [assumption | eauto |].
  intros a b ->. apply Hf.
Qed.

Lemma Sim_tryCatch {A B} (R : A -> B -> Prop) (m1 : M A) (m2 : M B)
  (h1 : JsError -> M A) (h2 : JsError -> M B) :
  Sim ok R m1 m2 ->
  (forall e, Sim ok R (h1 e) (h2 e)) ->
  Sim ok R (tryCatch m1 h1) (tryCatch m2 h2).
Proof.
  intros [Hext Hm] Hh. split.
  - apply Emits_tryCatch; [assumption |]. intros e. apply Hh.
  - intros w1 w2 t HM Ht Hok. rewrite !tryCatch_run in *.
    destruct (Hext w2 (mirror_live _ _ HM)) as (Hlive & ta & Hta & _).
    specialize (Hm w1 w2 ta HM Hta).
    destruct (m2 w2) as [[b | e] w2']; cbn [fst snd] in *.
    + assert (t = ta) as ->.
      { rewrite Hta in Ht. now apply app_inv_head in Ht. }
      destruct (Hm Hok) as [HM' HR].
      destruct (m1 w1) as [[a | e'] w1']; cbn [fst snd] in *; [| contradiction].
      now split.
    + destruct (Hh e) as [Hexth Hhm].
      assert (dryRun w2' = false) as Hl' by (rewrite Hlive; apply HM).
      destruct (Hexth w2' Hl') as (_ & tb & Htb & _).
      assert (t = ta ++ tb) as ->.
      { rewrite Htb, Hta, <- app_assoc in Ht. now apply app_inv_head in Ht. }
      apply Forall_app in Hok as [Hoka Hokb].
      destruct (Hm Hoka) as [HM' HR].
      destruct (m1 w1) as [[a | e'] w1']; cbn [fst snd] in *; [contradiction |].
      cbn in HR. subst e'. now apply (Hhm w1' w2' tb).
Qed.

Lemma Sim_emit (e : Event) : DryRun.isStep e = true -> Sim ok eq (emit e) (emit e).
Proof.
  intros He. split; [now apply Emits_emit |].
  intros w1 w2 t HM _ _. split; [| reflexivity].
  now apply Mirror_emit_both.
Qed.

Lemma Sim_log (l1 l2 : LogLevel) (a1 a2 : list string) :
  Sim ok eq (log l1 a1) (log l2 a2).
Proof.
  split; [now apply Emits_log |].
  intros w1 w2 t HM _ _. split; [| reflexivity].
  now apply Mirror_silent.
Qed.

Lemma Sim_guard {A B} (R : A -> B -> Prop) (k1 : bool -> M A) (k2 : bool -> M B) :
  Sim ok R (k1 false) (k2 true) ->
  Sim ok R (bind shouldPerform k1) (bind shouldPerform k2).
Proof.
  intros [Hext Hk]. split.
  - intros w Hw. rewrite bind_run. cbn in *. rewrite Hw. cbn.
    specialize (Hext w Hw). now rewrite Hw in Hext.
  - intros w1 w2 t HM. rewrite !bind_run. cbn.
    rewrite (mirror_dry _ _ HM), (mirror_live _ _ HM). cbn.
    now apply Hk.
Qed.

Lemma Sim_isDryRun {A B} (R : A -> B -> Prop) (k1 : bool -> M A)
  (k2 : bool -> M B) :
  Sim ok R (k1 true) (k2 false) ->
  Sim ok R (bind isDryRun k1) (bind isDryRun k2).
Proof.
  intros [Hext Hk]. split.
  - intros w Hw. rewrite bind_run. cbn in *. rewrite Hw.
    specialize (Hext w Hw). now rewrite Hw in Hext.
  - intros w1 w2 t HM. rewrite !bind_run. cbn.
    rewrite (mirror_dry _ _ HM), (mirror_live _ _ HM).
    now apply Hk.
Qed.

Lemma Sim_getStore {A B} (R : A -> B -> Prop) (k1 : ZeusStore -> M A)
  (k2 : ZeusStore -> M B) :
  (forall s, Sim ok R (k1 s) (k2 s)) ->
  Sim ok R (bind getStore k1) (bind getStore k2).
Proof.
  intros Hk. split.
  - apply Emits_bind; [apply Emits_getStore |]. intros s. apply Hk.
  - intros w1 w2 t HM. rewrite !bind_run. cbn.
    rewrite (mirror_store _ _ HM). now apply Hk.
Qed.

Lemma Sim_getTrace {A B} (R : A -> B -> Prop) (k1 : list Event -> M A)
  (k2 : list Event -> M B) :
  (forall t1 t2, DryRun.steps t1 = DryRun.steps t2 -> Sim ok R (k1 t1) (k2 t2)) ->
  Sim ok R (bind getTrace k1) (bind getTrace k2).
Proof.
  intros Hk. split.
  - apply Emits_bind; [apply Emits_getTrace |]. intros t.
    now apply (Hk t t).
  - intros w1 w2 t HM. rewrite !bind_run. cbn.
    now apply Hk; [apply HM |].
Qed.

Lemma Sim_setDownloadCache (key : string) (p : Promise string) :
  Sim ok eq (setDownloadCache key p) (setDownloadCache key p).
Proof.
  split; [apply Emits_setDownloadCache |].
  intros w1 w2 t [Hd Hl Hs Ht] _ _. split; [| reflexivity].
  split; cbn; auto. now rewrite Hs.
Qed.

Lemma Sim_setFileListCache (key : string) (p : Promise (list Artifact)) :
  Sim ok eq (setFileListCache key p) (setFileListCache key p).
Proof.
  split; [apply Emits_setFileListCache |].
  intros w1 w2 t [Hd Hl Hs Ht] _ _. split; [| reflexivity].
  split; cbn; auto. now rewrite Hs.
Qed.

Lemma Sim_call {A} (m1 m2 : M A) : Sim ok eq m1 m2 -> Sim ok eq (call m1) (call m2).
Proof.
  intros [Hext Hm]. split; [now apply Emits_call |].
  intros w1 w2 t HM Ht Hok. unfold call in *.
  specialize (Hm w1 w2 t HM).
  destruct (m2 w2) as [q w2'], (m1 w1) as [p w1']; cbn [fst snd] in *.
  destruct (Hm Ht Hok) as [HM' HR]. split; [assumption |].
  apply sameOutcome_eq in HR. now subst.
Qed.

Lemma Sim_mapM {X A} (f1 f2 : X -> M A) (l : list X) :
  (forall x, Sim ok eq (f1 x) (f2 x)) -> Sim ok eq (mapM f1 l) (mapM f2 l).
Proof.
  intros Hf. induction l as [| x l IH]; cbn [mapM].
  - now apply Sim_ret.
  - apply Sim_bind_eq; [apply Hf |]. intros y.
    apply Sim_bind_eq; [apply IH |]. intros ys. now apply Sim_ret.
Qed.

(** A guarded operation: the dry run adds only log lines; the live run adds
    log lines and guarded calls, and succeeds when those calls do. *)
Lemma Sim_guarded {A B} (R : A -> B -> Prop) (m1 : M A) (m2 : M B) (a : A) :
  (forall w, exists t,
      m1 w = (Resolved a, withTrace w (trace w ++ t)) /\ DryRun.steps t = []) ->
  (forall w, exists t,
      snd (m2 w) = withTrace w (trace w ++ t) /\ DryRun.steps t = [] /\
      (Forall ok t -> exists b, fst (m2 w) = Resolved b /\ R a b)) ->
  Sim ok R m1 m2.
Proof.
  intros H1 H2. split.
  - intros w _. destruct (H2 w) as (t & Hw & _). rewrite Hw. cbn.
    split; [reflexivity |]. exists t. split; [reflexivity |].
    apply Forall_forall. now intros.
  - intros w1 w2 t HM Ht Hok.
    destruct (H1 w1) as (t1 & Hm1 & Hs1).
    destruct (H2 w2) as (t2 & Hm2 & Hs2 & Hres).
    rewrite Hm1. cbn [fst snd].
    rewrite Hm2 in Ht. cbn in Ht. apply app_inv_head in Ht. subst t2.
    destruct (Hres Hok) as (b & Hb & HR). rewrite Hm2, Hb.
    split; [now apply Mirror_silent | exact HR].
Qed.

End SimRules.

Lemma calls_steps (kind : Event -> bool) (t : list Event) :
  (forall e, kind e = true -> DryRun.isStep e = true) ->
  calls kind (DryRun.steps t) = calls kind t.
Proof.
  intros Hk. unfold calls, DryRun.steps.
  induction t as [| e t IH]; [reflexivity |]. cbn.
  destruct (kind e) eqn:He.
  - rewrite (Hk e He). cbn. rewrite He. cbn. now rewrite IH.
  - destruct (DryRun.isStep e); cbn; rewrite ?He; exact IH.
Qed.

Lemma calls_of_steps (kind : Event -> bool) (t1 t2 : list Event) :
  (forall e, kind e = true -> DryRun.isStep e = true) ->
  DryRun.steps t1 = DryRun.steps t2 ->
  calls kind t1 = calls kind t2.
Proof.
  intros Hk Hs. rewrite <- (calls_steps kind t1), <- (calls_steps kind t2), Hs;
    auto.
Qed.

(** Syntax-directed proof of a [Sim] judgement between two runs of the same
    code; it stops at the guarded operations. *)
Ltac sim_calls :=
  apply calls_of_steps; [intros []; cbn; congruence | assumption].

Ltac sim_step :=
  lazymatch goal with
  | |- Sim _ _ (bind shouldPerform _) (bind shouldPerform _) =>
      apply Sim_guard; cbv beta iota
  | |- Sim _ _ (bind isDryRun _) (bind isDryRun _) =>
      apply Sim_isDryRun; cbv beta iota
  | |- Sim _ _ (bind getStore _) (bind getStore _) =>
      apply Sim_getStore; intros ?
  | |- Sim _ _ (bind getTrace _) (bind getTrace _) =>
      apply Sim_getTrace; intros ? ? ?
  | |- Sim _ _ (bind _ _) (bind _ _) => apply Sim_bind_eq; [| intros ?]
  | |- Sim _ _ (tryCatch _ _) (tryCatch _ _) =>
      apply Sim_tryCatch; [| intros ?]
  | |- Sim _ _ (ret _) (ret _) =>
      apply Sim_ret; first [reflexivity | f_equal; sim_calls]
  | |- Sim _ _ (throw _) (throw _) => apply Sim_throw
  | |- Sim _ _ (await _) (await _) =>
      apply Sim_await; apply sameOutcome_eq;
      first [reflexivity | f_equal; sim_calls]
  | |- Sim _ _ (log _ _) (log _ _) => apply Sim_log
  | |- Sim _ _ (emit _) (emit _) => apply Sim_emit; reflexivity
  | |- Sim _ _ (setDownloadCache _ _) (setDownloadCache _ _) =>
      apply Sim_setDownloadCache
  | |- Sim _ _ (setFileListCache _ _) (setFileListCache _ _) =>
      apply Sim_setFileListCache
  | |- Sim _ _ (call _) (call _) => apply Sim_call
  | |- Sim _ _ (mapM _ _) (mapM _ _) => apply Sim_mapM; intros ?
  | |- Sim _ _ (if ?c then _ else _) (if ?c then _ else _) => destruct c
  | |- Sim _ _ (match ?x with _ => _ end) (match ?x with _ => _ end) =>
      destruct x
  end.

Ltac sim := repeat sim_step.

Section SimRelease.

Context (env : Env) (gh : Github).

Let ok := DryRun.succeeds env gh.
Let git := simpleGit env (configFileDir env).

Lemma Sim_checkChangelog (newVersion : string) (policy path : option string) :
  Sim ok eq (Release.checkChangelog env newVersion policy path)
    (Release.checkChangelog env newVersion policy path).
Proof. unfold Release.checkChangelog. sim. Qed.

Lemma Sim_getGithubClient (token : string) :
  Sim ok eq (GithubApi.getGithubClient env token)
    (GithubApi.getGithubClient env token).
Proof. unfold GithubApi.getGithubClient. sim. Qed.

Lemma Sim_getDefaultBranch (github : Github) (owner repo : string) :
  Sim ok eq (GithubApi.getDefaultBranch env github owner repo)
    (GithubApi.getDefaultBranch env github owner repo).
Proof. unfold GithubApi.getDefaultBranch. sim. Qed.

Lemma Sim_gitStatus : Sim ok eq (Release.gitStatus git) (Release.gitStatus git).
Proof. unfold Release.gitStatus. sim. Qed.

Lemma Sim_checkGitState (defaultBranch : string) (enabled : bool) :
  Sim ok eq (Release.checkGitState git defaultBranch enabled)
    (Release.checkGitState git defaultBranch enabled).
Proof.
  unfold Release.checkGitState, Release.gitCheckIsRepo, Errors.reportError.
  sim_step; [sim | ].
  sim_step; [sim |]. sim_step; [sim |]. sim_step; [sim |].
  sim_step; [apply Sim_gitStatus |]. sim.
Qed.

(** The guarded operations of the release command. *)

Lemma Sim_checkout (branch : string) (l l' : LogLevel) (a a' : list string) :
  Sim ok eq (log l a)
    (bind (Release.gitCheckoutLocalBranch git branch) (fun _ => log l' a')).
Proof.
  apply Sim_guarded with (a := tt).
  - intros w. exists [Log l a]. split; reflexivity.
  - intros w. unfold Release.gitCheckoutLocalBranch.
    rewrite !bind_run. cbn -[String.append].
    destruct (git_checkoutLocalBranch git branch) as [[] | e] eqn:Hco;
      cbn -[String.append].
    + exists [GitCheckoutLocalBranch branch; Log l' a'].
      rewrite <- app_assoc. repeat split. eauto.
    + exists [GitCheckoutLocalBranch branch]. repeat split.
      intros Hok. apply Forall_inv in Hok. cbn in Hok.
      subst git. congruence.
Qed.

Lemma Sim_commit (msg : string) (all : bool) (l : LogLevel) (a : list string) :
  Sim ok eq (log l a) (Release.gitCommit git msg all).
Proof.
  apply Sim_guarded with (a := tt).
  - intros w. exists [Log l a]. split; reflexivity.
  - intros w. unfold Release.gitCommit. rewrite !bind_run. cbn.
    exists [GitCommit msg all]. repeat split.
    intros Hok. apply Forall_inv in Hok. cbn in Hok. subst git.
    rewrite Hok. eauto.
Qed.

Lemma Sim_push (remote branch : string) (up : bool) (l : LogLevel)
  (a : list string) :
  Sim ok eq (log l a) (Release.gitPush git remote branch up).
Proof.
  apply Sim_guarded with (a := tt).
  - intros w. exists [Log l a]. split; reflexivity.
  - intros w. unfold Release.gitPush. rewrite !bind_run. cbn.
    exists [GitPush remote branch up]. repeat split.
    intros Hok. apply Forall_inv in Hok. cbn in Hok. subst git.
    rewrite Hok. eauto.
Qed.

Lemma Sim_spawnProcess (command : option string) (args : list string)
  (processEnvironment : gmap string string) :
  Sim ok eq (System.spawnProcess env command args processEnvironment)
    (System.spawnProcess env command args processEnvironment).
Proof.
  unfold System.spawnProcess. sim_step.
  apply Sim_guarded with (a := tt).
  - intros w. eexists [_]. split; reflexivity.
  - intros w. rewrite !bind_run. cbn.
    exists [SpawnProcess command args processEnvironment]. repeat split.
    intros Hok. apply Forall_inv in Hok. cbn in Hok. rewrite Hok. eauto.
Qed.

Lemma Sim_sleep (ms : Z) (l : LogLevel) (a : list string) :
  Sim ok eq (log l a) (System.sleepAsync ms).
Proof.
  apply Sim_guarded with (a := tt).
  - intros w. exists [Log l a]. split; reflexivity.
  - intros w. exists [SleepAsync ms]. repeat split. eauto.
Qed.

Lemma Sim_createReleaseBranch (newVersion : string) :
  Sim ok eq (Release.createReleaseBranch git newVersion)
    (Release.createReleaseBranch git newVersion).
Proof.
  unfold Release.createReleaseBranch, Release.gitRevparse, Errors.reportError.
  cbv zeta. sim_step; [sim |]. sim_step; [sim |].
  sim_step. sim_step; [apply Sim_checkout | sim].
Qed.

Lemma Sim_runPreReleaseCommand (newVersion : string)
  (preReleaseCommand : option string) :
  Sim ok eq (Release.runPreReleaseCommand env newVersion preReleaseCommand)
    (Release.runPreReleaseCommand env newVersion preReleaseCommand).
Proof.
  unfold Release.runPreReleaseCommand.
  destruct preReleaseCommand as [cmd |].
  - destruct (String.eqb_spec cmd "") as [-> | Hne].
    + sim.
    + destruct cmd as [| c cmd]; [contradiction |].
      destruct (shellQuoteParse env (String c cmd)); cbv zeta beta iota;
        (sim_step; [sim | apply Sim_spawnProcess]).
  - cbv zeta beta iota. sim_step; [sim | apply Sim_spawnProcess].
Qed.

Lemma Sim_commitNewVersion (newVersion : string) :
  Sim ok eq (Release.commitNewVersion git newVersion)
    (Release.commitNewVersion git newVersion).
Proof.
  unfold Release.commitNewVersion, Errors.reportError. cbv zeta.
  sim_step; [apply Sim_gitStatus |]. sim_step; [sim |].
  sim_step; [sim |]. sim_step. apply Sim_commit.
Qed.

Lemma Sim_pushReleaseBranch (branchName : string) (pushFlag : bool) :
  Sim ok eq (Release.pushReleaseBranch git branchName pushFlag)
    (Release.pushReleaseBranch git branchName pushFlag).
Proof.
  unfold Release.pushReleaseBranch. destruct pushFlag; [| sim].
  sim_step; [sim |]. sim_step. apply Sim_push.
Qed.

Lemma Sim_execPublish (newVersion : string) :
  Sim ok eq (Release.execPublish env newVersion)
    (Release.execPublish env newVersion).
Proof.
  unfold Release.execPublish, Release.publishMain, Release.processExit.
  cbv zeta. sim_step; [sim |]. sim_step; [sim |].
  sim_step. sim_step; [apply Sim_sleep |]. sim.
Qed.

Lemma Sim_release (argv : Release.ReleaseOptions) :
  Sim ok eq (Release.release env argv) (Release.release env argv).
Proof.
  unfold Release.release. cbv zeta.
  sim_step; [sim |]. sim_step; [sim |].
  sim_step; [apply Sim_checkChangelog |].
  sim_step; [apply Sim_getGithubClient |].
  sim_step; [apply Sim_getDefaultBranch |].
  sim_step; [apply Sim_checkGitState |].
  sim_step; [sim |].
  sim_step; [apply Sim_createReleaseBranch |].
  sim_step; [apply Sim_runPreReleaseCommand |].
  sim_step; [apply Sim_commitNewVersion |].
  sim_step; [apply Sim_pushReleaseBranch |].
  destruct (Release.publish argv); [apply Sim_execPublish | sim].
Qed.

Lemma Sim_handler (argv : Release.ReleaseOptions) :
  Sim ok eq (Release.handler env argv) (Release.handler env argv).
Proof.
  unfold Release.handler. sim_step.
  apply Sim_bind_eq.
  - apply Sim_guarded with (a := tt).
    + intros w. eexists [_]. split; reflexivity.
    + intros w. exists []. rewrite app_nil_r. repeat split.
      * now destruct w.
      * eauto.
  - intros _. sim_step; [apply Sim_release | sim].
Qed.

End SimRelease.

Section SimPublish.

Context (env : Env) (this : GithubTarget.GithubTarget).

Let ok := DryRun.succeeds env (GithubTarget.github this).

Lemma Sim_listArtifactsForRevision (revision : string) :
  Sim ok eq (Zeus.listArtifactsForRevision revision)
    (Zeus.listArtifactsForRevision revision).
Proof.
  unfold Zeus.listArtifactsForRevision, Zeus.clientListArtifactsForRevision.
  sim.
Qed.

Lemma Sim_filterArtifactsForRevision (revision : string)
  (filterOptions : option FilterOptions) :
  Sim ok eq (Zeus.filterArtifactsForRevision revision filterOptions)
    (Zeus.filterArtifactsForRevision revision filterOptions).
Proof.
  unfold Zeus.filterArtifactsForRevision.
  sim_step; [apply Sim_listArtifactsForRevision |]. sim.
Qed.

Lemma Sim_downloadArtifact (artifact : Artifact) :
  Sim ok eq (Zeus.downloadArtifact artifact) (Zeus.downloadArtifact artifact).
Proof.
  unfold Zeus.downloadArtifact, Zeus.clientDownloadArtifact. sim.
Qed.

Lemma Sim_getFile (github : Github) (owner repo path ref : string) :
  Sim ok eq (GithubApi.getFile env github owner repo path ref)
    (GithubApi.getFile env github owner repo path ref).
Proof. unfold GithubApi.getFile. sim. Qed.

Lemma Sim_createRelease (params : CreateReleaseParams) (tag : string)
  (l l' : LogLevel) (a a' : list string) :
  Sim ok (fun _ _ => True)
    (bind (log l a) (fun _ => ret (mkRelease 0 tag "")))
    (bind (log l' a')
       (fun _ =>
          bind (emit (GithubCreateRelease params))
            (fun _ => await (repos_createRelease (GithubTarget.github this)
                               params)))).
Proof.
  apply Sim_guarded with (a := mkRelease 0 tag "").
  - intros w. exists [Log l a]. split; reflexivity.
  - intros w. rewrite !bind_run. cbn.
    exists [Log l' a'; GithubCreateRelease params].
    rewrite <- app_assoc. repeat split.
    intros Hok. apply Forall_inv_tail, Forall_inv in Hok. cbn in Hok.
    destruct (repos_createRelease _ params) as [r | e]; [eauto | discriminate].
Qed.

Lemma Sim_getOrCreateRelease (tag revision : string) (isPreview : bool) :
  Sim ok (fun _ _ => True)
    (GithubTarget.getOrCreateRelease env this tag revision isPreview)
    (GithubTarget.getOrCreateRelease env this tag revision isPreview).
Proof.
  unfold GithubTarget.getOrCreateRelease.
  sim_step; [sim |]. destruct a as [data |].
  - now apply Sim_ret.
  - sim_step; [apply Sim_getFile |]. cbv zeta. sim_step.
    apply Sim_createRelease.
Qed.

Lemma Sim_upload (params : UploadAssetParams) (l : LogLevel) (a : list string) :
  Sim ok eq (log l a)
    (bind (emit (GithubUploadAsset params))
       (fun _ => await (repos_uploadAsset (GithubTarget.github this) params))).
Proof.
  apply Sim_guarded with (a := tt).
  - intros w. exists [Log l a]. split; reflexivity.
  - intros w. rewrite !bind_run. cbn.
    exists [GithubUploadAsset params]. repeat split.
    intros Hok. apply Forall_inv in Hok. cbn in Hok. rewrite Hok. eauto.
Qed.

(** The upload of an artifact does not depend, in its steps and outcome, on
    the release it is attached to. *)
Lemma Sim_uploadArtifact (release1 release2 : GithubRelease)
  (artifact : Artifact) (path : string) :
  Sim ok eq (GithubTarget.uploadArtifact env this release1 artifact path)
    (GithubTarget.uploadArtifact env this release2 artifact path).
Proof.
  unfold GithubTarget.uploadArtifact.
  sim_step; [sim |]. sim_step; [sim |]. cbv zeta.
  sim_step; [sim |]. sim_step. apply Sim_upload.
Qed.

Lemma Sim_publish (version revision : string) :
  Sim ok eq (GithubTarget.publish env this version revision)
    (GithubTarget.publish env this version revision).
Proof.
  unfold GithubTarget.publish, Base.getArtifactsForRevision, promiseAllMap.
  cbv zeta. sim_step; [sim |]. sim_step; [sim |].
  apply (Sim_bind ok (fun _ _ => True)).
  - apply Sim_getOrCreateRelease.
  - intros b. now exists b.
  - intros release1 release2 _.
    sim_step; [apply Sim_filterArtifactsForRevision |].
    sim_step; [| sim].
    sim_step.
    + sim_step. sim_step. apply Sim_downloadArtifact.
    + sim_step; [| sim]. sim_step. sim_step.
      sim_step; [sim |]. apply Sim_uploadArtifact.
Qed.

End SimPublish.

(** ** Dry-run *)

(** Under dry-run the release command performs no guarded call. *)
Lemma handler_dry_quiet (env : Env) (argv : Release.ReleaseOptions) :
  Emits (Some true) (fun e => DryRun.guarded e = false) (Release.handler env argv).
Proof.
  unfold Release.handler, Release.release, Release.checkChangelog,
    GithubApi.getGithubClient, GithubApi.getDefaultBranch,
    Release.checkGitState, Release.createReleaseBranch,
    Release.runPreReleaseCommand, Release.commitNewVersion,
    Release.pushReleaseBranch, Release.execPublish, Release.publishMain,
    Release.processExit, Release.gitCheckIsRepo, Release.gitStatus,
    Release.gitRevparse, System.spawnProcess, Errors.reportError.
  cbv zeta. emits.
Qed.

(** Under dry-run the GitHub target performs no guarded call. *)
Lemma publish_dry_quiet (env : Env) (this : GithubTarget.GithubTarget)
  (version revision : string) :
  Emits (Some true) (fun e => DryRun.guarded e = false)
    (GithubTarget.publish env this version revision).
Proof.
  unfold GithubTarget.publish, GithubTarget.getOrCreateRelease,
    GithubApi.getFile, Base.getArtifactsForRevision,
    Zeus.filterArtifactsForRevision, Zeus.listArtifactsForRevision,
    Zeus.clientListArtifactsForRevision, promiseAllMap,
    Zeus.downloadArtifact, Zeus.clientDownloadArtifact,
    GithubTarget.uploadArtifact.
  cbv zeta. emits.
Qed.

Lemma Emits_performsNothing {A} (m : M A) (w : World) :
  Emits (Some true) (fun e => DryRun.guarded e = false) m ->
  DryRun.performsNothing m (DryRun.withDryRun true w).
Proof.
  intros Hm.
  destruct (Hm (DryRun.withDryRun true w) eq_refl) as (_ & t & Ht & HP).
  exists t. repeat split; [exact Ht | | exact HP].
  eapply List.Forall_impl; [| exact HP].
  intros e He. unfold DryRun.guarded in He.
  now apply orb_false_iff in He.
Qed.

Lemma Sim_mirrors {A} (env : Env) (gh : Github) (m : M A) (w : World) :
  Sim (DryRun.succeeds env gh) eq m m -> DryRun.mirrors env gh m w.
Proof.
  intros [_ Hm] t Ht Hok.
  assert (Mirror (DryRun.withDryRun true w) (DryRun.withDryRun false w)) as HM.
  { now split. }
  destruct (Hm _ _ t HM Ht Hok) as [[_ _ Hs Hst] HR].
  apply sameOutcome_eq in HR. rewrite HR.
  repeat split; auto.
Qed.

Lemma pushReleaseBranch_dry (git : SimpleGit) (branchName : string) (w : World) :
  dryRun w = true ->
  Release.pushReleaseBranch git branchName true w =
  (Resolved tt,
   withTrace w
     (trace w ++
      [Log LInfo ["Pushing the release branch " +:+ quoted branchName +:+ "..."];
       Log LInfo ["[dry-run] Not pushing the release branch."]])).
Proof.
  intros Hdry. unfold Release.pushReleaseBranch.
  rewrite !bind_run. unfold log, emit, shouldPerform, withTrace.
  cbn -[String.append]. rewrite Hdry. cbn -[String.append].
  now rewrite <- app_assoc.
Qed.

Lemma uploadArtifact_dry (env : Env) (this : GithubTarget.GithubTarget)
  (release : GithubRelease) (artifact : Artifact) (path : string) (size : Z)
  (w : World) :
  dryRun w = true ->
  statSyncSize env path = Resolved size ->
  GithubTarget.uploadArtifact env this release artifact path w =
  (Resolved tt,
   withTrace w
     (trace w ++
      [FsStat path;
       Log LInfo ["Uploading asset " +:+ quoted (pathBasename env path) +:+
                  " to " +:+ GithubTarget.owner (GithubTarget.githubConfig this)
                  +:+ "/" +:+ GithubTarget.repo (GithubTarget.githubConfig this)
                  +:+ ":" +:+ tag_name release];
       Log LInfo ["[dry-run] Not uploading asset " +:+
                  quoted (pathBasename env path)]])).
Proof.
  intros Hdry Hstat. unfold GithubTarget.uploadArtifact.
  rewrite !bind_run. unfold log, emit, await, shouldPerform, withTrace.
  cbn -[String.append]. rewrite Hstat. cbn -[String.append].
  rewrite Hdry. cbn -[String.append]. now rewrite <- !app_assoc.
Qed.

(** Under dry-run, when GitHub has no release for the tag, the target logs
    that it creates none and returns the zero-valued release. *)
Lemma getOrCreateRelease_dry (env : Env) (this : GithubTarget.GithubTarget)
  (tag revision : string) (isPreview : bool) (w : World) (e : JsError) :
  let cfg := GithubTarget.githubConfig this in
  let path :=
    orElse (default "" (GithubTarget.changelog cfg))
      GithubTarget.DEFAULT_CHANGELOG_PATH in
  dryRun w = true ->
  repos_getReleaseByTag (GithubTarget.github this) (GithubTarget.owner cfg)
    (GithubTarget.repo cfg) tag = Rejected e ->
  code e = Some 404%Z ->
  (forall e',
     repos_getContent (GithubTarget.github this) (GithubTarget.owner cfg) path
       revision (GithubTarget.repo cfg) = Rejected e' ->
     code e' = Some 404%Z) ->
  GithubTarget.getOrCreateRelease env this tag revision isPreview w =
  (Resolved (mkRelease 0 tag ""),
   withTrace w
     (trace w ++
      [GithubGetReleaseByTag (GithubTarget.owner cfg) (GithubTarget.repo cfg) tag;
       GithubGetContent (GithubTarget.owner cfg) path revision
         (GithubTarget.repo cfg);
       Log LInfo ["[dry-run] Not creating a new " +:+
                  GithubTarget.previewNote isPreview +:+ "release for tag " +:+
                  quoted tag]])).
Proof.
  intros cfg path Hdry Hget H404 Hcontent.
  unfold GithubTarget.getOrCreateRelease, GithubApi.getFile.
  fold cfg. fold path.
  rewrite bind_run, tryCatch_run, !bind_run.
  unfold emit, await, withTrace. cbn -[String.append path].
  rewrite Hget. cbn -[String.append path].
  destruct (decide (code e = Some 404%Z)) as [_ | Hn]; [| contradiction].
  cbn -[String.append path].
  rewrite !bind_run, tryCatch_run, !bind_run. cbn -[String.append path].
  destruct (repos_getContent _ _ path _ _) as [content | e'] eqn:Hc;
    cbn -[String.append path].
  - rewrite Hdry. cbn -[String.append path]. now rewrite <- !app_assoc.
  - specialize (Hcontent e' eq_refl).
    destruct (decide (code e' = Some 404%Z)) as [_ | Hn]; [| contradiction].
    cbn -[String.append path]. rewrite Hdry. cbn -[String.append path].
    now rewrite <- !app_assoc.
Qed.

(** C1, as amended: under dry-run neither the release command nor the GitHub
    target performs a guarded call -- no checkout, commit, push, release
    creation or asset upload, and no child process or sleep; the branch
    creation, the commit, the push, the asset upload and the release creation
    log their intent and succeed, and
    [getOrCreateRelease] returns the zero-valued release for the tag when
    GitHub has no release for it, while an existing release is returned as it
    is found, in either mode; and when every guarded call of the live run
    succeeds, the dry run and the live run from the same state, given the same
    answers of the collaborators, take the same steps, leave the same store
    and end alike. *)
Theorem dry_run_mirrors_live (env : Env) (argv : Release.ReleaseOptions)
  (this : GithubTarget.GithubTarget) (version revision tag : string)
  (isPreview : bool) (w : World) :
  let gh := GithubTarget.github this in
  let cfg := GithubTarget.githubConfig this in
  let git := simpleGit env (configFileDir env) in
  let dry := DryRun.withDryRun true w in
  (DryRun.performsNothing (Release.handler env argv) dry
   /\ DryRun.performsNothing
        (GithubTarget.publish env this version revision) dry)
  /\ (forall newVersion,
        ReleaseSpec.branchUnknown git ("release/" +:+ newVersion) ->
        Release.createReleaseBranch git newVersion dry =
        (Resolved ("release/" +:+ newVersion),
         withTrace dry
           (trace w ++
            [GitRevparse ["release/" +:+ newVersion];
             Log LInfo ["[dry-run] Not creating a new release branch"]])))
  /\ (forall newVersion st,
        git_status git (calls isGitStatus (trace w)) = Resolved st ->
        created st <> [] \/ modified st <> [] ->
        Release.commitNewVersion git newVersion dry =
        (Resolved tt,
         withTrace dry
           (trace w ++
            [GitStatus; Log LInfo ["Committing the release changes..."];
             Log LInfo ["[dry-run] Not committing the changes."]])))
  /\ (forall branchName,
        Release.pushReleaseBranch git branchName true dry =
        (Resolved tt,
         withTrace dry
           (trace w ++
            [Log LInfo ["Pushing the release branch " +:+ quoted branchName
                        +:+ "..."];
             Log LInfo ["[dry-run] Not pushing the release branch."]])))
  /\ (forall release artifact path size,
        statSyncSize env path = Resolved size ->
        fst (GithubTarget.uploadArtifact env this release artifact path dry) =
          Resolved tt
        /\ In (Log LInfo ["[dry-run] Not uploading asset " +:+
                          quoted (pathBasename env path)])
             (trace (snd (GithubTarget.uploadArtifact env this release artifact
                            path dry))))
  /\ (forall e,
        repos_getReleaseByTag gh (GithubTarget.owner cfg)
          (GithubTarget.repo cfg) tag = Rejected e ->
        code e = Some 404%Z ->
        (forall e',
           repos_getContent gh (GithubTarget.owner cfg)
             (orElse (default "" (GithubTarget.changelog cfg))
                GithubTarget.DEFAULT_CHANGELOG_PATH)
             revision (GithubTarget.repo cfg) = Rejected e' ->
           code e' = Some 404%Z) ->
        fst (GithubTarget.getOrCreateRelease env this tag revision isPreview
               dry) = Resolved (mkRelease 0 tag "")
        /\ In (Log LInfo ["[dry-run] Not creating a new " +:+
                          GithubTarget.previewNote isPreview +:+
                          "release for tag " +:+ quoted tag])
             (trace (snd (GithubTarget.getOrCreateRelease env this tag revision
                            isPreview dry))))
  /\ (forall found,
        repos_getReleaseByTag gh (GithubTarget.owner cfg)
          (GithubTarget.repo cfg) tag = Resolved found ->
        fst (GithubTarget.getOrCreateRelease env this tag revision isPreview w)
          = Resolved found)
  /\ DryRun.mirrors env gh (Release.release env argv) w
  /\ DryRun.mirrors env gh (Release.handler env argv) w
  /\ DryRun.mirrors env gh (GithubTarget.publish env this version revision) w.
Proof.
  intros gh cfg git dry.
  split; [split |].
  { apply Emits_performsNothing, handler_dry_quiet. }
  { apply Emits_performsNothing, publish_dry_quiet. }
  split.
  { intros newVersion Hun.
    now rewrite (createReleaseBranch_unknown _ _ _ Hun). }
  split.
  { intros newVersion st Hst Hcm.
    rewrite (commitNewVersion_run _ _ _ st) by exact Hst.
    assert (lengthTruthy (created st) || lengthTruthy (modified st) = true)
      as ->; [| reflexivity].
    rewrite orb_true_iff, !lengthTruthy_true. exact Hcm. }
  split.
  { intros branchName. now rewrite pushReleaseBranch_dry. }
  split.
  { intros release artifact path size Hstat.
    rewrite (uploadArtifact_dry _ _ _ _ _ size) by (reflexivity || assumption).
    split; [reflexivity |]. cbn [snd withTrace trace].
    apply in_or_app. right. cbn. auto. }
  split.
  { intros e Hget H404 Hcontent.
    rewrite (getOrCreateRelease_dry _ _ _ _ _ _ e)
      by (reflexivity || assumption).
    split; [reflexivity |]. cbn [snd withTrace trace].
    apply in_or_app. right. cbn. auto. }
  split.
  { intros found Hget. unfold GithubTarget.getOrCreateRelease.
    rewrite bind_run, tryCatch_run, !bind_run.
    unfold emit, await. cbn -[String.append]. fold gh cfg.
    now rewrite Hget. }
  split; [| split].
  - apply Sim_mirrors, Sim_release.
  - apply Sim_mirrors, Sim_handler.
  - apply Sim_mirrors, Sim_publish.
Qed.

(** Version 1.2.0 on the sample repository, every guarded call succeeding:
    the live run checks out, runs the hook, commits and pushes; the dry run
    takes the same steps and both succeed. *)
Lemma dry_run_mirrors_live_witness :
  let env := SampleRun.env (Resolved tt) in
  let m := Release.release env SampleRelease.argv in
  let live := DryRun.withDryRun false SampleRun.start in
  let dry := DryRun.withDryRun true SampleRun.start in
  (DryRun.added m live (trace (snd (m live)))
   /\ Forall (DryRun.succeeds env SampleRun.github) (trace (snd (m live))))
  /\ In (GitPush "origin" "release/1.2.0" true) (trace (snd (m live)))
  /\ fst (m live) = Resolved tt
  /\ DryRun.steps (trace (snd (m dry))) = DryRun.steps (trace (snd (m live)))
  /\ isResolved (fst (m dry)) = isResolved (fst (m live)).
Proof.
  intros env m live dry.
  assert (DryRun.added m live (trace (snd (m live)))) as Hadded
    by reflexivity.
  assert (Forall (DryRun.succeeds env SampleRun.github) (trace (snd (m live))))
    as Hok.
  { vm_compute. repeat constructor. }
  split; [now split |].
  split; [vm_compute; tauto |]. split; [reflexivity |].
  destruct (dry_run_mirrors_live env SampleRelease.argv
              (SampleRelease.githubTarget SampleRun.github) "1.2.0" "abc123"
              "1.2.0" false SampleRun.start)
    as (_ & _ & _ & _ & _ & _ & _ & Hrelease & _).
  destruct (Hrelease _ Hadded Hok) as (Hsteps & _ & Hres & _).
  now split.
Defined.

(** The terminal states differ when a state-changing call of the live run
    fails: with the same repository, configuration and answers, the live run
    is rejected by the failing [git push] while the dry run, which does not
    push, ends with the success message. *)
Lemma dry_run_counterexample :
  let env := SampleRun.env (Rejected Sample.networkDown) in
  let m := Release.release env SampleRelease.argv in
  fst (m (DryRun.withDryRun true SampleRun.start)) = Resolved tt
  /\ fst (m (DryRun.withDryRun false SampleRun.start)) =
       Rejected Sample.networkDown
  /\ last (trace (snd (Release.handler env SampleRelease.argv
                         (DryRun.withDryRun false SampleRun.start)))) =
       Some (Log LError ["connect ETIMEDOUT"])
  /\ last (trace (snd (Release.handler env SampleRelease.argv
                         (DryRun.withDryRun true SampleRun.start)))) =
     Some (Log LSuccess
             ["Done. Do not forget to run " +:+ quoted "craft publish" +:+
              " to publish the artifacts:"; "  $ craft publish 1.2.0"]).
Proof.
  cbv zeta. repeat split; vm_compute; reflexivity.
Qed.

(** Under dry-run a release that GitHub already has is returned as found,
    not as the zero-valued release. *)
Example getOrCreateRelease_returns_existing :
  fst (GithubTarget.getOrCreateRelease
         (SampleRun.env (Resolved tt))
         (SampleRelease.githubTarget SampleRelease.octokitWithRelease)
         "1.2.0" "abc123" false
         (DryRun.withDryRun true SampleRun.start)) =
  Resolved (mkRelease 7 "1.2.0" "https://uploads.github.com/7").
Proof. reflexivity. Qed.

(** * Further properties *)

(** ** The artifact store: listings *)

Lemma Keeps_refl (w : World) : Keeps w w.
Proof.
  split; auto. exists []. now rewrite app_nil_r.
Qed.

Lemma Keeps_trans (w1 w2 w3 : World) :
  Keeps w1 w2 -> Keeps w2 w3 -> Keeps w1 w3.
Proof.
  intros [C1 O1 N1 D1 [t1 T1] L1 K1] [C2 O2 N2 D2 [t2 T2] L2 K2].
  split; try congruence; auto.
  - exists (t1 ++ t2). now rewrite T2, T1, app_assoc.
  - intros r.
    destruct (K1 r) as [E1 | (H1 & H2 & E1)];
      destruct (K2 r) as [E2 | (H3 & H4 & E2)].
    + left. congruence.
    + right. repeat split; [| assumption | congruence].
      destruct (fileListCache (store w1) !! r) as [p |] eqn:E; [| reflexivity].
      apply L1 in E. congruence.
    + right. repeat split; [assumption | | congruence].
      destruct H2 as [p Hp]. exists p. auto.
    + destruct H2 as [p Hp]. congruence.
Qed.

Lemma listingsOf_app (r : string) (t1 t2 : list Event) :
  StoreSpec.listingsOf r (t1 ++ t2) =
  StoreSpec.listingsOf r t1 + StoreSpec.listingsOf r t2.
Proof.
  unfold StoreSpec.listingsOf. now rewrite List.filter_app, List.length_app.
Qed.

(** A step that leaves the listing cache and the fixed fields alone and
    records no listing. *)
Lemma Keeps_other (w w' : World) (t : list Event) :
  client (store w') = client (store w) ->
  repoOwner (store w') = repoOwner (store w) ->
  repoName (store w') = repoName (store w) ->
  dryRun w' = dryRun w ->
  fileListCache (store w') = fileListCache (store w) ->
  trace w' = trace w ++ t ->
  Forall (fun e => isZeusList e = false) t ->
  Keeps w w'.
Proof.
  intros Hc Ho Hn Hd Hl Ht Hno. split; auto.
  - now exists t.
  - intros r p. now rewrite Hl.
  - intros r. left. rewrite Ht, listingsOf_app.
    assert (StoreSpec.listingsOf r t = 0) as ->; [| lia].
    unfold StoreSpec.listingsOf. clear Ht.
    induction Hno as [| e t He _ IH]; [reflexivity |].
    destruct e; cbn in *; try exact IH. discriminate He.
Qed.

Lemma KeepsM_ret {A} (a : A) : KeepsM (ret a).
Proof. intros w. apply Keeps_refl. Qed.

Lemma KeepsM_await {A} (p : Promise A) : KeepsM (await p).
Proof. intros w. apply Keeps_refl. Qed.

Lemma KeepsM_bind {A B} (m : M A) (f : A -> M B) :
  KeepsM m -> (forall a, KeepsM (f a)) -> KeepsM (bind m f).
Proof.
  intros Hm Hf w. rewrite bind_run. specialize (Hm w).
  destruct (m w) as [[a | e] w']; cbn [snd] in *; [| assumption].
  eapply Keeps_trans; [eassumption | apply Hf].
Qed.

Lemma KeepsM_call {A} (m : M A) : KeepsM m -> KeepsM (call m).
Proof.
  intros Hm w. specialize (Hm w). unfold call.
  now destruct (m w) as [p w'].
Qed.

Lemma KeepsM_mapM {A B} (f : A -> M B) (l : list A) :
  (forall a, KeepsM (f a)) -> KeepsM (mapM f l).
Proof.
  intros Hf. induction l as [| x l IH]; cbn [mapM].
  - apply KeepsM_ret.
  - apply KeepsM_bind; [apply Hf |]. intros y.
    apply KeepsM_bind; [apply IH |]. intros ys. apply KeepsM_ret.
Qed.

Lemma KeepsM_downloadArtifact (artifact : Artifact) :
  KeepsM (Zeus.downloadArtifact artifact).
Proof.
  intros w.
  destruct (downloadCache (store w) !! download_url artifact) as [p |] eqn:H.
  - rewrite (downloadArtifact_hit _ _ _ H). apply Keeps_refl.
  - rewrite (downloadArtifact_miss _ _ H). cbn [snd].
    eapply Keeps_other with (t := [_]); cbn; try reflexivity.
    repeat constructor.
Qed.

Lemma KeepsM_listArtifactsForRevision (revision : string) :
  KeepsM (Zeus.listArtifactsForRevision revision).
Proof.
  intros w.
  destruct (fileListCache (store w) !! revision) as [p |] eqn:H.
  - rewrite (listArtifactsForRevision_hit _ _ _ H). apply Keeps_refl.
  - rewrite (listArtifactsForRevision_miss _ _ H). cbn [snd].
    split; cbn [trace store fileListCache withFileListCache client repoOwner
                  repoName dryRun]; auto.
    + eexists. reflexivity.
    + intros r p Hr. rewrite lookup_insert_ne; [assumption | congruence].
    + intros r. rewrite listingsOf_app.
      assert (StoreSpec.listingsOf r
                [ZeusListArtifactsForRevision (repoOwner (store w))
                   (repoName (store w)) revision] =
              if String.eqb revision r then 1 else 0) as ->.
      { unfold StoreSpec.listingsOf. cbn.
        now destruct (String.eqb revision r). }
      destruct (String.eqb_spec revision r) as [<- | Hne].
      * right. rewrite lookup_insert_eq. repeat split; eauto. lia.
      * left. lia.
Qed.

Lemma KeepsM_filterArtifactsForRevision (revision : string)
  (filterOptions : option FilterOptions) :
  KeepsM (Zeus.filterArtifactsForRevision revision filterOptions).
Proof.
  intros w. rewrite filterArtifactsForRevision_run.
  pose proof (KeepsM_listArtifactsForRevision revision w) as H.
  now destruct (Zeus.listArtifactsForRevision revision w) as [[all | e] w'].
Qed.

Lemma KeepsM_getRevision (revision : string) : KeepsM (Zeus.getRevision revision).
Proof.
  intros w. eapply Keeps_other with (t := [_]); cbn; try reflexivity.
  repeat constructor.
Qed.

Lemma KeepsM_downloadArtifacts (artifacts : list Artifact) :
  KeepsM (Zeus.downloadArtifacts artifacts).
Proof.
  apply KeepsM_bind.
  - apply KeepsM_mapM. intros a. apply KeepsM_call, KeepsM_downloadArtifact.
  - intros ps. apply KeepsM_await.
Qed.

Lemma Keeps_runOp (o : Zeus.Op) (w : World) : Keeps w (Zeus.runOp o w).
Proof.
  destruct o; cbn [Zeus.runOp].
  - apply KeepsM_downloadArtifact.
  - apply KeepsM_downloadArtifacts.
  - apply KeepsM_listArtifactsForRevision.
  - apply KeepsM_filterArtifactsForRevision.
  - apply KeepsM_getRevision.
Qed.

Lemma Keeps_runOps (os : list Zeus.Op) (w : World) : Keeps w (Zeus.runOps os w).
Proof.
  revert w. induction os as [| o os IH]; intros w; cbn.
  - apply Keeps_refl.
  - eapply Keeps_trans; [apply Keeps_runOp | apply IH].
Qed.

(** X1: the listing of a revision is memoized like a download.  Once the
    store has been asked for the listing of a revision, whatever it is asked
    afterwards, asking again returns the promise of the first call, issues no
    transport call and changes nothing, also when that promise is rejected;
    filtering the revision then works on the cached listing without a
    transport call; and in a process that starts with a new store the
    transport listing of any revision happens at most once. *)
Theorem listing_memoized (w : World) (revision : string)
  (between : list Zeus.Op) (filterOptions : option FilterOptions) :
  let first := Zeus.listArtifactsForRevision revision w in
  let w2 := Zeus.runOps between (snd first) in
  Zeus.listArtifactsForRevision revision w2 = (fst first, w2)
  /\ Zeus.filterArtifactsForRevision revision filterOptions w2 =
       (match fst first with
        | Resolved all => Resolved (applyFilter filterOptions all)
        | Rejected e => Rejected e
        end, w2)
  /\ (forall c owner repo dry os r,
        StoreSpec.listingsOf r
          (trace (Zeus.runOps os (mkWorld dry [] (newZeusStore c owner repo))))
        <= 1).
Proof.
  intros first w2.
  assert (Zeus.listArtifactsForRevision revision w2 = (fst first, w2)) as Hagain.
  { apply listArtifactsForRevision_hit.
    apply (keeps_lists _ _ (Keeps_runOps between _)).
    apply listArtifactsForRevision_cached. }
  split; [exact Hagain | split].
  - rewrite filterArtifactsForRevision_run, Hagain.
    now destruct (fst first).
  - intros c owner repo dry os r.
    pose proof (Keeps_runOps os (mkWorld dry [] (newZeusStore c owner repo)))
      as HK.
    destruct (keeps_count _ _ HK r) as [E | (_ & _ & E)]; rewrite E; cbn; lia.
Qed.

(** ** The artifact store: batches of downloads *)

Lemma promiseAll_length {A} (ps : list (Promise A)) (l : list A) :
  promiseAll ps = Resolved l -> length l = length ps.
Proof.
  revert l. induction ps as [| [a | e] ps IH]; intros l H; cbn in H.
  - now injection H as <-.
  - destruct (promiseAll ps) as [l' | e]; [| discriminate].
    injection H as <-. cbn. now rewrite (IH l' eq_refl).
  - discriminate.
Qed.

(** What one download does to the count of transport downloads of [u]. *)
Lemma downloadArtifact_count (artifact : Artifact) (w : World) (u : string) :
  Spec.downloadsOf u (trace (snd (Zeus.downloadArtifact artifact w))) =
  Spec.downloadsOf u (trace w) +
  match downloadCache (store w) !! download_url artifact with
  | Some _ => 0
  | None => if String.eqb (download_url artifact) u then 1 else 0
  end.
Proof.
  destruct (downloadCache (store w) !! download_url artifact) as [p |] eqn:H.
  - rewrite (downloadArtifact_hit _ _ _ H). cbn. lia.
  - rewrite (downloadArtifact_miss _ _ H). cbn [snd trace].
    rewrite downloadsOf_app. f_equal.
    unfold Spec.downloadsOf. cbn.
    now destruct (String.eqb (download_url artifact) u).
Qed.

Lemma downloadArtifact_other (artifact : Artifact) (w : World) (u : string) :
  u <> download_url artifact ->
  downloadCache (store (snd (Zeus.downloadArtifact artifact w))) !! u =
  downloadCache (store w) !! u.
Proof.
  intros Hne.
  destruct (downloadCache (store w) !! download_url artifact) as [p |] eqn:H.
  - now rewrite (downloadArtifact_hit _ _ _ H).
  - rewrite (downloadArtifact_miss _ _ H). cbn.
    now rewrite lookup_insert_ne by congruence.
Qed.

Lemma mapM_cons_call {X A} (f : X -> M A) (x : X) (l : list X) (w : World) :
  mapM (fun y => call (f y)) (x :: l) w =
  let (p, w1) := f x w in
  let (r, w2) := mapM (fun y => call (f y)) l w1 in
  (match r with
   | Resolved ps => Resolved (p :: ps)
   | Rejected e => Rejected e
   end, w2).
Proof.
  cbn [mapM]. rewrite bind_run. unfold call at 1.
  destruct (f x w) as [p w1]. rewrite bind_run.
  now destruct (mapM _ l w1) as [[ps | e] w2].
Qed.

Lemma downloads_started (artifacts : list Artifact) (w : World) :
  let run :=
    mapM (fun artifact => call (Zeus.downloadArtifact artifact)) artifacts w in
  exists ps,
    fst run = Resolved ps
    /\ Forall2
         (fun a p =>
            downloadCache (store (snd run)) !! download_url a = Some p)
         artifacts ps
    /\ forall u,
         (In u (map download_url artifacts) ->
          downloadCache (store w) !! u = None ->
          Spec.downloadsOf u (trace (snd run)) =
            S (Spec.downloadsOf u (trace w)))
         /\ (~ In u (map download_url artifacts) \/
             is_Some (downloadCache (store w) !! u) ->
             Spec.downloadsOf u (trace (snd run)) =
               Spec.downloadsOf u (trace w)).
Proof.
  revert w. induction artifacts as [| a l IH]; intros w run; subst run.
  - exists []. cbn. repeat split; auto. contradiction.
  - rewrite mapM_cons_call.
    pose proof (downloadArtifact_cached a w) as Hcached.
    pose proof (downloadArtifact_count a w) as Hcount.
    pose proof (downloadArtifact_other a w) as Hother.
    destruct (Zeus.downloadArtifact a w) as [p w1]. cbn [fst snd] in *.
    destruct (IH w1) as (ps & Hps & Hall & Hcnt).
    pose proof (Steps_mapM
                  (fun artifact => call (Zeus.downloadArtifact artifact)) l
                  (fun x => Steps_call _ (Steps_downloadArtifact x)) w1)
      as [Hmono _].
    destruct (mapM _ l w1) as [r w2]. cbn [fst snd] in *. subst r.
    exists (p :: ps). cbn [fst snd]. split; [reflexivity |]. split.
    + constructor; [now apply Hmono | exact Hall].
    + intros u. specialize (Hcount u). destruct (Hcnt u) as [Hnew Hold].
      destruct (String.eqb_spec (download_url a) u) as [Heq | Hne].
      * subst u. split.
        -- intros _ Hnone. rewrite Hnone in Hcount.
           rewrite Hold by (right; eauto). lia.
        -- intros [Hnot | [q Hq]]; [exfalso; apply Hnot; now left |].
           rewrite Hq in Hcount. rewrite Hold by (right; eauto). lia.
      * assert (Spec.downloadsOf u (trace w1) = Spec.downloadsOf u (trace w))
          as Hsame.
        { destruct (downloadCache (store w) !! download_url a); lia. }
        rewrite (Hother u) in * by congruence. split.
        -- intros [Hin | Hin] Hnone; [congruence |].
           rewrite Hnew by assumption. lia.
        -- intros [Hnot | Hsome].
           ++ rewrite Hold; [lia |]. left. intros Hin. apply Hnot. now right.
           ++ rewrite Hold; [lia |]. now right.
Qed.

(** X2: a batch of downloads goes through the cache artifact by artifact.
    Afterwards every artifact of the batch has its promise in the cache and
    the batch settles as [Promise.all] of these promises, so that a resolved
    batch has one path per artifact; a URL that occurs in the batch and was
    not cached is downloaded exactly once, however often it occurs, and no
    other URL is downloaded. *)
Theorem downloadArtifacts_through_cache (artifacts : list Artifact) (w : World) :
  let run := Zeus.downloadArtifacts artifacts w in
  (exists ps,
     Forall2
       (fun a p => downloadCache (store (snd run)) !! download_url a = Some p)
       artifacts ps
     /\ fst run = promiseAll ps)
  /\ (forall paths, fst run = Resolved paths -> length paths = length artifacts)
  /\ (forall u,
        In u (map download_url artifacts) ->
        downloadCache (store w) !! u = None ->
        Spec.downloadsOf u (trace (snd run)) = S (Spec.downloadsOf u (trace w)))
  /\ (forall u,
        ~ In u (map download_url artifacts) \/
        is_Some (downloadCache (store w) !! u) ->
        Spec.downloadsOf u (trace (snd run)) = Spec.downloadsOf u (trace w)).
Proof.
  intros run. subst run. unfold Zeus.downloadArtifacts. rewrite bind_run.
  destruct (downloads_started artifacts w) as (ps & Hps & Hall & Hcnt).
  destruct (mapM _ artifacts w) as [r w1]. cbn [fst snd] in *. subst r.
  unfold await. cbn [fst snd].
  split; [now exists ps |]. split; [| split].
  - intros paths Hpaths. rewrite (promiseAll_length _ _ Hpaths).
    symmetry. eapply Forall2_length, Hall.
  - intros u. apply Hcnt.
  - intros u. apply Hcnt.
Qed.

(** The wheel requested twice in one batch, on a new store: one transport
    download of its URL, two downloads in all. *)
Lemma downloadArtifacts_through_cache_witness :
  let w := Sample.start false Sample.zeusReliable in
  let batch := [Sample.whl; Sample.whl; Sample.targz] in
  (In (download_url Sample.whl) (map download_url batch)
   /\ downloadCache (store w) !! download_url Sample.whl = None)
  /\ Spec.downloadsOf (download_url Sample.whl)
       (trace (snd (Zeus.downloadArtifacts batch w))) = 1
  /\ calls isZeusDownload (trace (snd (Zeus.downloadArtifacts batch w))) = 2
  /\ fst (Zeus.downloadArtifacts batch w) =
       Resolved ["/tmp/craft/pkg-1.0.0.whl"; "/tmp/craft/pkg-1.0.0.whl";
                 "/tmp/craft/pkg-1.0.0.tar.gz"].
Proof.
  intros w batch.
  assert (In (download_url Sample.whl) (map download_url batch)) as Hin
    by (now left).
  assert (downloadCache (store w) !! download_url Sample.whl = None) as Hnone
    by reflexivity.
  split; [now split |]. split; [| split; reflexivity].
  destruct (downloadArtifacts_through_cache batch w) as (_ & _ & Hnew & _).
  exact (Hnew _ Hin Hnone).
Defined.

(** ** The artifact store: filters *)

Lemma filter_comm {A} (p q : A -> bool) (l : list A) :
  List.filter p (List.filter q l) = List.filter q (List.filter p l).
Proof.
  induction l as [| x l IH]; [reflexivity |]. cbn.
  destruct (p x) eqn:Hp, (q x) eqn:Hq; cbn; rewrite ?Hp, ?Hq, IH; reflexivity.
Qed.

Lemma filter_and {A} (p q : A -> bool) (l : list A) :
  List.filter p (List.filter q l) = List.filter (fun x => q x && p x) l.
Proof.
  induction l as [| x l IH]; [reflexivity |]. cbn.
  destruct (q x); cbn; [destruct (p x) |]; now rewrite IH.
Qed.

Lemma filter_idem {A} (p : A -> bool) (l : list A) :
  List.filter p (List.filter p l) = List.filter p l.
Proof.
  induction l as [| x l IH]; [reflexivity |]. cbn.
  destruct (p x) eqn:Hp; cbn; rewrite ?Hp, IH; reflexivity.
Qed.

(** X3: the two name filters of the store are independent of each other.
    Applying [excludeNames] before [includeNames] gives the result of the
    code's order; filtering an already filtered listing again changes nothing;
    options with neither matcher give the whole listing; and options with
    both matchers give exactly the artifacts common to the results of the
    options with one matcher each, so that adding a matcher never adds an
    artifact. *)
Theorem filter_matchers_independent (f : FilterOptions) (all : list Artifact) :
  let included a :=
    match includeNames f with
    | Some r => RegExp.test r (name a)
    | None => true
    end in
  let notExcluded a :=
    match excludeNames f with
    | Some r => negb (RegExp.test r (name a))
    | None => true
    end in
  applyFilter (Some f) all = List.filter included (List.filter notExcluded all)
  /\ applyFilter (Some f) (applyFilter (Some f) all) = applyFilter (Some f) all
  /\ applyFilter (Some (mkFilterOptions None None)) all = all
  /\ (forall a,
        In a (applyFilter (Some f) all) <->
        In a (applyFilter (Some (mkFilterOptions (includeNames f) None)) all)
        /\ In a (applyFilter (Some (mkFilterOptions None (excludeNames f))) all))
  /\ (forall revision w,
        fst (Zeus.filterArtifactsForRevision revision (Some f) w) =
        match fst (Zeus.listArtifactsForRevision revision w) with
        | Resolved listing =>
            Resolved (List.filter included (List.filter notExcluded listing))
        | Rejected e => Rejected e
        end).
Proof.
  intros included notExcluded.
  assert (forall l, applyFilter (Some f) l =
                    List.filter included (List.filter notExcluded l)) as Hcomm.
  { intros l. unfold applyFilter. apply filter_comm. }
  split; [apply Hcomm |]. split; [| split; [| split]].
  - rewrite !Hcomm.
    rewrite (filter_and included notExcluded all).
    rewrite (filter_and included notExcluded (List.filter _ all)).
    apply filter_idem.
  - unfold applyFilter. cbn. now rewrite !filter_true.
  - intros a. unfold applyFilter. cbn [includeNames excludeNames].
    rewrite !filter_true, !List.filter_In. tauto.
  - intros revision w. rewrite filterArtifactsForRevision_run.
    destruct (Zeus.listArtifactsForRevision revision w) as [[listing | e] w'];
      cbn [fst]; [| reflexivity].
    now rewrite Hcomm.
Qed.

(** ** The artifact store: what no operation does *)

Lemma Emits_runOp (o : Zeus.Op) (w : World) :
  exists t,
    trace (Zeus.runOp o w) = trace w ++ t /\
    Forall (fun e => StoreSpec.isZeusCall e = true) t.
Proof.
  assert (forall A (m : M A),
            Emits None (fun e => StoreSpec.isZeusCall e = true) m ->
            exists t, trace (snd (m w)) = trace w ++ t /\
                      Forall (fun e => StoreSpec.isZeusCall e = true) t) as H.
  { intros A m Hm. destruct (Hm w I) as (_ & t & Ht & HP). now exists t. }
  destruct o; cbn [Zeus.runOp]; apply H;
    unfold Zeus.downloadArtifacts, Zeus.filterArtifactsForRevision,
      Zeus.getRevision, Zeus.listArtifactsForRevision, Zeus.downloadArtifact,
      Zeus.clientDownloadArtifact, Zeus.clientListArtifactsForRevision,
      Zeus.clientGetRevision; emits.
Qed.

Lemma Emits_runOps (os : list Zeus.Op) (w : World) :
  exists t,
    trace (Zeus.runOps os w) = trace w ++ t /\
    Forall (fun e => StoreSpec.isZeusCall e = true) t.
Proof.
  revert w. induction os as [| o os IH]; intros w; cbn.
  - exists []. now rewrite app_nil_r.
  - destruct (Emits_runOp o w) as (t1 & H1 & P1).
    destruct (IH (Zeus.runOp o w)) as (t2 & H2 & P2).
    exists (t1 ++ t2). split; [| now apply Forall_app].
    unfold Zeus.runOps in H2. now rewrite H2, H1, app_assoc.
Qed.

(** X4: whatever sequence of operations the store runs, its client, project
    owner and project name stay the same and the dry-run flag is not touched;
    the trace only grows, and only by calls of the Zeus client -- the store
    writes no log line and calls no other collaborator; and no entry of the
    download cache or of the listing cache is ever removed or replaced. *)
Theorem store_operations_keep (os : list Zeus.Op) (w : World) :
  let w' := Zeus.runOps os w in
  client (store w') = client (store w)
  /\ repoOwner (store w') = repoOwner (store w)
  /\ repoName (store w') = repoName (store w)
  /\ dryRun w' = dryRun w
  /\ (exists t,
        trace w' = trace w ++ t /\
        Forall (fun e => StoreSpec.isZeusCall e = true) t)
  /\ (forall u p,
        downloadCache (store w) !! u = Some p ->
        downloadCache (store w') !! u = Some p)
  /\ (forall r p,
        fileListCache (store w) !! r = Some p ->
        fileListCache (store w') !! r = Some p).
Proof.
  intros w'. subst w'.
  destruct (Keeps_runOps os w) as [Hc Ho Hn Hd _ Hl _].
  repeat split; auto.
  - apply Emits_runOps.
  - apply (step_cache _ _ (StoreStep_runOps os w)).
Qed.

(** ** Targets: filters, registry, credentials *)

Lemma truthy_true (s : string) : truthy s = true <-> s <> "".
Proof.
  unfold truthy. destruct (String.eqb_spec s ""); cbn; split; congruence.
Qed.

(** X5: without a call-site default, a target gets the artifacts that its
    own configuration keeps: those matching [includeFiles], when it is
    configured and not empty, and not matching [excludeFiles], when it is
    configured and not empty; the state of the process ends as after the
    plain listing.  A target without configured filters gets the listing
    itself.  A call-site default for one key and an own matcher for the other
    key both apply. *)
Theorem own_filters_without_default
  (stringToRegexp : string -> RegExp.RegExp) (config : Base.TargetConfig)
  (revision : string) (w : World) :
  let this := Base.newBaseTarget stringToRegexp config in
  let included a :=
    match Base.configured (Base.includeFiles config) with
    | Some s => RegExp.test (stringToRegexp s) (name a)
    | None => true
    end in
  let notExcluded a :=
    match Base.configured (Base.excludeFiles config) with
    | Some s => negb (RegExp.test (stringToRegexp s) (name a))
    | None => true
    end in
  let listing := Zeus.listArtifactsForRevision revision w in
  Base.getArtifactsForRevision this revision None w =
    (match fst listing with
     | Resolved all =>
         Resolved (List.filter (fun a => included a && notExcluded a) all)
     | Rejected e => Rejected e
     end, snd listing)
  /\ (Base.configured (Base.includeFiles config) = None ->
      Base.configured (Base.excludeFiles config) = None ->
      Base.getArtifactsForRevision this revision None w = listing)
  /\ (forall r,
        Base.configured (Base.includeFiles config) = None ->
        fst (Base.getArtifactsForRevision this revision
               (Some (mkFilterOptions (Some r) None)) w) =
        match fst listing with
        | Resolved all =>
            Resolved
              (List.filter
                 (fun a => RegExp.test r (name a) && notExcluded a) all)
        | Rejected e => Rejected e
        end).
Proof.
  intros this included notExcluded listing. subst this listing.
  unfold Base.getArtifactsForRevision, Base.mergedFilter, Base.newBaseTarget,
    Base.spread.
  cbn [Base.filterOptions includeNames excludeNames Base.emptyFilter].
  split; [| split].
  - rewrite filterArtifactsForRevision_run.
    destruct (Zeus.listArtifactsForRevision revision w) as [[all | e] w'];
      cbn [fst snd]; [| reflexivity].
    rewrite applyFilter_kept. unfold Spec.kept.
    cbn [includeNames excludeNames]. subst included notExcluded.
    f_equal. f_equal. apply List.filter_ext. intros a.
    destruct (Base.configured (Base.includeFiles config)),
      (Base.configured (Base.excludeFiles config)); reflexivity.
  - intros Hi He. rewrite Hi, He. cbn [option_map].
    rewrite filterArtifactsForRevision_run.
    destruct (Zeus.listArtifactsForRevision revision w) as [[all | e] w'];
      [| reflexivity].
    unfold applyFilter. cbn. now rewrite !filter_true.
  - intros r Hi. rewrite filterArtifactsForRevision_run.
    destruct (Zeus.listArtifactsForRevision revision w) as [[all | e] w'];
      cbn [fst snd]; [| reflexivity].
    rewrite applyFilter_kept. unfold Spec.kept.
    cbn [includeNames excludeNames]. subst notExcluded.
    f_equal. apply List.filter_ext. intros a.
    destruct (Base.configured (Base.excludeFiles config)); reflexivity.
Qed.

(** A target that excludes text files, asked by the PyPI target: the default
    expression and the own exclusion both apply. *)
Lemma own_filters_without_default_witness :
  let config := Base.mkTargetConfig (Some "") (Some "/\.gz$/") in
  let gz := RegExp.Seq (RegExp.lit ".gz") RegExp.Eos in
  let w := Sample.start false Sample.zeus in
  Base.configured (Base.includeFiles config) = None
  /\ fst (Base.getArtifactsForRevision
            (Base.newBaseTarget (fun _ => gz) config) "abc123"
            (Some (mkFilterOptions (Some Pypi.DEFAULT_PYPI_REGEX) None)) w) =
     Resolved [Sample.whl].
Proof.
  intros config gz w. split; [reflexivity |].
  destruct (own_filters_without_default (fun _ => gz) config "abc123" w)
    as (_ & _ & Hboth).
  rewrite (Hboth Pypi.DEFAULT_PYPI_REGEX eq_refl). reflexivity.
Defined.

Lemma ownProperty_In (m : list (string * TargetIndex.TargetClass))
  (key : string) (c : TargetIndex.TargetClass) :
  TargetIndex.ownProperty m key = Some c -> In key (map fst m).
Proof.
  induction m as [| [k c'] m IH]; cbn; [discriminate |].
  destruct (String.eqb_spec k key); auto.
Qed.

Lemma ownProperty_None (m : list (string * TargetIndex.TargetClass))
  (key : string) :
  TargetIndex.ownProperty m key = None -> ~ In key (map fst m).
Proof.
  induction m as [| [k c'] m IH]; cbn; [tauto |].
  destruct (String.eqb_spec k key); [discriminate |].
  intros H [Hk | Hin]; [congruence | now apply IH].
Qed.

(** X6: the registry and its list of names agree.  [getAllTargetNames] lists
    five distinct names; [getTargetByName] answers with a target class
    exactly for the listed names, and with different classes for different
    names; for any other name it answers [undefined], unless the name is
    that of a property which the registry object inherits. *)
Theorem registry_names_resolve (inherited : string -> bool) :
  NoDup TargetIndex.getAllTargetNames
  /\ length TargetIndex.getAllTargetNames = 5
  /\ (forall targetName,
        In targetName TargetIndex.getAllTargetNames <->
        exists c, TargetIndex.getTargetByName inherited targetName =
                    TargetIndex.Own c)
  /\ (forall n1 n2 c,
        TargetIndex.getTargetByName inherited n1 = TargetIndex.Own c ->
        TargetIndex.getTargetByName inherited n2 = TargetIndex.Own c ->
        n1 = n2)
  /\ (forall targetName,
        ~ In targetName TargetIndex.getAllTargetNames ->
        TargetIndex.getTargetByName inherited targetName =
        if inherited targetName then TargetIndex.Inherited
        else TargetIndex.Undefined).
Proof.
  assert (forall n c,
            TargetIndex.getTargetByName inherited n = TargetIndex.Own c ->
            TargetIndex.ownProperty TargetIndex.TARGET_MAP n = Some c) as Hown.
  { intros n c. unfold TargetIndex.getTargetByName.
    destruct (TargetIndex.ownProperty _ n); [congruence |].
    destruct (inherited n); discriminate. }
  split; [| split; [| split; [| split]]].
  - apply NoDup_ListNoDup. cbn.
    repeat (apply List.NoDup_cons; [cbn; intuition discriminate |]).
    apply List.NoDup_nil.
  - reflexivity.
  - intros n. split.
    + intros Hin. unfold TargetIndex.getTargetByName.
      destruct (TargetIndex.ownProperty TargetIndex.TARGET_MAP n) as [c |] eqn:E;
        [eauto |].
      now apply ownProperty_None in E.
    + intros [c Hc]. eapply ownProperty_In, Hown, Hc.
  - intros n1 n2 c H1 H2. apply Hown in H1, H2.
    pose proof (ownProperty_In _ _ _ H1) as I1.
    pose proof (ownProperty_In _ _ _ H2) as I2.
    cbn in I1, I2.
    destruct I1 as [<- | [<- | [<- | [<- | [<- | []]]]]];
      destruct I2 as [<- | [<- | [<- | [<- | [<- | []]]]]];
      cbn in H1, H2; congruence.
  - intros n Hn. unfold TargetIndex.getTargetByName.
    destruct (TargetIndex.ownProperty TargetIndex.TARGET_MAP n) as [c |] eqn:E;
      [| reflexivity].
    exfalso. eapply Hn, ownProperty_In, E.
Qed.

(** X7: a PyPI target cannot be built without credentials.  The constructor
    succeeds exactly when [TWINE_USERNAME] and [TWINE_PASSWORD] are both set
    in the environment and not empty; it then keeps both values and the
    filters of the base class; otherwise it throws the missing-credentials
    error. *)
Theorem pypi_target_needs_credentials (env : Env)
  (stringToRegexp : string -> RegExp.RegExp) (config : Base.TargetConfig) :
  let built := PypiTarget.newPypiTarget env stringToRegexp config in
  (isResolved built = true <->
   exists u p,
     processEnv env !! "TWINE_USERNAME" = Some u /\ u <> "" /\
     processEnv env !! "TWINE_PASSWORD" = Some p /\ p <> "")
  /\ (forall this,
        built = Resolved this ->
        processEnv env !! "TWINE_USERNAME" =
          Some (PypiTarget.twineUsername (PypiTarget.pypiConfig this))
        /\ processEnv env !! "TWINE_PASSWORD" =
             Some (PypiTarget.twinePassword (PypiTarget.pypiConfig this))
        /\ PypiTarget.base this = Base.newBaseTarget stringToRegexp config)
  /\ (isResolved built = false ->
      built = Rejected PypiTarget.missingCredentials).
Proof.
  intros built. subst built.
  unfold PypiTarget.newPypiTarget, PypiTarget.getPypiConfig. cbv zeta.
  destruct (processEnv env !! "TWINE_USERNAME") as [u |] eqn:Hu;
    destruct (processEnv env !! "TWINE_PASSWORD") as [p |] eqn:Hp;
    repeat match goal with
           | |- context [default ?d (Some ?x)] =>
               change (default d (Some x)) with x
           | |- context [default ?d None] =>
               change (default d None) with d
           end.
  - destruct (truthy u) eqn:Tu; [destruct (truthy p) eqn:Tp |]; cbn.
    + split; [split | split].
      * intros _. exists u, p. rewrite <- !truthy_true. auto.
      * intros _. reflexivity.
      * intros this [= <-]. auto.
      * discriminate.
    + split; [split | split]; try discriminate; try reflexivity.
      intros (u' & p' & _ & _ & [= <-] & Hp').
      apply truthy_true in Hp'. congruence.
    + split; [split | split]; try discriminate; try reflexivity.
      intros (u' & p' & [= <-] & Hu' & _).
      apply truthy_true in Hu'. congruence.
  - assert (truthy "" = false) as -> by reflexivity.
    rewrite orb_true_r.
    split; [split | split]; try discriminate; try reflexivity.
    intros (u' & p' & _ & _ & Hp' & _); discriminate.
  - cbn. split; [split | split]; try discriminate; try reflexivity.
    intros (u' & p' & Hu' & _); discriminate.
  - cbn. split; [split | split]; try discriminate; try reflexivity.
    intros (u' & p' & Hu' & _); discriminate.
Qed.

(** ** The package files of the PyPI target *)

Lemma regexpVoid_nullable (r : RegExp.RegExp) (bos eos : bool) :
  regexpVoid r = true -> RegExp.nullable bos eos r = false.
Proof.
  induction r; cbn; try discriminate; try reflexivity; intros H.
  - apply orb_true_iff in H as [H | H];
      [rewrite IHr1 by assumption | rewrite IHr2 by assumption];
      [reflexivity | apply andb_false_r].
  - apply andb_true_iff in H as [H1 H2].
    now rewrite IHr1, IHr2.
Qed.

Lemma regexpVoid_deriv (r : RegExp.RegExp) (bos : bool) (c : ascii) :
  regexpVoid r = true -> regexpVoid (RegExp.deriv bos c r) = true.
Proof.
  induction r; cbn; try discriminate; try reflexivity; intros H.
  - apply orb_true_iff in H as [H | H].
    + rewrite (regexpVoid_nullable r1 bos false H). cbn.
      now rewrite IHr1.
    + destruct (RegExp.nullable bos false r1); cbn;
        rewrite ?H, ?IHr2 by assumption; rewrite ?orb_true_r; reflexivity.
  - apply andb_true_iff in H as [H1 H2]. now rewrite IHr1, IHr2.
Qed.

Lemma matchHere_void (s : string) :
  forall (r : RegExp.RegExp) (bos : bool),
    regexpVoid r = true -> RegExp.matchHere bos r s = false.
Proof.
  induction s as [| c s IH]; intros r bos H; cbn.
  - now apply regexpVoid_nullable.
  - rewrite (regexpVoid_nullable r bos false H). cbn.
    apply IH. now apply regexpVoid_deriv.
Qed.

(** Runs an expression without variables over an input of unknown
    characters. *)
Ltac run_regexp :=
  repeat
    (cbn;
     match goal with
     | |- context [Ascii.eqb ?c ?d] =>
         is_var c; destruct (Ascii.eqb_spec c d); [subst c |]
     | |- context [RegExp.matchHere ?b ?r ?s] =>
         is_var s;
         first [ rewrite (matchHere_void s r b) by reflexivity
               | destruct s ]
     end);
  cbn; try reflexivity; try congruence.

Lemma matchHere_DEFAULT_PYPI_REGEX (bos : bool) (s : string) :
  RegExp.matchHere bos Pypi.DEFAULT_PYPI_REGEX s =
  String.eqb s ".whl" || String.eqb s ".gz" || String.eqb s ".zip".
Proof. unfold Pypi.DEFAULT_PYPI_REGEX. run_regexp. Qed.

Lemma matchHere_packageExtensions (bos : bool) (s : string) :
  RegExp.matchHere bos Pypi.packageExtensions s =
  String.eqb s ".whl" || String.eqb s ".gz" || String.eqb s ".zip".
Proof. unfold Pypi.packageExtensions. run_regexp. Qed.

Lemma search_ext (r1 r2 : RegExp.RegExp) :
  (forall bos s, RegExp.matchHere bos r1 s = RegExp.matchHere bos r2 s) ->
  forall s bos, RegExp.search bos r1 s = RegExp.search bos r2 s.
Proof.
  intros H s. induction s as [| c s IH]; intros bos; cbn [RegExp.search];
    rewrite H; [reflexivity | now rewrite IH].
Qed.

Lemma search_suffix (r : RegExp.RegExp) (ends : string -> bool) :
  (forall bos s, RegExp.matchHere bos r s = ends s) ->
  forall s bos,
    RegExp.search bos r s = true <->
    exists prefix suffix, s = prefix +:+ suffix /\ ends suffix = true.
Proof.
  intros H s. induction s as [| c s IH]; intros bos; cbn [RegExp.search];
    rewrite H.
  - rewrite orb_false_r. split.
    + intros He. now exists "", "".
    + intros ([| ? ?] & [| ? ?] & Hs & He); cbn in Hs;
        first [assumption | discriminate Hs].
  - rewrite orb_true_iff, IH. split.
    + intros [He | (p & x & -> & He)].
      * now exists "", (String c s).
      * now exists (String c p), x.
    + intros ([| c' p] & x & Hs & He); cbn in Hs.
      * left. change (String c s = x) in Hs. now subst x.
      * right. change (String c s = String c' (p +:+ x)) in Hs.
        injection Hs as -> ->. eauto.
Qed.

(** X8: the package files of a PyPI release.  The expression which [publish]
    passes as the default filter accepts a name exactly when the name ends
    in [.whl], [.gz] or [.zip]; the expression of the specification,
    [/\.(whl|gz|zip)$/], accepts the same names. *)
Theorem pypi_package_names (fileName : string) :
  (RegExp.test Pypi.DEFAULT_PYPI_REGEX fileName = true <->
   exists prefix suffix,
     fileName = prefix +:+ suffix /\ In suffix [".whl"; ".gz"; ".zip"])
  /\ RegExp.test Pypi.packageExtensions fileName =
     RegExp.test Pypi.DEFAULT_PYPI_REGEX fileName.
Proof.
  split.
  - unfold RegExp.test.
    rewrite (search_suffix _ _ matchHere_DEFAULT_PYPI_REGEX).
    split; intros (p & x & Hs & Hx); exists p, x; (split; [assumption |]).
    + rewrite !orb_true_iff in Hx. cbn.
      destruct Hx as [[Hx | Hx] | Hx]; apply String.eqb_eq in Hx; auto.
    + cbn in Hx. destruct Hx as [<- | [<- | [<- | []]]]; reflexivity.
  - unfold RegExp.test. apply search_ext. intros bos s.
    now rewrite matchHere_packageExtensions, matchHere_DEFAULT_PYPI_REGEX.
Qed.

(** ** The version argument *)

(** X9: the check of the version argument never answers [false]: it answers
    [true] or throws.  It answers [true] exactly for the versions that
    [isValidVersion] accepts and that are not the name of a version part;
    [major], [minor] and [patch] are refused as unsupported, whatever
    [isValidVersion] says of them. *)
Theorem version_argument_check (isValidVersion : string -> bool)
  (newVersion : string) :
  let checked :=
    ReleaseArguments.checkVersionOrPart isValidVersion newVersion in
  checked <> Resolved false
  /\ (checked = Resolved true <->
      ~ In newVersion ["major"; "minor"; "patch"] /\
      isValidVersion newVersion = true)
  /\ (In newVersion ["major"; "minor"; "patch"] ->
      checked = Rejected (Error "Version part is not supported yet"))
  /\ (~ In newVersion ["major"; "minor"; "patch"] ->
      isValidVersion newVersion = false ->
      exists msg, checked = Rejected (Error msg)
                  /\ msg <> "Version part is not supported yet").
Proof.
  intros checked. subst checked.
  unfold ReleaseArguments.checkVersionOrPart.
  assert (ReleaseArguments.isVersionPart newVersion = true <->
          In newVersion ["major"; "minor"; "patch"]) as Hpart.
  { unfold ReleaseArguments.isVersionPart. rewrite existsb_exists. split.
    - intros (x & Hx & He). apply String.eqb_eq in He. now subst.
    - intros Hin. exists newVersion. split; [assumption | apply String.eqb_refl]. }
  cbv zeta.
  destruct (ReleaseArguments.isVersionPart newVersion) eqn:Ep.
  - assert (In newVersion ["major"; "minor"; "patch"]) as Hin by now apply Hpart.
    repeat split; try discriminate; try tauto.
  - assert (~ In newVersion ["major"; "minor"; "patch"]) as Hnot.
    { intros Hin. apply Hpart in Hin. discriminate. }
    destruct (isValidVersion newVersion) eqn:Ev.
    + repeat split; try discriminate; try tauto.
    + repeat split; try discriminate; try tauto.
      intros _ _. eexists. split; [reflexivity |]. discriminate.
Qed.

(** ** The GitHub API helpers *)

(** X10: a file is loaded from the repository with one request.  The decoded
    content of the answer is returned; the answer 404 gives [undefined]
    instead of an error; any other error of the request is thrown on
    unchanged. *)
Theorem getFile_outcome (env : Env) (github : Github)
  (owner repo path ref : string) (w : World) :
  GithubApi.getFile env github owner repo path ref w =
  (match repos_getContent github owner path ref repo with
   | Resolved content => Resolved (Some (base64decode env content))
   | Rejected err =>
       if decide (code err = Some 404%Z) then Resolved None else Rejected err
   end,
   withTrace w (trace w ++ [GithubGetContent owner path ref repo])).
Proof.
  unfold GithubApi.getFile.
  rewrite tryCatch_run, !bind_run. cbn.
  destruct (repos_getContent github owner path ref repo) as [content | err];
    cbn; [reflexivity |].
  now destruct (decide (code err = Some 404%Z)).
Qed.

(** X11: merging the release branch.  The default branch of the repository
    is asked for only when no base branch is given, an empty name counting
    as none; an error of that request ends the function before anything is
    logged or merged.  Otherwise the function settles as the merge request
    does: with its commit or with its error, unchanged; a conflict (409) is
    logged as an error before it is thrown on, and the log always names
    [master] as the branch to check out. *)
Theorem mergeReleaseBranch_outcome (github : GithubMerge.GithubRepos)
  (owner repo branch : string) (base : option string) (w : World) :
  let run := GithubMerge.mergeReleaseBranch github owner repo branch base w in
  let given := match base with Some b => truthy b | None => false end in
  let baseBranch :=
    if given then Resolved (default "" base)
    else GithubMerge.repos_get github owner repo in
  match baseBranch with
  | Rejected err => run = (Rejected err, w)
  | Resolved into =>
      let merged := GithubMerge.repos_merge github into branch owner repo in
      fst run = merged
      /\ snd run =
         withTrace w
           (trace w ++
            [Log LInfo ["Merging release branch: " +:+ quoted branch +:+
                        " into " +:+ quoted into +:+ "..."]] ++
            match merged with
            | Resolved _ => [Log LInfo ["Merging: done."]]
            | Rejected err =>
                if decide (code err = Some 409%Z)
                then [Log LError
                        ["Cannot merge release branch " +:+ quoted branch +:+
                           ": conflicts detected";
                         "Please resolve the conflicts and merge the branch manually:";
                         "    git checkout master && git merge " +:+ branch]]
                else []
            end)
  end.
Proof.
  intros run given baseBranch. subst run given baseBranch.
  unfold GithubMerge.mergeReleaseBranch. cbv zeta.
  assert (forall into (w0 : World),
            let merged := GithubMerge.repos_merge github into branch owner repo in
            let run :=
              tryCatch
                (log LInfo ["Merging release branch: " +:+ quoted branch +:+
                            " into " +:+ quoted into +:+ "..."] ;;
                 sha <- await merged ;;
                 log LInfo ["Merging: done."] ;;
                 ret sha)
                (fun err =>
                   (if decide (code err = Some 409%Z)
                    then log LError (GithubMerge.conflictLines branch)
                    else ret tt) ;;
                   throw err) w0 in
            fst run = merged /\
            snd run =
              withTrace w0
                (trace w0 ++
                 [Log LInfo ["Merging release branch: " +:+ quoted branch +:+
                             " into " +:+ quoted into +:+ "..."]] ++
                 match merged with
                 | Resolved _ => [Log LInfo ["Merging: done."]]
                 | Rejected err =>
                     if decide (code err = Some 409%Z)
                     then [Log LError (GithubMerge.conflictLines branch)]
                     else []
                 end)) as Hmerge.
  { intros into w0 merged run. subst run merged.
    rewrite tryCatch_run, !bind_run.
    unfold log, emit, await, withTrace. cbn -[String.append].
    destruct (GithubMerge.repos_merge github into branch owner repo)
      as [sha | err]; cbn -[String.append].
    - split; [reflexivity |]. now rewrite <- app_assoc.
    - destruct (decide (code err = Some 409%Z)); cbn -[String.append];
        (split; [reflexivity |]);
        rewrite <- ?app_assoc, ?app_nil_r; reflexivity. }
  unfold GithubMerge.conflictLines in *.
  rewrite bind_run. unfold orElse.
  destruct base as [b |].
  - change (default "" (Some b)) with b.
    destruct (truthy b) eqn:Tb; cbv beta iota.
    + rewrite Tb. cbn [negb]. unfold ret at 1. apply Hmerge.
    + assert (truthy "" = false) as -> by reflexivity. cbn [negb].
      unfold await at 1.
      destruct (GithubMerge.repos_get github owner repo) as [into | err];
        [apply Hmerge | reflexivity].
  - change (default "" None) with "".
    assert (truthy "" = false) as -> by reflexivity. cbn [negb].
    unfold await at 1.
    destruct (GithubMerge.repos_get github owner repo) as [into | err];
      [apply Hmerge | reflexivity].
Qed.

(** ** The release command: its steps one by one *)

Lemma execPublish_run (env : Env) (newVersion : string) (w : World) :
  let options := mkPublishOptions false false newVersion false false in
  Release.execPublish env newVersion w =
  (Resolved tt,
   withTrace w
     (trace w ++
      [Log LInfo ["Running the " +:+ quoted "publish" +:+ " command..."];
       Log LInfo ["Sleeping for " +:+ pretty Release.SLEEP_BEFORE_PUBLISH_SECONDS
                  +:+ " seconds before publishing..."]] ++
      (if dryRun w then [Log LInfo ["[dry-run] Not wasting time on sleep"]]
       else [SleepAsync 30000]) ++
      [PublishMain options] ++
      match publishMainResult env options with
      | Resolved _ => [ProcessExit 0]
      | Rejected e =>
          [Log LError [message e];
           Log LError
             ["There was an error running " +:+ quoted "publish" +:+
              ". Fix the issue and run the command manually:";
              "  $ craft publish " +:+ newVersion];
           ProcessExit 1]
      end)).
Proof.
  intros options. subst options.
  unfold Release.execPublish, Release.publishMain, Release.processExit,
    System.sleepAsync, shouldPerform, log, bind, tryCatch, emit, await, ret,
    withTrace.
  cbn -[String.append pretty].
  destruct (dryRun w) eqn:Hdry; cbn -[String.append pretty];
    destruct (publishMainResult env _) as [[] | e];
    cbn -[String.append pretty];
    rewrite <- ?app_assoc; reflexivity.
Qed.

(** X12: the publish step of the release command ends the process in every
    case.  It runs the publish command exactly once, with all of its
    switches off, also under dry-run; it waits before that only in a live
    run; the exit status is 0 when the publish command succeeded and 1 when
    it failed; nothing follows the exit. *)
Theorem execPublish_ends_process (env : Env) (newVersion : string) (w : World) :
  let run := Release.execPublish env newVersion w in
  let options := mkPublishOptions false false newVersion false false in
  let status :=
    if isResolved (publishMainResult env options) then 0%Z else 1%Z in
  exists t,
    trace (snd run) = trace w ++ t ++ [ProcessExit status]
    /\ List.filter
         (fun e =>
            match e with
            | PublishMain _ | ProcessExit _ => true
            | _ => false
            end) t = [PublishMain options]
    /\ (In (SleepAsync 30000) t <-> dryRun w = false)
    /\ Forall (fun e => stateChanging e = false) t.
Proof.
  intros run options status. subst run status.
  rewrite execPublish_run. fold options. cbn [snd withTrace trace].
  exists ([Log LInfo ["Running the " +:+ quoted "publish" +:+ " command..."];
           Log LInfo ["Sleeping for " +:+
                      pretty Release.SLEEP_BEFORE_PUBLISH_SECONDS +:+
                      " seconds before publishing..."]] ++
          (if dryRun w then [Log LInfo ["[dry-run] Not wasting time on sleep"]]
           else [SleepAsync 30000]) ++
          [PublishMain options] ++
          match publishMainResult env options with
          | Resolved _ => []
          | Rejected e =>
              [Log LError [message e];
               Log LError
                 ["There was an error running " +:+ quoted "publish" +:+
                  ". Fix the issue and run the command manually:";
                  "  $ craft publish " +:+ newVersion]]
          end).
  destruct (dryRun w); destruct (publishMainResult env options) as [[] | e];
    cbn -[String.append pretty];
    (split; [reflexivity |]); (split; [reflexivity |]);
    (split; [| repeat constructor]);
    split; intros H; try discriminate; try reflexivity;
    try (right; right; left; reflexivity);
    intuition discriminate.
Qed.

(** X13: the release command never rejects.  Whatever fails in its body, the
    handler logs the error as one error line and returns; a body that
    succeeds is followed by nothing. *)
Theorem handler_reports_errors (env : Env) (argv : Release.ReleaseOptions)
  (w : World) :
  let started :=
    if dryRun w
    then withTrace w (trace w ++ [Log LInfo ["[dry-run] Dry-run mode is on!"]])
    else w in
  let body := Release.release env argv started in
  let run := Release.handler env argv w in
  fst run = Resolved tt
  /\ snd run =
     match fst body with
     | Resolved _ => snd body
     | Rejected e =>
         withTrace (snd body) (trace (snd body) ++ [Log LError [message e]])
     end.
Proof.
  intros started body run. subst run body started.
  unfold Release.handler, bind, tryCatch, isDryRun. cbv beta iota.
  destruct (dryRun w) eqn:Hdry.
  - unfold log at 1, emit at 1. cbn -[Release.release].
    destruct (Release.release env argv _) as [[[] | e] w1]; cbn; auto.
  - unfold ret at 1. cbn -[Release.release].
    destruct (Release.release env argv w) as [[[] | e] w1]; cbn; auto.
Qed.

(** X14: the changelog check.  It passes exactly when the policy is absent
    or [none], or when the policy is [simple], the path of the changelog
    does not leave the working directory, the file exists and can be read,
    and it holds a changeset for the new version with a body that is not
    empty.  With the policy absent or [none] it touches no file: it writes
    one log line.  Any other policy name is refused before a file is
    looked at. *)
Theorem checkChangelog_verdict (env : Env) (newVersion : string)
  (policy path : option string) (w : World) :
  let run := Release.checkChangelog env newVersion policy path w in
  let file := pathRelative env "" (default "CHANGELOG.md" path) in
  (isResolved (fst run) = true <->
   policy = None \/ policy = Some "none" \/
   (policy = Some "simple"
    /\ String.prefix "." file = false
    /\ existsSync env file = true
    /\ exists text c,
         readFileSync env file = Resolved text
         /\ findChangeset env text newVersion = Some c
         /\ cs_body c <> ""))
  /\ (policy = None \/ policy = Some "none" ->
      exists line, snd run = withTrace w (trace w ++ [Log LInfo line]))
  /\ (forall p,
        policy = Some p -> p <> "none" -> p <> "simple" ->
        run = (Rejected (Error ("Invalid changelog policy: " +:+ quoted p)), w)).
Proof.
  intros run file. subst run file.
  unfold Release.checkChangelog, ChangelogPolicy.None_, ChangelogPolicy.Simple,
    Release.DEFAULT_CHANGELOG_PATH.
  cbv zeta.
  set (changelogPath := default "CHANGELOG.md" path).
  set (file := pathRelative env "" changelogPath).
  assert (default "none" policy = "none" <-> policy = None \/ policy = Some "none")
    as Hnone.
  { destruct policy as [p |]; cbn; split; intros H; auto.
    - subst. auto.
    - destruct H as [H | H]; congruence. }
  destruct (String.eqb_spec (default "none" policy) "none") as [Hp | Hp].
  - apply Hnone in Hp. split; [| split].
    + cbn. tauto.
    + intros _. eexists. reflexivity.
    + intros p -> Hn _. destruct Hp as [Hp | Hp]; congruence.
  - assert (exists p, policy = Some p /\ p <> "none") as (p & -> & Hpn).
    { destruct policy as [p |]; [| now contradiction Hp].
      exists p. split; [reflexivity |]. intros ->. now apply Hp. }
    change (default "none" (Some p)) with p.
    destruct (String.eqb_spec p "simple") as [-> | Hps].
    + split; [| split].
      2: { intros [H | H]; congruence. }
      2: { intros p [= <-] _ H. now contradiction H. }
      rewrite !bind_run. unfold log at 1, emit at 1. cbn [fst snd].
      rewrite !bind_run.
      destruct (String.prefix "." file) eqn:Hdot.
      { cbn. split; [discriminate |].
        intros [H | [H | (_ & H & _)]]; discriminate. }
      unfold ret at 1. rewrite !bind_run. unfold emit at 1.
      rewrite !bind_run.
      destruct (existsSync env file) eqn:Hex; cbn [negb].
      2: { cbn. split; [discriminate |].
           intros [H | [H | (_ & _ & H & _)]]; discriminate. }
      unfold ret at 1. rewrite !bind_run. unfold emit at 1.
      rewrite !bind_run. unfold await at 1.
      destruct (readFileSync env file) as [text | e] eqn:Hread.
      2: { cbn. split; [discriminate |].
           intros [H | [H | (_ & _ & _ & t & c & H & _)]]; discriminate. }
      destruct (findChangeset env text newVersion) as [c |] eqn:Hfind.
      2: { cbn. split; [discriminate |].
           intros [H | [H | (_ & _ & _ & t & c & [= <-] & H & _)]];
             congruence. }
      destruct (truthy (cs_body c)) eqn:Hbody; cbn [negb].
      * cbn. split; [| reflexivity]. intros _. right. right.
        repeat split. exists text, c. repeat split; try assumption.
        now apply truthy_true.
      * cbn. split; [discriminate |].
        intros [H | [H | (_ & _ & _ & t & c' & [= <-] & H & Hb)]];
          try discriminate.
        apply truthy_true in Hb. congruence.
    + split; [| split].
      * cbn. split; [discriminate |].
        intros [H | [H | (H & _)]]; congruence.
      * intros [H | H]; congruence.
      * intros p' [= <-] _ _. reflexivity.
Qed.

(** X15: failures of the branch step.  An error of [git rev-parse] that does
    not tell of an unknown revision is thrown on unchanged, and nothing is
    checked out; an empty answer of [git rev-parse] counts as no branch; in
    a live run a failed checkout is thrown on and the creation of the
    branch is not logged. *)
Theorem createReleaseBranch_failures (git : SimpleGit) (newVersion : string)
  (w : World) :
  let branchName := "release/" +:+ newVersion in
  let run := Release.createReleaseBranch git newVersion w in
  (forall e,
     git_revparse git [branchName] = Rejected e ->
     RegExp.test Release.unknownRevision (message e) = false ->
     run = (Rejected e, withTrace w (trace w ++ [GitRevparse [branchName]])))
  /\ (git_revparse git [branchName] = Resolved "" ->
      dryRun w = true ->
      run = (Resolved branchName,
             withTrace w
               (trace w ++
                [GitRevparse [branchName];
                 Log LInfo ["[dry-run] Not creating a new release branch"]])))
  /\ (forall e,
        ReleaseSpec.branchUnknown git branchName ->
        dryRun w = false ->
        git_checkoutLocalBranch git branchName = Rejected e ->
        run = (Rejected e,
               withTrace w
                 (trace w ++
                  [GitRevparse [branchName];
                   GitCheckoutLocalBranch branchName]))).
Proof.
  intros branchName run. subst run branchName. split; [| split].
  - intros e Hrev Hmsg.
    unfold Release.createReleaseBranch, Release.gitRevparse.
    rewrite bind_run, tryCatch_run, bind_run. cbn [emit].
    unfold await. now rewrite Hrev, Hmsg.
  - intros Hrev Hdry.
    unfold Release.createReleaseBranch, Release.gitRevparse.
    rewrite bind_run, tryCatch_run, bind_run. cbn [emit].
    unfold await. rewrite Hrev. cbn -[String.append].
    rewrite Hdry. cbn -[String.append]. now rewrite <- app_assoc.
  - intros e Hun Hlive Hco.
    rewrite (createReleaseBranch_unknown _ _ _ Hun), Hlive. cbv zeta.
    now rewrite Hco.
Qed.

(** ** Targets: downloads before uploads *)

Lemma withTrace_nil (w : World) : withTrace w (trace w ++ []) = w.
Proof. destruct w. unfold withTrace. cbn. now rewrite app_nil_r. Qed.

Lemma withTrace_withTrace (w : World) (t1 t2 : list Event) :
  withTrace (withTrace w (trace w ++ t1)) (trace w ++ t1 ++ t2) =
  withTrace w (trace w ++ t1 ++ t2).
Proof. reflexivity. Qed.

Section Continuations.

Context {R : Type} (rest : Artifact -> string -> M R).
Context (out : bool -> Artifact -> string -> Promise R).
Context (add : bool -> Artifact -> string -> list Event).

Hypothesis rest_run :
  forall a path w,
    rest a path w =
    (out (dryRun w) a path, withTrace w (trace w ++ add (dryRun w) a path)).

Lemma continuations_run (xps : list (Artifact * Promise string)) :
  forall w,
    mapM (fun xp => call (y <- await (snd xp) ;; rest (fst xp) y)) xps w =
    (Resolved (map (PublishSpec.settle (out (dryRun w))) xps),
     withTrace w
       (trace w ++ flat_map (PublishSpec.continued (add (dryRun w))) xps)).
Proof.
  induction xps as [| [a p] xps IH]; intros w.
  - cbn. now rewrite withTrace_nil.
  - rewrite (mapM_cons_call
               (fun xp => y <- await (snd xp) ;; rest (fst xp) y)).
    rewrite bind_run. unfold await at 1. cbn [fst snd].
    destruct p as [path | e].
    + rewrite rest_run. cbn [fst snd]. rewrite IH.
      cbn [dryRun withTrace trace map flat_map PublishSpec.settle
           PublishSpec.continued fst snd].
      unfold withTrace. cbn [dryRun trace store].
      now rewrite <- app_assoc.
    + rewrite IH. reflexivity.
Qed.

Lemma promiseAllMap_downloads (artifacts : list Artifact) (w : World) :
  exists ps w3 tA,
    promiseAllMap Zeus.downloadArtifact rest artifacts w =
    (promiseAll
       (map (PublishSpec.settle (out (dryRun w))) (combine artifacts ps)),
     withTrace w3
       (trace w3 ++
        flat_map (PublishSpec.continued (add (dryRun w)))
          (combine artifacts ps)))
    /\ Forall2
         (fun a p => downloadCache (store w3) !! download_url a = Some p)
         artifacts ps
    /\ trace w3 = trace w ++ tA
    /\ Forall (fun e => isZeusDownload e = true) tA
    /\ Keeps w w3.
Proof.
  unfold promiseAllMap. rewrite bind_run.
  destruct (downloads_started artifacts w) as (ps & Hps & Hall & _).
  pose proof (KeepsM_mapM
                (fun artifact => call (Zeus.downloadArtifact artifact)) artifacts
                (fun x => KeepsM_call _ (KeepsM_downloadArtifact x)) w)
    as Hkeeps.
  assert (Emits None (fun e => isZeusDownload e = true)
            (mapM (fun x => call (Zeus.downloadArtifact x)) artifacts)) as Hem.
  { unfold Zeus.downloadArtifact, Zeus.clientDownloadArtifact. emits. }
  destruct (Hem w I) as (Hdry & tA & HtA & HPA).
  destruct (mapM _ artifacts w) as [r w3]. cbn [fst snd] in *. subst r.
  exists ps, w3, tA.
  rewrite bind_run, continuations_run. unfold await. rewrite Hdry.
  split; [reflexivity |]. split; [assumption |]. split; [assumption |].
  split; assumption.
Qed.

End Continuations.

Lemma uploaded_app (t1 t2 : list Event) :
  PublishSpec.uploaded (t1 ++ t2) =
  PublishSpec.uploaded t1 ++ PublishSpec.uploaded t2.
Proof. apply flat_map_app. Qed.

Lemma spawned_app (t1 t2 : list Event) :
  PublishSpec.spawned (t1 ++ t2) =
  PublishSpec.spawned t1 ++ PublishSpec.spawned t2.
Proof. apply flat_map_app. Qed.

Lemma uploaded_quiet (t : list Event) :
  Forall PublishSpec.notUpload t -> PublishSpec.uploaded t = [].
Proof.
  induction 1 as [| e t He _ IH]; [reflexivity |].
  destruct e; cbn in *; try exact IH. contradiction.
Qed.

Lemma spawned_quiet (t : list Event) :
  Forall PublishSpec.notSpawn t -> PublishSpec.spawned t = [].
Proof.
  induction 1 as [| e t He _ IH]; [reflexivity |].
  destruct e; cbn in *; try exact IH. contradiction.
Qed.

Lemma downloads_notUpload (t : list Event) :
  Forall (fun e => isZeusDownload e = true) t -> Forall PublishSpec.notUpload t.
Proof.
  apply List.Forall_impl. intros []; cbn; try discriminate; auto.
Qed.

Lemma downloads_notSpawn (t : list Event) :
  Forall (fun e => isZeusDownload e = true) t -> Forall PublishSpec.notSpawn t.
Proof.
  apply List.Forall_impl. intros []; cbn; try discriminate; auto.
Qed.

(** Runs a computation without loops on a world: every choice it makes is
    one case. *)
Ltac run_cases :=
  unfold bind, tryCatch, log, emit, await, ret, throw, shouldPerform, isDryRun,
    withTrace;
  cbn -[String.append];
  repeat match goal with
         | |- context [match ?x with _ => _ end] =>
             lazymatch x with
             | context [match _ with _ => _ end] => fail
             | _ => destruct x; cbn -[String.append]
             end
         end.

Lemma getOrCreateRelease_store (env : Env) (this : GithubTarget.GithubTarget)
  (tag revision : string) (isPreview : bool) (w : World) :
  store (snd (GithubTarget.getOrCreateRelease env this tag revision isPreview w))
  = store w.
Proof.
  unfold GithubTarget.getOrCreateRelease, GithubApi.getFile.
  run_cases; reflexivity.
Qed.

Lemma Emits_getOrCreateRelease (env : Env) (this : GithubTarget.GithubTarget)
  (tag revision : string) (isPreview : bool) :
  Emits None PublishSpec.notUpload
    (GithubTarget.getOrCreateRelease env this tag revision isPreview).
Proof.
  unfold GithubTarget.getOrCreateRelease, GithubApi.getFile. emits.
Qed.

Lemma Emits_listing (P : Event -> Prop) (revision : string) :
  (forall owner repo r, P (ZeusListArtifactsForRevision owner repo r)) ->
  Emits None P (Zeus.listArtifactsForRevision revision).
Proof.
  intros HP.
  unfold Zeus.listArtifactsForRevision, Zeus.clientListArtifactsForRevision.
  emits. apply Emits_emit. apply HP.
Qed.

Lemma uploadArtifact_run (env : Env) (this : GithubTarget.GithubTarget)
  (release : GithubRelease) (a : Artifact) (path : string) (w : World) :
  GithubTarget.uploadArtifact env this release a path w =
  (match statSyncSize env path with
   | Resolved size =>
       if dryRun w then Resolved tt
       else repos_uploadAsset (GithubTarget.github this)
              (PublishSpec.assetParams env release a path size)
   | Rejected e => Rejected e
   end,
   withTrace w
     (trace w ++
      FsStat path ::
      match statSyncSize env path with
      | Resolved size =>
          [Log LInfo
             ["Uploading asset " +:+ quoted (pathBasename env path) +:+ " to "
              +:+ GithubTarget.owner (GithubTarget.githubConfig this) +:+ "/"
              +:+ GithubTarget.repo (GithubTarget.githubConfig this) +:+ ":"
              +:+ tag_name release];
           if dryRun w
           then Log LInfo ["[dry-run] Not uploading asset " +:+
                           quoted (pathBasename env path)]
           else GithubUploadAsset
                  (PublishSpec.assetParams env release a path size)]
      | Rejected _ => []
      end)).
Proof.
  unfold GithubTarget.uploadArtifact, PublishSpec.assetParams.
  unfold bind, log, emit, await, ret, shouldPerform, withTrace.
  cbn -[String.append].
  destruct (statSyncSize env path) as [size | e]; cbn -[String.append];
    [| reflexivity].
  destruct (dryRun w); cbn -[String.append]; now rewrite <- !app_assoc.
Qed.

Section GithubUploads.

Context (env : Env) (this : GithubTarget.GithubTarget).
Context (release : GithubRelease).
Context (out : bool -> Artifact -> string -> Promise unit).
Context (add : bool -> Artifact -> string -> list Event).

Hypothesis out_eq :
  forall d a path,
    out d a path =
    match statSyncSize env path with
    | Resolved size =>
        if d then Resolved tt
        else repos_uploadAsset (GithubTarget.github this)
               (PublishSpec.assetParams env release a path size)
    | Rejected e => Rejected e
    end.

Hypothesis add_uploaded :
  forall d a path,
    PublishSpec.uploaded (add d a path) =
    match statSyncSize env path with
    | Resolved size =>
        if d then [] else [PublishSpec.assetParams env release a path size]
    | Rejected _ => []
    end.

Lemma github_uploads_of_downloads (cache : gmap string (Promise string))
  (d : bool) (artifacts : list Artifact) (ps : list (Promise string)) :
  Forall2 (fun a p => cache !! download_url a = Some p) artifacts ps ->
  let ups :=
    PublishSpec.uploaded
      (flat_map (PublishSpec.continued (add d)) (combine artifacts ps)) in
  Forall (fun params => exists a, PublishSpec.uploadOf env cache release a params)
    ups
  /\ (d = false ->
      isResolved
        (promiseAll (map (PublishSpec.settle (out d)) (combine artifacts ps)))
      = true ->
      Forall2 (PublishSpec.uploadOf env cache release) artifacts ups).
Proof.
  induction 1 as [| a p artifacts ps Hap Hall [IHa IHb]]; cbn zeta.
  - split; constructor.
  - cbn [combine flat_map map]. rewrite uploaded_app.
    destruct p as [path | e].
    + change (PublishSpec.continued (add d) (a, Resolved path))
        with (add d a path).
      change (PublishSpec.settle (out d) (a, Resolved path))
        with (out d a path).
      rewrite add_uploaded, out_eq.
      destruct (statSyncSize env path) as [size | e] eqn:Hstat.
      * destruct d.
        -- split; [exact IHa | discriminate].
        -- split.
           ++ constructor; [| exact IHa].
              exists a, path, size. auto.
           ++ intros _ Hres. cbn [app].
              constructor.
              ** exists path, size. auto.
              ** apply IHb; [reflexivity |]. cbn [promiseAll] in Hres.
                 destruct (repos_uploadAsset _ _); [| discriminate].
                 now destruct (promiseAll _).
      * split; [exact IHa |]. intros _ Hres. discriminate.
    + split; [exact IHa |]. intros _ Hres. discriminate.
Qed.

End GithubUploads.



Lemma pypi_rest_run (env : Env) (file : Artifact) (path : string) (w : World) :
  (log LInfo ["Uploading file " +:+ quoted (name file) +:+ " via twine"] ;;
   PypiTarget.uploadAsset env path) w =
  (if dryRun w then Resolved tt
   else childProcess env (Some (PypiTarget.TWINE_BIN env)) ["upload"; path]
          (processEnv env),
   withTrace w
     (trace w ++
      [Log LInfo ["Uploading file " +:+ quoted (name file) +:+ " via twine"];
       if dryRun w
       then Log LInfo ["[dry-run] Not spawning process:";
                       PypiTarget.TWINE_BIN env; "upload"; path]
       else SpawnProcess (Some (PypiTarget.TWINE_BIN env)) ["upload"; path]
              (processEnv env)])).
Proof.
  unfold PypiTarget.uploadAsset, System.spawnProcess.
  unfold bind, log, emit, await, ret, shouldPerform, withTrace.
  cbn -[String.append PypiTarget.TWINE_BIN].
  destruct (dryRun w); cbn -[String.append PypiTarget.TWINE_BIN];
    now rewrite <- !app_assoc.
Qed.

Section TwineUploads.

Context (env : Env).
Context (out : bool -> Artifact -> string -> Promise unit).
Context (add : bool -> Artifact -> string -> list Event).

Hypothesis add_spawned :
  forall d (a : Artifact) path,
    PublishSpec.spawned (add d a path) =
    if d then [] else [(Some (PypiTarget.TWINE_BIN env), ["upload"; path])].

Lemma twine_uploads_of_downloads (cache : gmap string (Promise string))
  (d : bool) (artifacts : list Artifact) (ps : list (Promise string)) :
  Forall2 (fun a p => cache !! download_url a = Some p) artifacts ps ->
  let processes :=
    PublishSpec.spawned
      (flat_map (PublishSpec.continued (add d)) (combine artifacts ps)) in
  Forall (fun process => exists a, PublishSpec.twineUploadOf env cache a process)
    processes
  /\ (d = false ->
      isResolved
        (promiseAll (map (PublishSpec.settle (out d)) (combine artifacts ps)))
      = true ->
      Forall2 (PublishSpec.twineUploadOf env cache) artifacts processes).
Proof.
  induction 1 as [| a p artifacts ps Hap Hall [IHa IHb]]; cbn zeta.
  - split; constructor.
  - cbn [combine flat_map map]. rewrite spawned_app.
    destruct p as [path | e].
    + change (PublishSpec.continued (add d) (a, Resolved path))
        with (add d a path).
      change (PublishSpec.settle (out d) (a, Resolved path))
        with (out d a path).
      rewrite add_spawned.
      destruct d.
      * split; [exact IHa | discriminate].
      * split.
        -- constructor; [| exact IHa]. exists a, path. auto.
        -- intros _ Hres. cbn [app]. constructor.
           ++ exists path. auto.
           ++ apply IHb; [reflexivity |]. cbn [promiseAll] in Hres.
              destruct (out false a path); [| discriminate].
              now destruct (promiseAll _).
    + split; [exact IHa |]. intros _ Hres. discriminate.
Qed.

End TwineUploads.



(** ** The release command: the pre-release command and the token *)

(** X18: the pre-release command.  A command configured as the empty string
    is not run: one warning is logged.  Otherwise a live run starts one
    child process and settles as it does: without a configured command this
    is [/bin/bash scripts/bump-version.sh]; a configured command is split
    into words, the first being the program; in both cases an empty old
    version and the new version are appended as the last two arguments, and
    the environment of the child is the environment of the process with
    [CRAFT_NEW_VERSION] and [CRAFT_OLD_VERSION] set, replacing values the
    process already has for them. *)
Theorem preRelease_command_invocation (env : Env) (newVersion : string)
  (preReleaseCommand : option string) (w : World) :
  let run := Release.runPreReleaseCommand env newVersion preReleaseCommand w in
  (preReleaseCommand = Some "" ->
   run =
   (Resolved tt,
    withTrace w
      (trace w ++
       [Log LWarn ["Not running the pre-release command: no command specified"]])))
  /\ (preReleaseCommand <> Some "" ->
      dryRun w = false ->
      exists sysCommand given childEnv,
        match preReleaseCommand with
        | None =>
            sysCommand = Some "/bin/bash"
            /\ given = ["scripts/bump-version.sh"]
        | Some command =>
            sysCommand = head (shellQuoteParse env command)
            /\ given = tail (shellQuoteParse env command)
        end
        /\ run =
           (childProcess env sysCommand (given ++ [""; newVersion]) childEnv,
            withTrace w
              (trace w ++
               [Log LInfo ["Running a pre-release command..."];
                SpawnProcess sysCommand (given ++ [""; newVersion]) childEnv]))
        /\ childEnv !! "CRAFT_NEW_VERSION" = Some newVersion
        /\ childEnv !! "CRAFT_OLD_VERSION" = Some ""
        /\ forall key,
             key <> "CRAFT_NEW_VERSION" -> key <> "CRAFT_OLD_VERSION" ->
             childEnv !! key = processEnv env !! key).
Proof.
  intros run. subst run. split.
  - intros ->. reflexivity.
  - intros Hcmd Hlive.
    set (childEnv :=
           (<["CRAFT_NEW_VERSION" := newVersion]>
              (<["CRAFT_OLD_VERSION" := ""]> ∅) : gmap string string)
           ∪ processEnv env).
    assert (childEnv !! "CRAFT_NEW_VERSION" = Some newVersion
            /\ childEnv !! "CRAFT_OLD_VERSION" = Some ""
            /\ forall key,
                 key <> "CRAFT_NEW_VERSION" -> key <> "CRAFT_OLD_VERSION" ->
                 childEnv !! key = processEnv env !! key) as Henv.
    { subst childEnv. split; [| split].
      - apply lookup_union_Some_l. apply lookup_insert_eq.
      - apply lookup_union_Some_l.
        rewrite lookup_insert_ne by discriminate. apply lookup_insert_eq.
      - intros key H1 H2. apply lookup_union_r.
        rewrite !lookup_insert_ne by congruence. apply lookup_empty. }
    assert (forall sysCommand args,
              (log LInfo ["Running a pre-release command..."] ;;
               System.spawnProcess env sysCommand args childEnv) w =
              (childProcess env sysCommand args childEnv,
               withTrace w
                 (trace w ++
                  [Log LInfo ["Running a pre-release command..."];
                   SpawnProcess sysCommand args childEnv]))) as Hspawn.
    { intros sysCommand args. unfold System.spawnProcess.
      unfold bind, log, emit, await, shouldPerform, withTrace. cbn.
      rewrite Hlive. cbn. now rewrite <- app_assoc. }
    destruct preReleaseCommand as [command |].
    + exists (head (shellQuoteParse env command)),
        (tail (shellQuoteParse env command)), childEnv.
      split; [auto |]. split; [| exact Henv].
      rewrite <- Hspawn.
      destruct command as [| c command]; [now contradiction Hcmd |].
      unfold Release.runPreReleaseCommand.
      now destruct (shellQuoteParse env (String c command)).
    + exists (Some "/bin/bash"), ["scripts/bump-version.sh"], childEnv.
      split; [auto |]. split; [| exact Henv].
      rewrite <- Hspawn. reflexivity.
Qed.

(** X19: the release command needs the GitHub token.  When
    [GITHUB_API_TOKEN] is not set in the environment, or is empty, the
    release fails, also under dry-run, and does so before it asks git or
    GitHub anything: until then it has only changed the directory, read the
    changelog and written log lines. *)
Theorem release_needs_token (env : Env) (argv : Release.ReleaseOptions)
  (w : World) :
  let run := Release.release env argv w in
  default "" (processEnv env !! "GITHUB_API_TOKEN") = "" ->
  isResolved (fst run) = false
  /\ exists t,
       trace (snd run) = trace w ++ t
       /\ Forall
            (fun e =>
               match e with
               | Log _ _ | Chdir _ | FsExists _ | FsReadFile _ => True
               | _ => False
               end) t.
Proof.
  intros run Htoken.
  set (P := fun e =>
              match e with
              | Log _ _ | Chdir _ | FsExists _ | FsReadFile _ => True
              | _ => False
              end).
  assert (exists e w1 t,
            run = (Rejected e, w1) /\ trace w1 = trace w ++ t /\ Forall P t)
    as (e & w1 & t & -> & Ht & HP).
  2: { split; [reflexivity |]. now exists t. }
  subst run. unfold Release.release.
  rewrite bind_run. unfold await at 1.
  destruct (getConfiguration env) as [config | e].
  2: { exists e, w, []. now rewrite app_nil_r. }
  rewrite bind_run. unfold emit at 1. cbv beta iota.
  set (w0 := withTrace w (trace w ++ [Chdir (configFileDir env)])).
  rewrite bind_run.
  assert (Emits None P
            (Release.checkChangelog env (Release.newVersion argv)
               (if Release.noChangelog argv then Some ChangelogPolicy.None_
                else Config.changelogPolicy config)
               (Config.changelog config))) as Hem.
  { unfold Release.checkChangelog. emits. }
  destruct (Hem w0 I) as (_ & t1 & Ht1 & HP1).
  assert (trace w0 ++ t1 = trace w ++ Chdir (configFileDir env) :: t1) as Ht0.
  { subst w0. cbn. now rewrite <- app_assoc. }
  rewrite Ht0 in Ht1. clearbody w0.
  destruct (Release.checkChangelog _ _ _ _ w0) as [[[] | e] w1];
    cbn [fst snd] in *.
  2: { exists e, w1, (Chdir (configFileDir env) :: t1).
       repeat split; [assumption |]. constructor; [exact I | assumption]. }
  rewrite bind_run.
  assert (GithubApi.getGithubClient env "" w1 =
          (Rejected
             (Error "GitHub target: GITHUB_API_TOKEN not found in the environment"),
           w1)) as ->.
  { unfold GithubApi.getGithubClient. cbv zeta. rewrite Htoken. reflexivity. }
  eexists _, w1, (Chdir (configFileDir env) :: t1).
  repeat split; [assumption |]. constructor; [exact I | assumption].
Qed.

(** The sample project without a token in the environment, under dry-run:
    the release stops after the changelog check. *)
Lemma release_needs_token_witness :
  let env := SampleToken.env in
  let run :=
    Release.release env SampleRelease.argv (DryRun.withDryRun true SampleRun.start) in
  default "" (processEnv env !! "GITHUB_API_TOKEN") = ""
  /\ isResolved (fst run) = false
  /\ exists t,
       trace (snd run) = trace (DryRun.withDryRun true SampleRun.start) ++ t
       /\ Forall
            (fun e =>
               match e with
               | Log _ _ | Chdir _ | FsExists _ | FsReadFile _ => True
               | _ => False
               end) t.
Proof.
  cbv zeta. split; [reflexivity |].
  apply (release_needs_token SampleToken.env SampleRelease.argv
           (DryRun.withDryRun true SampleRun.start)).
  reflexivity.
Defined.

(** ** The release command: the order of its stages *)

Lemma stages_app (t1 t2 : list Event) :
  ReleasePlan.stages (t1 ++ t2) =
  ReleasePlan.stages t1 ++ ReleasePlan.stages t2.
Proof. apply flat_map_app. Qed.

Lemma stages_quiet (t : list Event) :
  Forall (fun e => ReleasePlan.stageOf e = None) t -> ReleasePlan.stages t = [].
Proof.
  induction 1 as [| e t He _ IH]; [reflexivity |].
  unfold ReleasePlan.stages in *. cbn. now rewrite He.
Qed.

Lemma Performs_quiet {A} (dry : bool) (m : M A) :
  Emits None (fun e => ReleasePlan.stageOf e = None) m ->
  ReleasePlan.Performs dry m [].
Proof.
  intros Hm w Hd. destruct (Hm w I) as (Hdry & t & Ht & HP).
  split; [congruence |]. exists t. split; [assumption |].
  rewrite (stages_quiet _ HP). split; [reflexivity | auto].
Qed.

Lemma Performs_bind {A B} (dry : bool) (m : M A) (f : A -> M B)
  (l1 l2 : list ReleasePlan.Stage) :
  ReleasePlan.Performs dry m l1 ->
  (forall a, ReleasePlan.Performs dry (f a) l2) ->
  ReleasePlan.Performs dry (bind m f) (l1 ++ l2).
Proof.
  intros Hm Hf w Hd. rewrite bind_run.
  destruct (Hm w Hd) as (Hd1 & t1 & Ht1 & Hp1 & Hr1).
  destruct (m w) as [[a | e] w1]; cbn [fst snd] in *.
  - destruct (Hf a w1 Hd1) as (Hd2 & t2 & Ht2 & Hp2 & Hr2).
    split; [assumption |]. exists (t1 ++ t2).
    split; [now rewrite Ht2, Ht1, app_assoc |].
    rewrite stages_app, (Hr1 eq_refl). split.
    + now apply prefix_app.
    + intros Hres. now rewrite (Hr2 Hres).
  - split; [assumption |]. exists t1. split; [assumption |].
    split; [now apply prefix_app_r | discriminate].
Qed.

(** Runs a computation without loops in a process whose dry-run flag is
    known, case by case, and reads the stages off the trace. *)
Ltac performs_cases :=
  let w := fresh "w" in
  let Hd := fresh "Hd" in
  intros w Hd;
  unfold bind, tryCatch, log, emit, await, ret, throw, shouldPerform, isDryRun,
    withTrace;
  cbn -[String.append calls];
  rewrite ?Hd; cbn -[String.append calls];
  repeat match goal with
         | |- context [match ?x with _ => _ end] =>
             lazymatch x with
             | context [match _ with _ => _ end] => fail
             | _ =>
                 destruct x; cbn -[String.append calls];
                 rewrite ?Hd; cbn -[String.append calls]
             end
         end;
  (split; [first [reflexivity | assumption] |]);
  rewrite <- ?app_assoc;
  first [ exists []; split; [now rewrite app_nil_r |]
        | eexists; split; [reflexivity |] ];
  (split; [eexists; reflexivity |]);
  intros; first [discriminate | reflexivity].

Lemma Performs_createReleaseBranch (dry : bool) (git : SimpleGit)
  (newVersion : string) :
  ReleasePlan.Performs dry (Release.createReleaseBranch git newVersion)
    (ReleasePlan.whenLive dry [ReleasePlan.StageBranch]).
Proof.
  unfold Release.createReleaseBranch, Release.gitRevparse,
    Release.gitCheckoutLocalBranch, Errors.reportError.
  destruct dry; performs_cases.
Qed.

Lemma Performs_runPreReleaseCommand (dry : bool) (env : Env)
  (newVersion : string) (preReleaseCommand : option string) :
  ReleasePlan.Performs dry
    (Release.runPreReleaseCommand env newVersion preReleaseCommand)
    (ReleasePlan.whenLive dry
       (match preReleaseCommand with
        | Some "" => []
        | _ => [ReleasePlan.StagePreRelease]
        end)).
Proof.
  unfold Release.runPreReleaseCommand, System.spawnProcess.
  destruct preReleaseCommand as [[| c command] |]; destruct dry;
    performs_cases.
Qed.

Lemma Performs_commitNewVersion (dry : bool) (git : SimpleGit)
  (newVersion : string) :
  ReleasePlan.Performs dry (Release.commitNewVersion git newVersion)
    (ReleasePlan.whenLive dry [ReleasePlan.StageCommit]).
Proof.
  unfold Release.commitNewVersion, Release.gitStatus, Release.gitCommit,
    Errors.reportError, getTrace.
  destruct dry; performs_cases.
Qed.

Lemma Performs_pushReleaseBranch (dry : bool) (git : SimpleGit)
  (branchName : string) (pushFlag : bool) :
  ReleasePlan.Performs dry (Release.pushReleaseBranch git branchName pushFlag)
    (ReleasePlan.whenLive dry
       (if pushFlag then [ReleasePlan.StagePush] else [])).
Proof.
  unfold Release.pushReleaseBranch, Release.gitPush.
  destruct pushFlag, dry; performs_cases.
Qed.

Lemma Performs_execPublish (dry : bool) (env : Env) (newVersion : string) :
  ReleasePlan.Performs dry (Release.execPublish env newVersion)
    [ReleasePlan.StagePublish].
Proof.
  unfold Release.execPublish, Release.publishMain, Release.processExit,
    System.sleepAsync.
  destruct dry; performs_cases.
Qed.

Lemma Performs_release_body (dry : bool) (env : Env)
  (argv : Release.ReleaseOptions) (config : Config.Configuration) :
  ReleasePlan.Performs dry
    (emit (Chdir (configFileDir env)) ;;
     Release.checkChangelog env (Release.newVersion argv)
       (if Release.noChangelog argv then Some ChangelogPolicy.None_
        else Config.changelogPolicy config)
       (Config.changelog config) ;;
     githubClient <- GithubApi.getGithubClient env "" ;;
     defaultBranch <- GithubApi.getDefaultBranch env githubClient
                        (Config.owner (Config.github config))
                        (Config.repo (Config.github config)) ;;
     Release.checkGitState (simpleGit env (configFileDir env)) defaultBranch
       (negb (Release.noGitChecks argv)) ;;
     log LInfo ["Preparing to release the version: " +:+
                Release.newVersion argv] ;;
     branchName <- Release.createReleaseBranch
                     (simpleGit env (configFileDir env))
                     (Release.newVersion argv) ;;
     Release.runPreReleaseCommand env (Release.newVersion argv)
       (Config.preReleaseCommand config) ;;
     Release.commitNewVersion (simpleGit env (configFileDir env))
       (Release.newVersion argv) ;;
     Release.pushReleaseBranch (simpleGit env (configFileDir env)) branchName
       (negb (Release.noPush argv)) ;;
     if Release.publish argv
     then Release.execPublish env (Release.newVersion argv)
     else
       log LSuccess
         ["Done. Do not forget to run " +:+ quoted "craft publish" +:+
          " to publish the artifacts:";
          "  $ craft publish " +:+ Release.newVersion argv])
    (ReleasePlan.plan dry config argv).
Proof.
  unfold ReleasePlan.plan.
  apply (Performs_bind dry _ _ [] _);
    [apply Performs_quiet; emits | intros _].
  apply (Performs_bind dry _ _ [] _);
    [apply Performs_quiet; unfold Release.checkChangelog; emits | intros _].
  apply (Performs_bind dry _ _ [] _);
    [apply Performs_quiet; unfold GithubApi.getGithubClient; emits
    | intros githubClient].
  apply (Performs_bind dry _ _ [] _);
    [apply Performs_quiet; unfold GithubApi.getDefaultBranch; emits
    | intros defaultBranch].
  apply (Performs_bind dry _ _ [] _);
    [apply Performs_quiet;
     unfold Release.checkGitState, Release.gitCheckIsRepo, Release.gitStatus,
       Errors.reportError; emits
    | intros _].
  apply (Performs_bind dry _ _ [] _);
    [apply Performs_quiet; emits | intros _].
  apply Performs_bind; [apply Performs_createReleaseBranch | intros branchName].
  apply Performs_bind; [apply Performs_runPreReleaseCommand | intros _].
  apply Performs_bind; [apply Performs_commitNewVersion | intros _].
  apply Performs_bind.
  - pose proof (Performs_pushReleaseBranch dry
                  (simpleGit env (configFileDir env)) branchName
                  (negb (Release.noPush argv))) as H.
    now destruct (Release.noPush argv).
  - intros _. destruct (Release.publish argv).
    + apply Performs_execPublish.
    + apply Performs_quiet. emits.
Qed.

(** X20: the release command goes through its stages in one order.  The
    stages that change something are: creating the release branch, running
    the pre-release command, committing, pushing, and running the publish
    command.  A live release goes through those its configuration and
    options ask for (no pre-release command when it is configured empty, no
    push with [noPush], the publish command only with [publish]) in this
    order, each at most once, and stops at the first failure: what it has
    gone through is then a prefix of the plan; a release that succeeds has
    gone through the whole plan.  Under dry-run only the publish command is
    left of the plan.  Without a configuration nothing happens at all. *)
Theorem release_stages_in_order (env : Env) (argv : Release.ReleaseOptions)
  (w : World) :
  let run := Release.release env argv w in
  match getConfiguration env with
  | Resolved config =>
      let plan := ReleasePlan.plan (dryRun w) config argv in
      exists t,
        trace (snd run) = trace w ++ t
        /\ ReleasePlan.stages t `prefix_of` plan
        /\ (isResolved (fst run) = true -> ReleasePlan.stages t = plan)
  | Rejected e => run = (Rejected e, w)
  end.
Proof.
  intros run. subst run. unfold Release.release.
  rewrite bind_run. unfold await at 1.
  destruct (getConfiguration env) as [config | e]; [| reflexivity].
  cbv zeta.
  destruct (Performs_release_body (dryRun w) env argv config w eq_refl)
    as (_ & t & Ht & Hpre & Hres).
  now exists t.
Qed.

(** The sample release of version 1.2.0, live: branch, pre-release command,
    commit and push, in this order. *)
Lemma release_stages_in_order_witness :
  let env := SampleRun.env (Resolved tt) in
  let run := Release.release env SampleRelease.argv SampleRun.start in
  ReleasePlan.stages (trace (snd run)) =
    [ReleasePlan.StageBranch; ReleasePlan.StagePreRelease;
     ReleasePlan.StageCommit; ReleasePlan.StagePush]
  /\ exists t,
       trace (snd run) = trace SampleRun.start ++ t
       /\ ReleasePlan.stages t `prefix_of`
            ReleasePlan.plan false SampleRelease.configuration SampleRelease.argv
       /\ (isResolved (fst run) = true ->
           ReleasePlan.stages t =
           ReleasePlan.plan false SampleRelease.configuration SampleRelease.argv).
Proof.
  cbv zeta. split; [vm_compute; reflexivity |].
  apply (release_stages_in_order (SampleRun.env (Resolved tt))
           SampleRelease.argv SampleRun.start).
Defined.

(** ** The GitHub target: finding or creating the release *)

(** X21: the release of a tag is looked up once.  A release that exists is
    returned and nothing else is asked or created; an error of the lookup
    other than 404 is thrown on, likewise.  After a 404 the changelog is
    fetched at the revision; an error of that request other than 404 is
    thrown on and no release is created.  Otherwise a live run creates the
    release and settles as the request does: for the tag, at the revision,
    never as a draft, as a pre-release exactly when asked; its name and
    body are those of the changeset which the changelog holds for the tag,
    and without such a changeset the name is the tag and there is no
    body. *)
Theorem getOrCreateRelease_outcome (env : Env)
  (this : GithubTarget.GithubTarget) (tag revision : string)
  (isPreview : bool) (w : World) :
  let cfg := GithubTarget.githubConfig this in
  let gh := GithubTarget.github this in
  let owner := GithubTarget.owner cfg in
  let repo := GithubTarget.repo cfg in
  let path :=
    orElse (default "" (GithubTarget.changelog cfg)) "CHANGELOG.md" in
  let lookup := repos_getReleaseByTag gh owner repo tag in
  let file := repos_getContent gh owner path revision repo in
  let run := GithubTarget.getOrCreateRelease env this tag revision isPreview w in
  (forall found,
     lookup = Resolved found ->
     run = (Resolved found,
            withTrace w (trace w ++ [GithubGetReleaseByTag owner repo tag])))
  /\ (forall e,
        lookup = Rejected e -> code e <> Some 404%Z ->
        run = (Rejected e,
               withTrace w (trace w ++ [GithubGetReleaseByTag owner repo tag])))
  /\ (forall e e',
        lookup = Rejected e -> code e = Some 404%Z ->
        file = Rejected e' -> code e' <> Some 404%Z ->
        run = (Rejected e',
               withTrace w
                 (trace w ++ [GithubGetReleaseByTag owner repo tag;
                              GithubGetContent owner path revision repo])))
  /\ (forall e,
        lookup = Rejected e -> code e = Some 404%Z ->
        (forall e', file = Rejected e' -> code e' = Some 404%Z) ->
        dryRun w = false ->
        let changes :=
          match file with
          | Resolved content =>
              if truthy (base64decode env content)
              then findChangeset env (base64decode env content) tag
              else None
          | Rejected _ => None
          end in
        exists params line,
          run = (repos_createRelease gh params,
                 withTrace w
                   (trace w ++ [GithubGetReleaseByTag owner repo tag;
                                GithubGetContent owner path revision repo;
                                Log LInfo line;
                                GithubCreateRelease params]))
          /\ cr_tag_name params = tag
          /\ cr_target_commitish params = revision
          /\ cr_draft params = false
          /\ cr_prerelease params = isPreview
          /\ cr_owner params = owner
          /\ cr_repo params = repo
          /\ cr_name params =
             match changes with Some c => cs_name c | None => tag end
          /\ cr_body params = option_map cs_body changes).
Proof.
  intros cfg gh owner repo path lookup file run.
  subst run lookup file.
  unfold GithubTarget.getOrCreateRelease, GithubApi.getFile.
  fold cfg. fold gh. fold owner. fold repo.
  change GithubTarget.DEFAULT_CHANGELOG_PATH with "CHANGELOG.md".
  fold path.
  unfold bind, tryCatch, log, emit, await, ret, throw, shouldPerform, withTrace.
  cbn -[String.append path].
  split; [| split; [| split]].
  - intros found ->. reflexivity.
  - intros e -> Hcode. cbn -[String.append path].
    now destruct (decide (code e = Some 404%Z)).
  - intros e e' -> Hcode -> Hcode'. cbn -[String.append path].
    destruct (decide (code e = Some 404%Z)); [| contradiction].
    cbn -[String.append path].
    destruct (decide (code e' = Some 404%Z)); [contradiction |].
    cbn -[String.append path]. now rewrite <- app_assoc.
  - intros e -> Hcode Hfile Hlive. cbn -[String.append path].
    destruct (decide (code e = Some 404%Z)); [| contradiction].
    cbn -[String.append path].
    destruct (repos_getContent gh owner path revision repo)
      as [content | e'] eqn:Hcontent; cbn -[String.append path].
    + rewrite Hlive. cbn -[String.append path].
      eexists _, _. split.
      * rewrite <- !app_assoc. cbn -[String.append path]. reflexivity.
      * cbn. repeat split.
    + destruct (decide (code e' = Some 404%Z)) as [_ | Hn];
        [| now contradiction Hn; apply Hfile].
      cbn -[String.append path]. rewrite Hlive. cbn -[String.append path].
      eexists _, _. split.
      * rewrite <- !app_assoc. cbn -[String.append path]. reflexivity.
      * cbn. repeat split.
Qed.

(** ** The artifact store: revisions *)

(** X22: the information about a revision is not cached.  Every call of
    [getRevision] asks the client, for the project of the store, and leaves
    the store as it is; asking twice for the same revision makes two
    requests. *)
Theorem getRevision_not_cached (revision : string) (w : World) :
  let run := Zeus.getRevision revision w in
  let again := Zeus.getRevision revision (snd run) in
  run =
    (client_getRevision (client (store w)) (calls isZeusGetRevision (trace w))
       (repoOwner (store w)) (repoName (store w)) revision,
     withTrace w
       (trace w ++
        [ZeusGetRevision (repoOwner (store w)) (repoName (store w)) revision]))
  /\ store (snd run) = store w
  /\ calls isZeusGetRevision (trace (snd again)) =
     2 + calls isZeusGetRevision (trace w).
Proof.
  intros run again. subst again run.
  unfold Zeus.getRevision, Zeus.clientGetRevision.
  unfold bind, getStore, getTrace, emit, ret, await, withTrace.
  cbn -[calls]. split; [reflexivity |]. split; [reflexivity |].
  rewrite !calls_app. cbn. lia.
Qed.

(** ** The demo command *)

(** X23: the demo command.  It fails exactly when the prompt fails, or when
    the user is ready and there is no message: none on the command line and
    none typed.  A user who is not ready ends the command without an error,
    whatever the messages.  The message printed is the one of the command
    line when there is one, and the typed one otherwise. *)
Theorem demo_handler_outcome (chalk : Demo.Chalk) (argv : Demo.DemoOptions)
  (user : Promise Demo.User) :
  let run := Demo.handler chalk argv user in
  let given := default "" (Demo.opt_message argv) in
  (forall e, user = Rejected e -> run = (Rejected e, []))
  /\ (forall u,
        user = Resolved u -> Demo.confirmed u = false ->
        fst run = Resolved tt /\ length (snd run) = 2)
  /\ (forall u,
        user = Resolved u -> Demo.confirmed u = true ->
        let message := if truthy given then given else Demo.typed u in
        if truthy message
        then run =
             (Resolved tt,
              [[]; ["🎉  %s! %s"; Demo.green chalk "woooho";
                    Demo.dim chalk message]])
        else run = (Rejected (Error "You need to enter a message"), [[]])).
Proof.
  intros run given. subst run given. unfold Demo.handler, Demo.prompt.
  split; [| split].
  - now intros e ->.
  - intros u -> Hc. cbn. now rewrite Hc.
  - intros u -> Hc. cbn [Demo.ready Demo.ans_message]. rewrite Hc.
    cbn [negb]. unfold orElse.
    destruct (truthy (default "" (Demo.opt_message argv))) eqn:Hg;
      cbn [negb].
    + change (default "" None) with "".
      assert (truthy "" = false) as -> by reflexivity.
      cbv zeta. now rewrite Hg.
    + change (default "" (Some (Demo.typed u))) with (Demo.typed u).
      cbv zeta.
      destruct (truthy (Demo.typed u)) eqn:Ht; cbn [negb].
      * now rewrite Ht.
      * now rewrite Hg.
Qed.
